(** * rnet: raylib's network module, embedded in Rocq

    The module wraps the Berkeley socket interface.  Every function of the
    module is translated into a function of a small state-and-fault monad
    over a [World]: the thread's last-error slot, the replies the operating
    system is going to give (an oracle, consumed one reply per native call),
    and the record of the native calls made so far.  Socket sets hold
    pointers: the functions on them take and return the heap of allocated
    [Socket] objects.

    The constants and types that the module takes from [rnet.h] and from
    the system headers are the fields of the class [Platform].

    Conventions:
    - C integers are in [Z]; pointers that the code tests against NULL or
      dereferences are options, and dereferencing [None] is a fault;
    - socket addresses are blocks of raw bytes, copied as memcpy and
      structure assignment copy them; bytes read from memory the program
      never wrote (past the end of an object, or in an uninitialised
      local) are supplied by the oracle;
    - a store outside the bounds of an object is a fault, reported with
      its offset and the size of the object;
    - TraceLog and the getnameinfo and inet_ntop calls that only feed it
      are left out: logging changes no state of the module;
    - of the platform conditionals, the branch that is not Windows is the
      one translated. *)

From Stdlib Require Import ZArith Lia Ascii.
From stdpp Require Import base numbers option list gmap strings.

Local Open Scope Z_scope.

(** ** Platform constants and C library functions *)

Class Platform : Type := {
  AF_UNSPEC : Z;
  AF_INET : Z;
  AF_INET6 : Z;
  SOCK_STREAM : Z;
  SOCK_DGRAM : Z;
  SOL_SOCKET : Z;
  AI_PASSIVE : Z;
  AI_NUMERICHOST : Z;
  O_NONBLOCK : Z;
  INVALID_SOCKET : Z;
  SOCKET_ERROR : Z;
  WSAEINTR : Z;
  WSAEWOULDBLOCK : Z;
  SOCKET_MAX_QUEUE_SIZE : Z;
  SOCKET_MAX_SOCK_OPTS : Z;
  SOCKET_MAX_UDPCHANNELS : Z;
  SOCKET_MAX_UDPADDRESSES : Z;
  sizeof_Socket : Z;
  sizeof_SocketSet : Z;
  sizeof_addrinfo : Z;
  sizeof_pointer : Z;
  (* int inet_pton(int af, const char *src, void *dst): the return value
     and the bytes stored at dst *)
  inet_pton : Z -> string -> Z * list Z;
  (* unsigned long strtoul(const char *nptr, NULL, 0) *)
  strtoul : string -> Z;
  (* the two flags are distinct bits; the error indicator is negative;
     no error code is 0; the channel table is not empty *)
  AI_flags_disjoint : Z.land AI_PASSIVE AI_NUMERICHOST = 0;
  SOCKET_ERROR_negative : SOCKET_ERROR < 0;
  WSAEINTR_nonzero : WSAEINTR <> 0;
  UDPCHANNELS_positive : 0 < SOCKET_MAX_UDPCHANNELS;
  UDPADDRESSES_positive : 0 < SOCKET_MAX_UDPADDRESSES
}.

(** ** Raw memory *)

(** A memory block is the list of its bytes, each in [0, 256). *)
Definition block := list Z.

Definition sizeof_sockaddr : nat := 16.
Definition sizeof_sockaddr_in : nat := 16.
Definition sizeof_sockaddr_in6 : nat := 28.
Definition sizeof_sockaddr_storage : nat := 128.

(** Offsets of the members, the same on every platform of the module:
    the family at 0, the port at 2 (network byte order), the IPv4 address
    at 4, the IPv6 address at 8. *)
Definition offsetof_sin_port : nat := 2.
Definition offsetof_sin_addr : nat := 4.
Definition offsetof_sin6_addr : nat := 8.

(** The 16-bit family member, read on a little-endian host. *)
Definition sa_family (sa : block) : Z :=
  default 0 (sa !! 0%nat) + 256 * default 0 (sa !! 1%nat).

(** The port member is kept in network byte order: ntohs of it. *)
Definition sa_port (sa : block) : Z :=
  256 * default 0 (sa !! offsetof_sin_port) + default 0 (sa !! S offsetof_sin_port).

(** htons((uint16) hport), as the two bytes stored in memory *)
Definition htons_bytes (hport : Z) : block :=
  [(hport mod 65536) / 256; hport mod 256].

(** ** Data of the module *)

Inductive SocketType := SOCKET_TCP | SOCKET_UDP | SOCKET_OTHER.
Inductive ResultStatus := RESULT_SUCCESS | RESULT_FAILURE.

#[global] Instance SocketType_eq_dec : EqDecision SocketType.
Proof. solve_decision. Defined.

Record addrinfo := {
  ai_flags : Z;
  ai_family : Z;
  ai_socktype : Z;
  ai_protocol : Z;
  ai_addrlen : Z;
  ai_addr : option block;
  ai_canonname : option string
}.

Record IPAddress := { ip_host : Z; ip_port : Z }.

Record UDPChannel := {
  numbound : Z;
  address : list IPAddress
}.

Record SocketOpt := {
  opt_id : Z;
  opt_value : block;
  opt_valueLen : Z
}.

Record SocketConfig := {
  cfg_host : option string;
  cfg_port : option string;
  cfg_server : bool;
  cfg_nonblocking : bool;
  cfg_type : SocketType;
  cfg_backlog_size : Z;
  cfg_sockopts : list SocketOpt
}.

(** [addripv4] and [addripv6] are pointers to heap blocks: [None] is NULL. *)
Record Socket := {
  ready : Z;
  status : Z;
  isServer : bool;
  channel : Z;
  type : SocketType;
  isIPv6 : bool;
  addripv4 : option block;
  addripv6 : option block;
  binding : list UDPChannel
}.

Record SocketResult := {
  res_status : ResultStatus;
  res_socket : option Socket
}.

Definition set_ready (v : Z) (s : Socket) : Socket :=
  {| ready := v; status := status s; isServer := isServer s;
     channel := channel s; type := type s; isIPv6 := isIPv6 s;
     addripv4 := addripv4 s; addripv6 := addripv6 s; binding := binding s |}.

Definition set_status (v : Z) (s : Socket) : Socket :=
  {| ready := ready s; status := v; isServer := isServer s;
     channel := channel s; type := type s; isIPv6 := isIPv6 s;
     addripv4 := addripv4 s; addripv6 := addripv6 s; binding := binding s |}.

Definition set_isServer (v : bool) (s : Socket) : Socket :=
  {| ready := ready s; status := status s; isServer := v;
     channel := channel s; type := type s; isIPv6 := isIPv6 s;
     addripv4 := addripv4 s; addripv6 := addripv6 s; binding := binding s |}.

Definition set_channel (v : Z) (s : Socket) : Socket :=
  {| ready := ready s; status := status s; isServer := isServer s;
     channel := v; type := type s; isIPv6 := isIPv6 s;
     addripv4 := addripv4 s; addripv6 := addripv6 s; binding := binding s |}.

Definition set_type (v : SocketType) (s : Socket) : Socket :=
  {| ready := ready s; status := status s; isServer := isServer s;
     channel := channel s; type := v; isIPv6 := isIPv6 s;
     addripv4 := addripv4 s; addripv6 := addripv6 s; binding := binding s |}.

Definition set_isIPv6 (v : bool) (s : Socket) : Socket :=
  {| ready := ready s; status := status s; isServer := isServer s;
     channel := channel s; type := type s; isIPv6 := v;
     addripv4 := addripv4 s; addripv6 := addripv6 s; binding := binding s |}.

Definition set_addripv4 (v : option block) (s : Socket) : Socket :=
  {| ready := ready s; status := status s; isServer := isServer s;
     channel := channel s; type := type s; isIPv6 := isIPv6 s;
     addripv4 := v; addripv6 := addripv6 s; binding := binding s |}.

Definition set_addripv6 (v : option block) (s : Socket) : Socket :=
  {| ready := ready s; status := status s; isServer := isServer s;
     channel := channel s; type := type s; isIPv6 := isIPv6 s;
     addripv4 := addripv4 s; addripv6 := v; binding := binding s |}.

Definition set_binding (v : list UDPChannel) (s : Socket) : Socket :=
  {| ready := ready s; status := status s; isServer := isServer s;
     channel := channel s; type := type s; isIPv6 := isIPv6 s;
     addripv4 := addripv4 s; addripv6 := addripv6 s; binding := v |}.

(** ** The world: last error, native replies, native calls *)

Inductive Call :=
| call_getaddrinfo (node service : option string) (hints : addrinfo)
| call_freeaddrinfo
| call_socket (domain ty protocol : Z)
| call_setsockopt (fd level optname : Z) (optval : block) (optlen : Z)
| call_fcntl_getfl (fd : Z)
| call_fcntl_setfl (fd flags : Z)
| call_bind (fd : Z) (addr : block) (len : Z)
| call_getsockname (fd : Z)
| call_listen (fd backlog : Z)
| call_connect (fd family : Z) (port addr : block) (len : Z)
| call_accept (fd : Z)
| call_closesocket (fd : Z)
| call_send (fd : Z) (data : block) (len : Z)
| call_sendto (fd : Z) (data : block) (len : Z) (dest : option block) (destlen : Z)
| call_recv (fd len : Z)
| call_recvfrom (fd len : Z)
| call_select (nfds : Z) (readfds : list Z) (tv_sec tv_usec : Z)
| call_malloc (size : Z)
| call_read_indeterminate (n : nat).

Inductive Reply :=
| R_ok (v : Z)
| R_err (e : Z)
| R_addrinfo (st : Z) (res : list addrinfo)
| R_data (bs : block)
| R_accept (fd : Z) (peer : block)
| R_select (n : Z) (readable : list Z).

Inductive Fault :=
| OracleExhausted
| OracleMismatch
| NullDereference
| LoadOutOfBounds (off size : Z)
| StoreOutOfBounds (off size : Z)
| AssertionFailed
| OutOfFuel.

Record World := {
  w_errno : Z;
  w_oracle : list Reply;
  w_trace : list Call
}.

Inductive Outcome (A : Type) : Type :=
| Done (a : A) (w : World)
| Crashed (f : Fault) (w : World).
Arguments Done {A} a w.
Arguments Crashed {A} f w.

Definition M (A : Type) : Type := World -> Outcome A.

Definition ret {A} (a : A) : M A := fun w => Done a w.

Definition bind {A B} (m : M A) (k : A -> M B) : M B :=
  fun w => match m w with
           | Done a w' => k a w'
           | Crashed f w' => Crashed f w'
           end.

Definition crash {A} (f : Fault) : M A := fun w => Crashed f w.

Notation "'let*' x ':=' m 'in' k" := (bind m (fun x => k))
  (at level 10, x pattern, m at level 100, k at level 200).

Definition deref {A} (p : option A) : M A :=
  match p with
  | Some a => ret a
  | None => crash NullDereference
  end.

(** The heap of Socket objects, by address. *)
Abbreviation Heap := (gmap Z Socket).

(** ** Native calls *)

Section Rnet.
Context `{Platform}.

Definition with_errno (e : Z) (w : World) : World :=
  {| w_errno := e; w_oracle := w_oracle w; w_trace := w_trace w |}.

(** errno = err, or WSASetLastError(err) *)
Definition SocketSetLastError (err : Z) : M unit :=
  fun w => Done tt (with_errno err w).

Definition SocketGetLastError : M Z :=
  fun w => Done (w_errno w) w.

(** A native call takes the next reply of the oracle and is recorded. *)
Definition native (c : Call) : M Reply :=
  fun w => match w_oracle w with
           | [] => Crashed OracleExhausted w
           | r :: rs =>
               Done r {| w_errno := w_errno w; w_oracle := rs;
                         w_trace := w_trace w ++ [c] |}
           end.

(** A native call without a result (freeaddrinfo) is only recorded. *)
Definition native_void (c : Call) : M unit :=
  fun w => Done tt {| w_errno := w_errno w; w_oracle := w_oracle w;
                      w_trace := w_trace w ++ [c] |}.

(** A native call with an integer result: on failure it stores the error
    in the last-error slot and returns the failure indicator; on success
    the slot is left as it is. *)
Definition native_int (c : Call) (failure : Z) : M Z :=
  let* r := native c in
  match r with
  | R_ok v => ret v
  | R_err e => let* _ := SocketSetLastError e in ret failure
  | _ => crash OracleMismatch
  end.

(** malloc(size): NULL, or a fresh block (every use in the module fills the
    block before reading it). *)
Definition malloc (size : nat) : M (option block) :=
  let* r := native (call_malloc (Z.of_nat size)) in
  match r with
  | R_ok v => ret (if v =? 0 then None else Some (replicate size 0))
  | _ => crash OracleMismatch
  end.

(** Reading [n] bytes at offset [off] of an object: the bytes of the object,
    and past its last written byte whatever lies in memory there. *)
Definition read_bytes (src : block) (off n : nat) : M block :=
  let avail := take n (drop off src) in
  if decide (length avail = n) then ret avail
  else
    let* r := native (call_read_indeterminate (n - length avail)) in
    match r with
    | R_data bs =>
        if decide (length bs = (n - length avail)%nat) then ret (avail ++ bs)
        else crash OracleMismatch
    | _ => crash OracleMismatch
    end.

(** sa->sa_family *)
Definition load_family (sa : block) : M Z :=
  let* bs := read_bytes sa 0 2 in
  ret (sa_family bs).

(** Storing [bs] at the start of an object of [length dst] bytes. *)
Definition write_bytes (dst bs : block) : M block :=
  if decide (length bs <= length dst)%nat then ret (bs ++ drop (length bs) dst)
  else crash (StoreOutOfBounds (Z.of_nat (length bs)) (Z.of_nat (length dst))).

(** array[i] = x and array[i], on an array of [length l] elements. *)
Definition store_at {A} (l : list A) (i : Z) (x : A) : M (list A) :=
  if (0 <=? i) && (i <? Z.of_nat (length l)) then ret (<[Z.to_nat i := x]> l)
  else crash (StoreOutOfBounds i (Z.of_nat (length l))).

Definition load_at {A} (l : list A) (i : Z) : M A :=
  match (if 0 <=? i then l !! Z.to_nat i else None) with
  | Some x => ret x
  | None => crash (LoadOutOfBounds i (Z.of_nat (length l)))
  end.

(** Loops whose every iteration makes a native call are run with as many
    iterations as the oracle has replies, plus one: the oracle runs out
    before the fuel does. *)
Definition with_fuel {A} (body : nat -> M A) : M A :=
  fun w => body (S (length (w_oracle w))) w.

(** ** Global module implementation *)

Definition IsIPv4Address (ip : option string) : M bool :=
  let* s := deref ip in
  ret (negb (fst (inet_pton AF_INET s) =? 0)).

Definition IsIPv6Address (ip : option string) : M bool :=
  let* s := deref ip in
  ret (negb (fst (inet_pton AF_INET6 s) =? 0)).

Definition IsSocketValid (sock : option Socket) : bool :=
  match sock with
  | Some s => negb (channel s =? INVALID_SOCKET)
  | None => false
  end.

Definition set_backlog_size (v : Z) (c : SocketConfig) : SocketConfig :=
  {| cfg_host := cfg_host c; cfg_port := cfg_port c; cfg_server := cfg_server c;
     cfg_nonblocking := cfg_nonblocking c; cfg_type := cfg_type c;
     cfg_backlog_size := v; cfg_sockopts := cfg_sockopts c |}.

Definition SocketSetDefaults (config : SocketConfig) : bool * SocketConfig :=
  (true,
   if cfg_backlog_size config =? 0
   then set_backlog_size SOCKET_MAX_QUEUE_SIZE config
   else config).

Definition InitSocket (sock : Socket) (addr : addrinfo) : M (bool * Socket) :=
  let* sock :=
    match type sock with
    | SOCKET_TCP =>
        let* fd :=
          (if ai_family addr =? AF_INET
           then native_int (call_socket AF_INET SOCK_STREAM 0) INVALID_SOCKET
           else native_int (call_socket AF_INET6 SOCK_STREAM 0) INVALID_SOCKET) in
        ret (set_channel fd sock)
    | SOCKET_UDP =>
        let* fd :=
          (if ai_family addr =? AF_INET
           then native_int (call_socket AF_INET SOCK_DGRAM 0) INVALID_SOCKET
           else native_int (call_socket AF_INET6 SOCK_DGRAM 0) INVALID_SOCKET) in
        ret (set_channel fd sock)
    | SOCKET_OTHER => ret sock
    end in
  ret (IsSocketValid (Some sock), sock).

(** The option loop, over the entries config->sockopts[i], i below
    SOCKET_MAX_SOCK_OPTS. *)
Fixpoint SocketSetOptions_from (opts : list SocketOpt) (sock : Socket) : M bool :=
  match opts with
  | [] => ret true
  | opt :: rest =>
      if opt_id opt =? 0 then ret true
      else
        let* r := native_int (call_setsockopt (channel sock) SOL_SOCKET
                                (opt_id opt) (opt_value opt) (opt_valueLen opt))
                             SOCKET_ERROR in
        if r <? 0 then ret false else SocketSetOptions_from rest sock
  end.

Definition SocketSetOptions (config : SocketConfig) (sock : Socket) : M bool :=
  SocketSetOptions_from (take (Z.to_nat SOCKET_MAX_SOCK_OPTS) (cfg_sockopts config)) sock.

Definition zero_addrinfo : addrinfo :=
  {| ai_flags := 0; ai_family := 0; ai_socktype := 0; ai_protocol := 0;
     ai_addrlen := 0; ai_addr := None; ai_canonname := None |}.

Definition set_ai_family (v : Z) (a : addrinfo) : addrinfo :=
  {| ai_flags := ai_flags a; ai_family := v; ai_socktype := ai_socktype a;
     ai_protocol := ai_protocol a; ai_addrlen := ai_addrlen a;
     ai_addr := ai_addr a; ai_canonname := ai_canonname a |}.

Definition set_ai_flags (v : Z) (a : addrinfo) : addrinfo :=
  {| ai_flags := v; ai_family := ai_family a; ai_socktype := ai_socktype a;
     ai_protocol := ai_protocol a; ai_addrlen := ai_addrlen a;
     ai_addr := ai_addr a; ai_canonname := ai_canonname a |}.

Definition set_ai_socktype (v : Z) (a : addrinfo) : addrinfo :=
  {| ai_flags := ai_flags a; ai_family := ai_family a; ai_socktype := v;
     ai_protocol := ai_protocol a; ai_addrlen := ai_addrlen a;
     ai_addr := ai_addr a; ai_canonname := ai_canonname a |}.

(** SocketSetHints(config, hints): the hints after the call. *)
Definition SocketSetHints (config : option SocketConfig) (hints : option addrinfo)
  : M (option addrinfo) :=
  match config, hints with
  | Some config, Some _ =>
      let hints := zero_addrinfo in
      let* v4 := IsIPv4Address (cfg_host config) in
      let* hints :=
        (if v4 then
           ret (set_ai_flags (Z.lor (ai_flags hints) AI_NUMERICHOST)
                  (set_ai_family AF_INET hints))
         else
           let* v6 := IsIPv6Address (cfg_host config) in
           if v6 then
             ret (set_ai_flags (Z.lor (ai_flags hints) AI_NUMERICHOST)
                    (set_ai_family AF_INET6 hints))
           else ret (set_ai_family AF_UNSPEC hints)) in
      let hints :=
        if decide (cfg_type config = SOCKET_UDP)
        then set_ai_socktype SOCK_DGRAM hints
        else set_ai_socktype SOCK_STREAM hints in
      let hints :=
        if negb (bool_decide (cfg_type config = SOCKET_UDP)) || cfg_server config
        then set_ai_flags AI_PASSIVE hints
        else hints in
      ret (Some hints)
  | _, _ => ret hints
  end.

(** getaddrinfo: the status and the candidate list (the ai_next chain). *)
Definition getaddrinfo (node service : option string) (hints : addrinfo)
  : M (Z * list addrinfo) :=
  let* r := native (call_getaddrinfo node service hints) in
  match r with
  | R_addrinfo st res => ret (st, res)
  | _ => crash OracleMismatch
  end.

Definition set_res_status (v : ResultStatus) (r : SocketResult) : SocketResult :=
  {| res_status := v; res_socket := res_socket r |}.

Definition set_res_socket (v : Socket) (r : SocketResult) : SocketResult :=
  {| res_status := res_status r; res_socket := Some v |}.

(** outresult->socket->status = SocketGetLastError(); SocketSetLastError(0); *)
Definition capture_error (sock : Socket) : M Socket :=
  let* e := SocketGetLastError in
  let* _ := SocketSetLastError 0 in
  ret (set_status e sock).

(** The walk over the candidate list.  The boolean is false when the walk
    was left by the [return] of the option failure. *)
Fixpoint CreateSocket_walk (config : SocketConfig) (its : list addrinfo)
    (sock : Socket) : M (bool * Socket) :=
  match its with
  | [] => ret (true, sock)
  | it :: rest =>
      let* (ok, sock) := InitSocket sock it in
      if negb ok then
        let* sock := capture_error sock in
        CreateSocket_walk config rest sock
      else
        let* ok := SocketSetOptions config sock in
        if negb ok then
          let* sock := capture_error sock in
          ret (false, sock)
        else CreateSocket_walk config rest sock
  end.

Definition CreateSocket (config : SocketConfig) (outresult : SocketResult)
  : M (bool * SocketResult) :=
  let* sock := deref (res_socket outresult) in
  let sock := set_channel INVALID_SOCKET sock in
  let outresult := set_res_status RESULT_FAILURE outresult in
  let sock := set_type (cfg_type config) sock in
  let* hints := SocketSetHints (Some config) (Some zero_addrinfo) in
  let* hints := deref hints in
  let* (addrstatus, res) := getaddrinfo (cfg_host config) (cfg_port config) hints in
  if negb (addrstatus =? 0) then
    let* sock := capture_error sock in
    ret (false, set_res_socket sock outresult)
  else
    (* getnameinfo(res->ai_addr, ...) for the log line *)
    let* first := deref (head res) in
    let* (walked, sock) := CreateSocket_walk config res sock in
    if negb walked then
      let* _ := native_void call_freeaddrinfo in
      ret (false, set_res_socket sock outresult)
    else if negb (IsSocketValid (Some sock)) then
      let* sock := capture_error sock in
      let* _ := native_void call_freeaddrinfo in
      ret (false, set_res_socket sock outresult)
    else
      let outresult := set_res_status RESULT_SUCCESS outresult in
      let sock := set_status 0 (set_ready 0 sock) in
      let sock :=
        if negb (bool_decide (cfg_type config = SOCKET_UDP))
        then set_isServer (cfg_server config) sock else sock in
      let* first_addr := deref (ai_addr first) in
      let* family := load_family first_addr in
      let* sock :=
        (if family =? AF_INET then
           let* p := malloc sizeof_sockaddr_in in
           match p with
           | Some _ =>
               let* bs := read_bytes first_addr 0 sizeof_sockaddr_in in
               ret (set_isIPv6 false (set_addripv4 (Some bs) sock))
           | None => ret (set_addripv4 None sock)
           end
         else if family =? AF_INET6 then
           let* p := malloc sizeof_sockaddr_in6 in
           match p with
           | Some _ =>
               let* bs := read_bytes first_addr 0 sizeof_sockaddr_in6 in
               ret (set_isIPv6 true (set_addripv6 (Some bs) sock))
           | None => ret (set_addripv6 None sock)
           end
         else ret sock) in
      let* _ := native_void call_freeaddrinfo in
      ret (true, set_res_socket sock outresult).

(** fcntl(fd, F_GETFL, 0) and fcntl(fd, F_SETFL, flags): -1 on failure. *)
Definition SocketSetBlocking (sock : Socket) : M bool :=
  let* flags := native_int (call_fcntl_getfl (channel sock)) (-1) in
  if Z.land flags O_NONBLOCK =? 0 then ret true
  else
    let* r := native_int (call_fcntl_setfl (channel sock) (Z.lxor flags O_NONBLOCK)) (-1) in
    ret (r =? 0).

Definition SocketSetNonBlocking (sock : Socket) : M bool :=
  let* flags := native_int (call_fcntl_getfl (channel sock)) (-1) in
  if negb (Z.land flags O_NONBLOCK =? 0) then ret true
  else
    let* r := native_int (call_fcntl_setfl (channel sock) (Z.lor flags O_NONBLOCK)) (-1) in
    ret (r =? 0).

(** ** Module implementation *)

Definition SocketCreate (config : option SocketConfig) (result : option SocketResult)
  : M (bool * option SocketConfig * option SocketResult) :=
  match config, result with
  | Some cfg, Some res =>
      let '(ok, cfg) := SocketSetDefaults cfg in
      if negb ok then ret (false, Some cfg, Some res)
      else
        let* (created, res) := CreateSocket cfg res in
        if created then
          let* sock := deref (res_socket res) in
          let* _ := (if cfg_nonblocking cfg then SocketSetNonBlocking sock
                     else SocketSetBlocking sock) in
          ret (true, Some cfg, Some res)
        else ret (false, Some cfg, Some res)
  | _, _ => ret (false, config, result)
  end.


(** getsockname(fd, addr, &len): the address of the channel is stored into
    the object [addr] points to. *)
Definition getsockname (fd : Z) (sock_addr : block) : M (Z * block) :=
  let* r := native (call_getsockname fd) in
  match r with
  | R_data bs =>
      let* stored := write_bytes sock_addr bs in
      ret (0, stored)
  | R_err e =>
      let* _ := SocketSetLastError e in
      ret (SOCKET_ERROR, sock_addr)
  | _ => crash OracleMismatch
  end.

Definition SocketBind (config : SocketConfig) (result : SocketResult)
  : M (bool * SocketResult) :=
  let result := set_res_status RESULT_FAILURE result in
  if negb (IsSocketValid (res_socket result)) || negb (cfg_server config)
  then ret (false, result)
  else
    let* sock := deref (res_socket result) in
    (* sock_addr points into the slot selected by the family tag *)
    let sock_addr := if isIPv6 sock then addripv6 sock else addripv4 sock in
    let* (success, sock) :=
      match sock_addr with
      | Some a =>
          let* r := native_int (call_bind (channel sock) a
                                  (Z.of_nat sizeof_sockaddr_storage)) SOCKET_ERROR in
          if negb (r =? SOCKET_ERROR) then ret (true, sock)
          else
            let* sock := capture_error sock in
            ret (false, sock)
      | None => ret (false, sock)
      end in
    if success then
      let result := set_res_status RESULT_SUCCESS result in
      let sock := set_status 0 (set_ready 0 sock) in
      let* a := deref sock_addr in
      let* (r, a) := getsockname (channel sock) a in
      let sock := if isIPv6 sock then set_addripv6 (Some a) sock
                  else set_addripv4 (Some a) sock in
      if r <? 0 then ret (true, set_res_socket sock result)
      else
        (* s is sock_addr, seen as a sockaddr_in *)
        let* p := malloc sizeof_sockaddr_in in
        let* _ := deref p in
        let* bs := read_bytes a offsetof_sin_addr sizeof_sockaddr_in in
        ret (true, set_res_socket (set_addripv4 (Some bs) sock) result)
    else ret (false, set_res_socket sock result).

Definition SocketListen (config : SocketConfig) (result : SocketResult)
  : M (bool * SocketResult) :=
  let result := set_res_status RESULT_FAILURE result in
  if negb (IsSocketValid (res_socket result)) || negb (cfg_server config)
  then ret (false, result)
  else
    let* sock := deref (res_socket result) in
    let* (success, sock) :=
      (if negb (bool_decide (cfg_type config = SOCKET_UDP)) then
         let* r := native_int (call_listen (channel sock) (cfg_backlog_size config))
                              SOCKET_ERROR in
         if negb (r =? SOCKET_ERROR) then ret (true, sock)
         else
           let* sock := capture_error sock in
           ret (false, sock)
       else ret (false, sock)) in
    if success then
      ret (true, set_res_socket (set_status 0 (set_ready 0 sock))
                   (set_res_status RESULT_SUCCESS result))
    else ret (false, set_res_socket sock result).

(** What follows connect() in both branches of SocketConnect. *)
Definition connect_outcome (sock : Socket) (connect_result : Z) : M (bool * Socket) :=
  if connect_result =? SOCKET_ERROR then
    let* sock := capture_error sock in
    if status sock =? WSAEWOULDBLOCK then ret (true, sock) else ret (false, sock)
  else ret (true, sock).

Definition SocketConnect (config : SocketConfig) (result : SocketResult)
  : M (bool * SocketResult) :=
  let result := set_res_status RESULT_FAILURE result in
  let* (success, result) :=
    (if cfg_server config then ret (false, result)
     else
       let* v4 := IsIPv4Address (cfg_host config) in
       if v4 then
         let* port := deref (cfg_port config) in
         let hport := strtoul port in
         let* host := deref (cfg_host config) in
         let ip4addr := snd (inet_pton AF_INET host) in
         let* sock := deref (res_socket result) in
         let* r := native_int (call_connect (channel sock) AF_INET (htons_bytes hport)
                                 ip4addr (Z.of_nat sizeof_sockaddr_in)) SOCKET_ERROR in
         let* (ok, sock) := connect_outcome sock r in
         ret (ok, set_res_socket sock result)
       else
         let* v6 := IsIPv6Address (cfg_host config) in
         if v6 then
           let* port := deref (cfg_port config) in
           let hport := strtoul port in
           let* host := deref (cfg_host config) in
           let ip6addr := snd (inet_pton AF_INET6 host) in
           let* sock := deref (res_socket result) in
           let* r := native_int (call_connect (channel sock) AF_INET6 (htons_bytes hport)
                                   ip6addr (Z.of_nat sizeof_sockaddr_in6)) SOCKET_ERROR in
           let* (ok, sock) := connect_outcome sock r in
           ret (ok, set_res_socket sock result)
         else ret (true, result)) in
  if success then
    let* sock := deref (res_socket result) in
    ret (true, set_res_socket (set_status 0 (set_ready 0 sock))
                 (set_res_status RESULT_SUCCESS result))
  else ret (false, result).

Definition SocketClose (sock : option Socket) : M unit :=
  match sock with
  | Some s =>
      if negb (channel s =? INVALID_SOCKET) then
        let* _ := native_int (call_closesocket (channel s)) SOCKET_ERROR in
        ret tt
      else ret tt
  | None => ret tt
  end.

Definition SocketGetPeerAddress (sock : Socket) : option block :=
  if isServer sock then None
  else if isIPv6 sock then addripv6 sock else addripv4 sock.


(** AllocSocket(): NULL, or a zeroed Socket. *)
Definition zero_IPAddress : IPAddress := {| ip_host := 0; ip_port := 0 |}.

Definition zero_UDPChannel : UDPChannel :=
  {| numbound := 0;
     address := replicate (Z.to_nat SOCKET_MAX_UDPADDRESSES) zero_IPAddress |}.

Definition zero_Socket : Socket :=
  {| ready := 0; status := 0; isServer := false; channel := 0;
     type := SOCKET_TCP; isIPv6 := false; addripv4 := None; addripv6 := None;
     binding := replicate (Z.to_nat SOCKET_MAX_UDPCHANNELS) zero_UDPChannel |}.

Definition AllocSocket : M (option Socket) :=
  let* r := native (call_malloc sizeof_Socket) in
  match r with
  | R_ok v => ret (if v =? 0 then None else Some zero_Socket)
  | _ => crash OracleMismatch
  end.

(** accept(fd, &sock_addr, &sock_alen): the new channel and the bytes the
    system stored into sock_addr. *)
Definition accept (fd : Z) : M (Z * block) :=
  let* r := native (call_accept fd) in
  match r with
  | R_accept newfd peer =>
      if decide (length peer <= sizeof_sockaddr_storage)%nat then ret (newfd, peer)
      else crash OracleMismatch
  | R_err e =>
      let* _ := SocketSetLastError e in
      ret (INVALID_SOCKET, [])
  | _ => crash OracleMismatch
  end.

Definition SocketAccept (server : Socket) (config : SocketConfig)
  : M (option Socket * Socket) :=
  if negb (isServer server) || bool_decide (type server = SOCKET_UDP)
  then ret (None, server)
  else
    let* sock := AllocSocket in
    let server := set_ready 0 server in
    let* (fd, sock_addr) := accept (channel server) in
    let* sock := deref sock in
    let sock := set_channel fd sock in
    if channel sock =? INVALID_SOCKET then
      let* sock := capture_error sock in
      let* _ := SocketClose (Some sock) in
      ret (None, server)
    else
      let* _ := (if cfg_nonblocking config then SocketSetNonBlocking sock
                 else SocketSetBlocking sock) in
      let sock := set_type (type server) (set_ready 0 (set_isServer false sock)) in
      let* family := load_family sock_addr in
      let* sock :=
        (if family =? AF_INET then
           let* p := malloc sizeof_sockaddr_in in
           match p with
           | Some _ =>
               let* bs := read_bytes sock_addr offsetof_sin_addr sizeof_sockaddr_in in
               ret (set_addripv4 (Some bs) sock)
           | None => ret (set_addripv4 None sock)
           end
         else if family =? AF_INET6 then
           let* p := malloc sizeof_sockaddr_in6 in
           match p with
           | Some _ =>
               let* bs := read_bytes sock_addr offsetof_sin6_addr sizeof_sockaddr_in6 in
               ret (set_addripv6 (Some bs) sock)
           | None => ret (set_addripv6 None sock)
           end
         else ret sock) in
      ret (Some sock, server).

(** *** UDP channels *)

Definition ValidChannel (channel : Z) : Z :=
  if (channel <? 0) || (SOCKET_MAX_UDPCHANNELS <=? channel) then 0 else 1.

(** The scan of SocketSetChannel in automatic mode: [n] slots are left to
    look at from [channel] on; the result is the final value of [channel]
    and the slot [binding] points to ([last] when no slot is looked at). *)
Fixpoint SocketSetChannel_scan (n : nat) (channel : Z) (last : Z)
    (slots : list UDPChannel) : M (Z * Z) :=
  match n with
  | O => ret (channel, last)
  | S n' =>
      let* b := load_at slots channel in
      if numbound b <? SOCKET_MAX_UDPADDRESSES then ret (channel, channel)
      else SocketSetChannel_scan n' (channel + 1) channel slots
  end.

Definition SocketSetChannel (socket : option Socket) (channel : Z) (addr : IPAddress)
  : M (Z * option Socket) :=
  match socket with
  | None => ret (-1, None)
  | Some sock =>
      let* found :=
        (if channel =? -1 then
           let* (channel, at_slot) :=
             SocketSetChannel_scan (Z.to_nat SOCKET_MAX_UDPCHANNELS) 0 (-1)
               (binding sock) in
           ret (Some (channel, at_slot))
         else if ValidChannel channel =? 0 then ret None
         else ret (Some (channel, channel))) in
      match found with
      | None => ret (-1, Some sock)
      | Some (channel, at_slot) =>
          let* b := load_at (binding sock) at_slot in
          if numbound b =? SOCKET_MAX_UDPADDRESSES then ret (-1, Some sock)
          else
            let* addrs := store_at (address b) (numbound b) addr in
            let b := {| numbound := numbound b + 1; address := addrs |} in
            let* slots := store_at (binding sock) at_slot b in
            ret (channel, Some (set_binding slots sock))
      end
  end.

Definition SocketUnsetChannel (socket : option Socket) (channel : Z)
  : M (option Socket) :=
  if (0 <=? channel) && (channel <? SOCKET_MAX_UDPCHANNELS) then
    let* sock := deref socket in
    let* b := load_at (binding sock) channel in
    let* slots := store_at (binding sock) channel
                    {| numbound := 0; address := address b |} in
    ret (Some (set_binding slots sock))
  else ret socket.


(** *** Data transfer *)

(** The do-while loop of the TCP branch of SocketSend; the result is the
    final [sent] and the last value of [length]. *)
Fixpoint SocketSend_loop (fuel : nat) (fd : Z) (data : block) (sent left_ : Z)
  : M (Z * Z) :=
  match fuel with
  | O => crash OutOfFuel
  | S fuel =>
      let* length := native_int (call_send fd (take (Z.to_nat left_) data) left_)
                                SOCKET_ERROR in
      let '(sent, left_, data) :=
        if 0 <? length
        then (sent + length, left_ - length, drop (Z.to_nat length) data)
        else (sent, left_, data) in
      let* e := SocketGetLastError in
      if (0 <? left_) && ((0 <? length) || (e =? WSAEINTR))
      then SocketSend_loop fuel fd data sent left_
      else ret (sent, length)
  end.

Definition SocketSend (sock : Socket) (datap : block) (length : Z) : M (Z * Socket) :=
  let sent := 0 in
  let left_ := length in
  let numsent := 0 in
  if isServer sock then ret (-1, sock)
  else
    match type sock with
    | SOCKET_TCP =>
        let* _ := SocketSetLastError 0 in
        let* (sent, length) :=
          with_fuel (fun fuel => SocketSend_loop fuel (channel sock) datap sent left_) in
        if length =? SOCKET_ERROR then
          let* sock := capture_error sock in
          ret (sent, sock)
        else ret (sent, sock)
    | SOCKET_UDP =>
        let* _ := SocketSetLastError 0 in
        let* status :=
          (if isIPv6 sock
           then native_int (call_sendto (channel sock) (take (Z.to_nat left_) datap) left_
                              (addripv6 sock) (Z.of_nat sizeof_sockaddr_in6)) SOCKET_ERROR
           else native_int (call_sendto (channel sock) (take (Z.to_nat left_) datap) left_
                              (addripv4 sock) (Z.of_nat sizeof_sockaddr_in)) SOCKET_ERROR) in
        if 0 <=? sent then
          let sock := set_status 0 sock in
          let numsent := numsent + 1 in
          ret (numsent, sock)
        else
          let* sock := capture_error sock in
          ret (0, sock)
    | SOCKET_OTHER => ret (-1, sock)
    end.

(** recv and recvfrom: the received bytes are stored at the start of the
    buffer; never more than [maxlen] of them. *)
Definition receive_call (c : Call) (data : block) (maxlen : Z) : M (Z * block) :=
  let* r := native c in
  match r with
  | R_data bs =>
      if Z.of_nat (length bs) <=? maxlen then
        let* data := write_bytes data bs in
        ret (Z.of_nat (length bs), data)
      else crash OracleMismatch
  | R_err e =>
      let* _ := SocketSetLastError e in
      ret (SOCKET_ERROR, data)
  | _ => crash OracleMismatch
  end.

(** do { len = recv(...); } while (SocketGetLastError() == WSAEINTR); *)
Fixpoint SocketReceive_loop (fuel : nat) (fd : Z) (data : block) (maxlen : Z)
  : M (Z * block) :=
  match fuel with
  | O => crash OutOfFuel
  | S fuel =>
      let* (len, data) := receive_call (call_recv fd maxlen) data maxlen in
      let* e := SocketGetLastError in
      if e =? WSAEINTR then SocketReceive_loop fuel fd data maxlen
      else ret (len, data)
  end.

Definition SocketReceive (sock : Socket) (data : block) (maxlen : Z)
  : M (Z * Socket * block) :=
  let numrecv := 0 in
  if isServer sock && bool_decide (type sock = SOCKET_TCP) then
    let* sock := capture_error sock in
    ret (0, sock, data)
  else
    match type sock with
    | SOCKET_TCP =>
        let* _ := SocketSetLastError 0 in
        let* (len, data) :=
          with_fuel (fun fuel => SocketReceive_loop fuel (channel sock) data maxlen) in
        let* data :=
          (if 0 <? len then
             (* ((unsigned char * ) data)[len] = 0 *)
             store_at data len 0
           else ret data) in
        ret (len, set_ready 0 sock, data)
    | SOCKET_UDP =>
        let* _ := SocketSetLastError 0 in
        let* (status, data) :=
          receive_call (call_recvfrom (channel sock) maxlen) data maxlen in
        if 0 <=? status then
          let numrecv := numrecv + 1 in
          ret (numrecv, set_ready 0 sock, data)
        else
          let* sock := capture_error sock in
          ret (0, sock, data)
    | SOCKET_OTHER => ret (-1, sock, data)
    end.

Definition IsSocketReady (sock : option Socket) : bool :=
  match sock with
  | Some s => negb (ready s =? 0)
  | None => false
  end.

(** *** Socket sets: arrays of pointers into the socket heap *)

Record SocketSet := {
  numsockets : Z;
  maxsockets : Z;
  sockets : list (option Z)
}.

(** set->sockets[i]->..., through the pointer [p] *)
Definition heap_load (heap : Heap) (p : option Z) : M Socket :=
  let* p := deref p in
  deref (heap !! p).

Definition AllocSocketSet (max : Z) : M (option SocketSet) :=
  let* r := native (call_malloc sizeof_SocketSet) in
  match r with
  | R_ok v =>
      if v =? 0 then ret None
      else
        let* r := native (call_malloc (max * sizeof_pointer)) in
        match r with
        | R_ok v =>
            if v =? 0 then ret None
            else ret (Some {| numsockets := 0; maxsockets := max;
                              sockets := replicate (Z.to_nat max) None |})
        | _ => crash OracleMismatch
        end
  | _ => crash OracleMismatch
  end.

Definition AddSocket (set : SocketSet) (sock : option Z) : M (Z * SocketSet) :=
  match sock with
  | Some _ =>
      if numsockets set =? maxsockets set then
        let* _ := SocketSetLastError 0 in
        ret (-1, set)
      else
        let* arr := store_at (sockets set) (numsockets set) sock in
        let set := {| numsockets := numsockets set + 1;
                      maxsockets := maxsockets set; sockets := arr |} in
        ret (numsockets set, set)
  | None =>
      let* _ := SocketSetLastError 0 in
      ret (-1, set)
  end.


Fixpoint RemoveSocket_find (n : nat) (i : Z) (set : SocketSet) (sock : option Z)
  : M Z :=
  match n with
  | O => ret i
  | S n' =>
      let* p := load_at (sockets set) i in
      if decide (p = sock) then ret i
      else RemoveSocket_find n' (i + 1) set sock
  end.

Fixpoint RemoveSocket_shift (n : nat) (i : Z) (arr : list (option Z))
  : M (list (option Z)) :=
  match n with
  | O => ret arr
  | S n' =>
      let* next := load_at arr (i + 1) in
      let* arr := store_at arr i next in
      RemoveSocket_shift n' (i + 1) arr
  end.

Definition RemoveSocket (set : SocketSet) (sock : option Z) : M (Z * SocketSet) :=
  match sock with
  | Some _ =>
      let* i := RemoveSocket_find (Z.to_nat (numsockets set)) 0 set sock in
      if i =? numsockets set then
        let* _ := SocketSetLastError 0 in
        ret (-1, set)
      else
        let n := numsockets set - 1 in
        let* arr := RemoveSocket_shift (Z.to_nat (n - i)) i (sockets set) in
        ret (n, {| numsockets := n; maxsockets := maxsockets set; sockets := arr |})
  | None => ret (numsockets set, set)
  end.

(** The loops of CheckSockets run i from numsockets - 1 down to 0:
    [i] counts the indices still to visit. *)
Fixpoint CheckSockets_maxfd (i : nat) (set : SocketSet) (heap : Heap) (maxfd : Z)
  : M Z :=
  match i with
  | O => ret maxfd
  | S i' =>
      let* p := load_at (sockets set) (Z.of_nat i') in
      let* s := heap_load heap p in
      CheckSockets_maxfd i' set heap (if maxfd <? channel s then channel s else maxfd)
  end.

Fixpoint CheckSockets_mask (i : nat) (set : SocketSet) (heap : Heap) (mask : list Z)
  : M (list Z) :=
  match i with
  | O => ret mask
  | S i' =>
      let* p := load_at (sockets set) (Z.of_nat i') in
      let* s := heap_load heap p in
      CheckSockets_mask i' set heap (channel s :: mask)
  end.

(** select(nfds, &mask, NULL, NULL, &tv): the count, and the mask with only
    the readable descriptors left in it. *)
Definition select (nfds : Z) (mask : list Z) (tv_sec tv_usec : Z) : M (Z * list Z) :=
  let* r := native (call_select nfds mask tv_sec tv_usec) in
  match r with
  | R_select n readable =>
      ret (n, filter (fun fd => fd ∈ readable) mask)
  | R_err e =>
      let* _ := SocketSetLastError e in
      ret (SOCKET_ERROR, mask)
  | _ => crash OracleMismatch
  end.

Fixpoint CheckSockets_wait (fuel : nat) (set : SocketSet) (heap : Heap)
    (maxfd timeout : Z) : M (Z * list Z) :=
  match fuel with
  | O => crash OutOfFuel
  | S fuel =>
      let* _ := SocketSetLastError 0 in
      let* mask := CheckSockets_mask (Z.to_nat (numsockets set)) set heap [] in
      let* (retval, mask) :=
        select (maxfd + 1) mask (timeout / 1000) ((timeout mod 1000) * 1000) in
      let* e := SocketGetLastError in
      if e =? WSAEINTR then CheckSockets_wait fuel set heap maxfd timeout
      else ret (retval, mask)
  end.

Fixpoint CheckSockets_mark (i : nat) (set : SocketSet) (mask : list Z) (heap : Heap)
  : M Heap :=
  match i with
  | O => ret heap
  | S i' =>
      let* p := load_at (sockets set) (Z.of_nat i') in
      let* s := heap_load heap p in
      let* heap :=
        (if bool_decide (channel s ∈ mask) then
           let* p := deref p in
           ret (<[p := set_ready 1 s]> heap)
         else ret heap) in
      CheckSockets_mark i' set mask heap
  end.

Definition CheckSockets (set : SocketSet) (timeout : Z) (heap : Heap) : M (Z * Heap) :=
  let* maxfd := CheckSockets_maxfd (Z.to_nat (numsockets set)) set heap 0 in
  let* (retval, mask) :=
    with_fuel (fun fuel => CheckSockets_wait fuel set heap maxfd timeout) in
  let* heap :=
    (if 0 <? retval then CheckSockets_mark (Z.to_nat (numsockets set)) set mask heap
     else ret heap) in
  ret (retval, heap).

(** *** Address information *)

Definition set_ai_addr (v : option block) (a : addrinfo) : addrinfo :=
  {| ai_flags := ai_flags a; ai_family := ai_family a; ai_socktype := ai_socktype a;
     ai_protocol := ai_protocol a; ai_addrlen := ai_addrlen a;
     ai_addr := v; ai_canonname := ai_canonname a |}.

(** AllocAddress(): calloc of the entry, then calloc of a struct sockaddr
    for its ai_addr. *)
Definition AllocAddress : M (option addrinfo) :=
  let* r := native (call_malloc sizeof_addrinfo) in
  match r with
  | R_ok v =>
      if v =? 0 then ret None
      else
        let* a := malloc sizeof_sockaddr in
        ret (Some (set_ai_addr a zero_addrinfo))
  | _ => crash OracleMismatch
  end.

(** for (i = 0; i < size; ++i) { outAddr[i] = AllocAddress(); if NULL break; } *)
Fixpoint ResolveHost_alloc (n : nat) (i : Z) (outAddr : list (option addrinfo))
  : M (Z * list (option addrinfo)) :=
  match n with
  | O => ret (i, outAddr)
  | S n' =>
      let* entry := AllocAddress in
      let* outAddr := store_at outAddr i entry in
      match entry with
      | None => ret (i, outAddr)
      | Some _ => ResolveHost_alloc n' (i + 1) outAddr
      end
  end.

(** The copy loop; [outAddr] is the local pointer, [arr] the array. *)
Fixpoint ResolveHost_copy (its : list addrinfo) (i size : Z)
    (arr : option (list (option addrinfo))) : M (option (list (option addrinfo))) :=
  match its with
  | [] => ret arr
  | iterator :: rest =>
      if i <? size then
        let* a := deref arr in
        let* slot := load_at a i in
        let* entry := deref slot in
        let* dst := deref (ai_addr entry) in
        let* src := deref (ai_addr iterator) in
        (* *outAddr[i]->addr.ai_addr = *iterator->ai_addr, a struct sockaddr *)
        let* bs := read_bytes src 0 sizeof_sockaddr in
        let* dst := write_bytes dst bs in
        let entry :=
          {| ai_flags := ai_flags iterator; ai_family := ai_family iterator;
             ai_socktype := ai_socktype iterator; ai_protocol := ai_protocol iterator;
             ai_addrlen := ai_addrlen iterator; ai_addr := Some dst;
             ai_canonname := ai_canonname entry |} in
        let* a := store_at a i (Some entry) in
        ResolveHost_copy rest (i + 1) size (Some a)
      else ResolveHost_copy rest i size arr
  end.


Definition ResolveHost (address service : option string) (addressType flags : Z)
    (outAddr : option (list (option addrinfo)))
  : M (Z * option (list (option addrinfo))) :=
  if negb (bool_decide (is_Some address) || bool_decide (is_Some service))
  then crash AssertionFailed
  else if negb ((addressType =? AF_INET) || (addressType =? AF_INET6)
                || (addressType =? AF_UNSPEC))
  then crash AssertionFailed
  else
    let hints := set_ai_flags flags (set_ai_family addressType zero_addrinfo) in
    let hints :=
      match address with
      | None =>
          if Z.land (ai_flags hints) AI_PASSIVE =? 0
          then set_ai_flags (Z.lor (ai_flags hints) AI_PASSIVE) hints
          else hints
      | Some _ => hints
      end in
    let* (status, res) := getaddrinfo address service hints in
    if negb (status =? 0) then
      let* error := SocketGetLastError in
      let* _ := SocketSetLastError 0 in
      ret (-1, outAddr)
    else
      let size := Z.of_nat (length res) in
      if size <=? 0 then ret (-1, outAddr)
      else
        let* outAddr :=
          match outAddr with
          | None =>
              let* r := native (call_malloc (size * sizeof_pointer)) in
              match r with
              | R_ok v =>
                  ret (if v =? 0 then None
                       else Some (replicate (Z.to_nat size) (@None addrinfo)))
              | _ => crash OracleMismatch
              end
          | Some arr => ret (Some arr)
          end in
        match outAddr with
        | Some arr =>
            let* (i, arr) := ResolveHost_alloc (Z.to_nat size) 0 arr in
            let* arr := store_at arr i None in
            let outAddr := if negb (i =? size) then None else Some arr in
            let* out := ResolveHost_copy res 0 size outAddr in
            let* _ := native_void call_freeaddrinfo in
            ret (size, out)
        | None => ret (-1, None)
        end.

(** *** Packets: big-endian packing into a buffer

    A Packet has a buffer [data], the count [size] of the bytes in it and
    the offset [offs] of the next access; the counters are kept in [Z].
    The printf calls of the functions are left out, but for the byte the
    last one of PacketWrite16 reads through the advanced pointer. *)

Record Packet := {
  pkt_size : Z;
  pkt_offs : Z;
  pkt_data : block
}.

(** (uint8_t) v *)
Definition uint8 (v : Z) : Z := v mod 2 ^ 8.

Definition PacketWrite16 (packet : Packet) (value : Z) : M Packet :=
  let value := value mod 2 ^ 16 in
  let offs := pkt_offs packet in
  let* data := store_at (pkt_data packet) offs (uint8 (Z.shiftr value 8)) in
  let* data := store_at data (offs + 1) (uint8 value) in
  (* printf(..., (uint16_t) *data, ...) with data two bytes on *)
  let* _ := load_at data (offs + 2) in
  ret {| pkt_size := pkt_size packet + 2; pkt_offs := offs + 2; pkt_data := data |}.

Definition PacketWrite32 (packet : Packet) (value : Z) : M Packet :=
  let value := value mod 2 ^ 32 in
  let offs := pkt_offs packet in
  let* data := store_at (pkt_data packet) offs (uint8 (Z.shiftr value 24)) in
  let* data := store_at data (offs + 1) (uint8 (Z.shiftr value 16)) in
  let* data := store_at data (offs + 2) (uint8 (Z.shiftr value 8)) in
  let* data := store_at data (offs + 3) (uint8 value) in
  ret {| pkt_size := pkt_size packet + 4; pkt_offs := offs + 4; pkt_data := data |}.

Definition PacketWrite64 (packet : Packet) (value : Z) : M Packet :=
  let value := value mod 2 ^ 64 in
  let offs := pkt_offs packet in
  let* data := store_at (pkt_data packet) offs (uint8 (Z.shiftr value 56)) in
  let* data := store_at data (offs + 1) (uint8 (Z.shiftr value 48)) in
  let* data := store_at data (offs + 2) (uint8 (Z.shiftr value 40)) in
  let* data := store_at data (offs + 3) (uint8 (Z.shiftr value 32)) in
  let* data := store_at data (offs + 4) (uint8 (Z.shiftr value 24)) in
  let* data := store_at data (offs + 5) (uint8 (Z.shiftr value 16)) in
  let* data := store_at data (offs + 6) (uint8 (Z.shiftr value 8)) in
  let* data := store_at data (offs + 7) (uint8 value) in
  ret {| pkt_size := pkt_size packet + 8; pkt_offs := offs + 8; pkt_data := data |}.

(** The reading functions advance [size] as well as [offs]. *)
Definition PacketRead16 (packet : Packet) : M (Z * Packet) :=
  let offs := pkt_offs packet in
  let data := pkt_data packet in
  let packet := {| pkt_size := pkt_size packet + 2; pkt_offs := offs + 2;
                   pkt_data := data |} in
  let* d0 := load_at data offs in
  let* d1 := load_at data (offs + 1) in
  ret (Z.lor (Z.shiftl d0 8) d1 mod 2 ^ 16, packet).

Definition PacketRead32 (packet : Packet) : M (Z * Packet) :=
  let offs := pkt_offs packet in
  let data := pkt_data packet in
  let packet := {| pkt_size := pkt_size packet + 4; pkt_offs := offs + 4;
                   pkt_data := data |} in
  let* d0 := load_at data offs in
  let* d1 := load_at data (offs + 1) in
  let* d2 := load_at data (offs + 2) in
  let* d3 := load_at data (offs + 3) in
  ret (Z.lor (Z.lor (Z.lor (Z.shiftl d0 24 mod 2 ^ 32) (Z.shiftl d1 16 mod 2 ^ 32))
                    (Z.shiftl d2 8 mod 2 ^ 32)) d3 mod 2 ^ 32,
       packet).

Definition PacketRead64 (packet : Packet) : M (Z * Packet) :=
  let offs := pkt_offs packet in
  let data := pkt_data packet in
  let packet := {| pkt_size := pkt_size packet + 8; pkt_offs := offs + 8;
                   pkt_data := data |} in
  let* d0 := load_at data offs in
  let* d1 := load_at data (offs + 1) in
  let* d2 := load_at data (offs + 2) in
  let* d3 := load_at data (offs + 3) in
  let* d4 := load_at data (offs + 4) in
  let* d5 := load_at data (offs + 5) in
  let* d6 := load_at data (offs + 6) in
  let* d7 := load_at data (offs + 7) in
  ret (Z.lor (Z.lor (Z.lor (Z.lor (Z.lor (Z.lor (Z.lor
         (Z.shiftl d0 56 mod 2 ^ 64) (Z.shiftl d1 48 mod 2 ^ 64))
         (Z.shiftl d2 40 mod 2 ^ 64)) (Z.shiftl d3 32 mod 2 ^ 64))
         (Z.shiftl d4 24 mod 2 ^ 64)) (Z.shiftl d5 16 mod 2 ^ 64))
         (Z.shiftl d6 8 mod 2 ^ 64)) d7 mod 2 ^ 64,
       packet).

End Rnet.

(** ** A concrete platform: Linux, with a small C library

    The numeric values are those of the Linux headers; [inet_pton] and
    [strtoul] are written out for the plain forms of their input (dotted
    quads, groups of hexadecimal digits with one optional gap, numbers in
    base 8, 10 and 16). *)

Module Linux.

Definition digit_value (c : ascii) : option Z :=
  let n := Z.of_nat (nat_of_ascii c) in
  if (48 <=? n) && (n <=? 57) then Some (n - 48)
  else if (97 <=? n) && (n <=? 102) then Some (n - 87)
  else if (65 <=? n) && (n <=? 70) then Some (n - 55)
  else None.

(** The fields of [s] between occurrences of [sep]. *)
Fixpoint split_on (sep : ascii) (s : string) (cur : string) : list string :=
  match s with
  | EmptyString => [cur]
  | String c rest =>
      if Ascii.eqb c sep then cur :: split_on sep rest EmptyString
      else split_on sep rest (cur +:+ String c EmptyString)
  end.

(** All of [s] as a number in [base], when every character is a digit. *)
Fixpoint number_in (base : Z) (s : string) (acc : Z) : option Z :=
  match s with
  | EmptyString => Some acc
  | String c rest =>
      match digit_value c with
      | Some d => if d <? base then number_in base rest (acc * base + d) else None
      | None => None
      end
  end.

Definition octet (s : string) : option Z :=
  match s with
  | EmptyString => None
  | String c rest =>
      if Ascii.eqb c "0" && negb (String.eqb rest EmptyString) then None
      else
        match number_in 10 s 0 with
        | Some v => if (v <=? 255) && (String.length s <=? 3)%nat then Some v else None
        | None => None
        end
  end.

Definition parse_ipv4 (s : string) : option (list Z) :=
  let parts := split_on "." s EmptyString in
  if (length parts =? 4)%nat then mapM octet parts else None.

Definition group16 (s : string) : option (list Z) :=
  if (String.length s =? 0)%nat || (4 <? String.length s)%nat then None
  else
    match number_in 16 s 0 with
    | Some v => Some [v / 256; v mod 256]
    | None => None
    end.

Definition is_empty (s : string) : bool := String.eqb s EmptyString.

(** The groups before and after the gap of a compressed address. *)
Fixpoint split_gap (parts : list string) (before : list string)
  : list string * option (list string) :=
  match parts with
  | [] => (before, None)
  | p :: rest =>
      if is_empty p then (before, Some rest)
      else split_gap rest (before ++ [p])
  end.

Definition parse_ipv6 (s : string) : option (list Z) :=
  let parts := split_on ":" s EmptyString in
  (* a leading or trailing gap shows as two empty fields *)
  let parts :=
    match parts with
    | a :: b :: rest => if is_empty a && is_empty b then b :: rest else parts
    | _ => parts
    end in
  let parts :=
    match reverse parts with
    | a :: b :: rest =>
        if is_empty a && is_empty b then reverse (b :: rest) else parts
    | _ => parts
    end in
  match split_gap parts [] with
  | (groups, None) =>
      if (length groups =? 8)%nat then (fun gs => concat gs) <$> mapM group16 groups
      else None
  | (before, Some after) =>
      if (length before + length after <? 8)%nat then
        match mapM group16 before, mapM group16 after with
        | Some b, Some a =>
            Some (concat b
                  ++ replicate (2 * (8 - (length before + length after))) 0
                  ++ concat a)
        | _, _ => None
        end
      else None
  end.

Definition inet_pton_impl (af : Z) (src : string) : Z * list Z :=
  if af =? 2 then
    match parse_ipv4 src with
    | Some bs => (1, bs)
    | None => (0, replicate 4 0)
    end
  else if af =? 10 then
    match parse_ipv6 src with
    | Some bs => (1, bs)
    | None => (0, replicate 16 0)
    end
  else (-1, []).

(** The longest prefix of digits of [s] in [base], as a number. *)
Fixpoint digits_prefix (base : Z) (s : string) (acc : Z) : Z :=
  match s with
  | EmptyString => acc
  | String c rest =>
      match digit_value c with
      | Some d => if d <? base then digits_prefix base rest (acc * base + d) else acc
      | None => acc
      end
  end.

Definition strtoul_impl (s : string) : Z :=
  let v :=
    match s with
    | String "0" (String "x" rest) => digits_prefix 16 rest 0
    | String "0" (String "X" rest) => digits_prefix 16 rest 0
    | String "0" rest => digits_prefix 8 rest 0
    | _ => digits_prefix 10 s 0
    end in
  Z.min v (2 ^ 64 - 1).

Definition platform : Platform.
Proof.
  refine
    {| AF_UNSPEC := 0; AF_INET := 2; AF_INET6 := 10;
       SOCK_STREAM := 1; SOCK_DGRAM := 2; SOL_SOCKET := 1;
       AI_PASSIVE := 1; AI_NUMERICHOST := 4; O_NONBLOCK := 2048;
       INVALID_SOCKET := -1; SOCKET_ERROR := -1;
       WSAEINTR := 4; WSAEWOULDBLOCK := 11;
       SOCKET_MAX_QUEUE_SIZE := 16; SOCKET_MAX_SOCK_OPTS := 4;
       SOCKET_MAX_UDPCHANNELS := 32; SOCKET_MAX_UDPADDRESSES := 4;
       sizeof_Socket := 2352; sizeof_SocketSet := 16; sizeof_addrinfo := 48;
       sizeof_pointer := 8;
       inet_pton := inet_pton_impl; strtoul := strtoul_impl |};
    first [reflexivity | lia].
Defined.

End Linux.

(** ** Operations on a heap of sockets

    A program using the module holds its sockets by pointer and hands the
    same pointers to socket sets.  An operation loads the socket its pointer
    argument designates, runs the function of the module and stores the
    socket back. *)

Section System.
Context `{Platform}.

Inductive Op :=
| OpCreate (config : SocketConfig) (p : Z)
| OpBind (config : SocketConfig) (p : Z)
| OpListen (config : SocketConfig) (p : Z)
| OpConnect (config : SocketConfig) (p : Z)
| OpAccept (server : Z) (config : SocketConfig) (fresh : Z)
| OpClose (p : Z)
| OpSetChannel (p : Z) (channel : Z) (addr : IPAddress)
| OpUnsetChannel (p : Z) (channel : Z)
| OpSend (p : Z) (data : block) (length : Z)
| OpReceive (p : Z) (data : block) (maxlen : Z)
| OpCheck (set : SocketSet) (timeout : Z).

Definition update_socket (heap : Heap) (p : Z) (s : option Socket) : Heap :=
  match s with
  | Some s => <[p := s]> heap
  | None => heap
  end.

Definition result_at (heap : Heap) (p : Z) : M SocketResult :=
  let* sock := heap_load heap (Some p) in
  ret {| res_status := RESULT_FAILURE; res_socket := Some sock |}.

Definition run_op (op : Op) (heap : Heap) : M Heap :=
  match op with
  | OpCreate config p =>
      let* result := result_at heap p in
      let* (_, result) := SocketCreate (Some config) (Some result) in
      ret (update_socket heap p (result ≫= res_socket))
  | OpBind config p =>
      let* result := result_at heap p in
      let* (_, result) := SocketBind config result in
      ret (update_socket heap p (res_socket result))
  | OpListen config p =>
      let* result := result_at heap p in
      let* (_, result) := SocketListen config result in
      ret (update_socket heap p (res_socket result))
  | OpConnect config p =>
      let* result := result_at heap p in
      let* (_, result) := SocketConnect config result in
      ret (update_socket heap p (res_socket result))
  | OpAccept server config fresh =>
      let* s := heap_load heap (Some server) in
      let* (new, s) := SocketAccept s config in
      let heap := <[server := s]> heap in
      match new with
      | Some n =>
          if decide (is_Some (heap !! fresh)) then crash OracleMismatch
          else ret (<[fresh := n]> heap)
      | None => ret heap
      end
  | OpClose p =>
      let* s := heap_load heap (Some p) in
      let* _ := SocketClose (Some s) in
      ret heap
  | OpSetChannel p channel addr =>
      let* s := heap_load heap (Some p) in
      let* (_, s) := SocketSetChannel (Some s) channel addr in
      ret (update_socket heap p s)
  | OpUnsetChannel p channel =>
      let* s := heap_load heap (Some p) in
      let* s := SocketUnsetChannel (Some s) channel in
      ret (update_socket heap p s)
  | OpSend p data length =>
      let* s := heap_load heap (Some p) in
      let* (_, s) := SocketSend s data length in
      ret (<[p := s]> heap)
  | OpReceive p data maxlen =>
      let* s := heap_load heap (Some p) in
      let* (_, s, _) := SocketReceive s data maxlen in
      ret (<[p := s]> heap)
  | OpCheck set timeout =>
      let* (_, heap) := CheckSockets set timeout heap in
      ret heap
  end.

Fixpoint run_ops (ops : list Op) (heap : Heap) : M Heap :=
  match ops with
  | [] => ret heap
  | op :: rest =>
      let* heap := run_op op heap in
      run_ops rest heap
  end.

End System.

(** * Properties *)

(** ** Reasoning about computations *)

Lemma bind_Done {A B} (m : M A) (k : A -> M B) w b w' :
  bind m k w = Done b w' <-> exists a w1, m w = Done a w1 /\ k a w1 = Done b w'.
Proof.
  unfold bind. split.
  - destruct (m w) as [a w1|f w1]; [eauto | discriminate].
  - intros (a & w1 & -> & Hk). exact Hk.
Qed.

Lemma bind_Done_eq {A B} (m : M A) (k : A -> M B) w a w1 :
  m w = Done a w1 -> bind m k w = k a w1.
Proof. unfold bind. intros ->. reflexivity. Qed.

Lemma ret_Done {A} (a b : A) w w' : ret a w = Done b w' <-> a = b /\ w = w'.
Proof. unfold ret. split; [intros [= -> ->] | intros [-> ->]]; auto. Qed.

Lemma deref_Done {A} (p : option A) (a : A) w w' :
  deref p w = Done a w' <-> p = Some a /\ w = w'.
Proof.
  destruct p as [x|]; cbn; unfold ret, crash; split;
    try (intros [= -> ->]; auto); try (intros [[= ->] ->]; auto);
    try discriminate; intros [? _]; discriminate.
Qed.

(** Taking a terminated computation apart, binding by binding. *)
Ltac inv_M :=
  repeat match goal with
  | H : bind _ _ _ = Done _ _ |- _ =>
      let a := fresh "a" in let w := fresh "w" in let Hm := fresh "Hm" in
      apply bind_Done in H as (a & w & Hm & H)
  | H : ret _ _ = Done _ _ |- _ => apply ret_Done in H as [? ?]; simplify_eq
  | H : deref _ _ = Done _ _ |- _ => apply deref_Done in H as [? ?]; simplify_eq
  | H : crash _ _ = Done _ _ |- _ => discriminate H
  | H : Crashed _ _ = Done _ _ |- _ => discriminate H
  | H : Done _ _ = Done _ _ |- _ => injection H as ? ?; subst
  | H : (let '(_, _) := ?x in _) _ = Done _ _ |- _ => destruct x
  | H : (if ?c then _ else _) _ = Done _ _ |- _ => destruct c eqn:?
  | H : (match ?x with _ => _ end) _ = Done _ _ |- _ => destruct x eqn:?
  end.

Section Properties.
Context `{Platform}.

(** Running a computation on a world that is known: the monad and the
    native layer are unfolded, arithmetic is left to rewriting. *)
Ltac run :=
  cbv beta iota zeta delta
    [bind ret crash deref native native_int native_void malloc
     SocketSetLastError SocketGetLastError with_errno with_fuel capture_error
     w_errno w_oracle w_trace receive_call write_bytes store_at load_at
     getaddrinfo getsockname accept load_family
     isServer type channel ready status isIPv6 addripv4 addripv6 binding
     set_ready set_status set_isServer set_channel set_type set_isIPv6
     set_addripv4 set_addripv6 set_binding
     res_status res_socket set_res_status set_res_socket
     cfg_host cfg_port cfg_server cfg_nonblocking cfg_type cfg_backlog_size
     cfg_sockopts andb orb negb fst snd].

Lemma SOCKET_ERROR_nonzero : (0 =? SOCKET_ERROR) = false.
Proof. pose proof SOCKET_ERROR_negative. apply Z.eqb_neq. lia. Qed.

Lemma zero_is_not_WSAEINTR : (0 =? WSAEINTR) = false.
Proof. pose proof WSAEINTR_nonzero. apply Z.eqb_neq. lia. Qed.

(** ** Sending *)

(** C3: on a UDP, non-server socket SocketSend makes exactly one sendto call,
    to the stored address its family tag selects; when that call fails the
    function still returns 1 (its test reads [sent], which is always 0, and
    not the [status] sendto returned), the socket status is reset to 0 and
    the error stays in the last-error slot. *)
Theorem SocketSend_udp_failed_sendto_returns_1
    (rdy st ch : Z) (v6 : bool) (a4 a6 : option block) (bnd : list UDPChannel)
    (data : block) (len e errno0 : Z) (rest : list Reply) (tr : list Call) :
  SocketSend
    {| ready := rdy; status := st; isServer := false; channel := ch;
       type := SOCKET_UDP; isIPv6 := v6; addripv4 := a4; addripv6 := a6;
       binding := bnd |}
    data len
    {| w_errno := errno0; w_oracle := R_err e :: rest; w_trace := tr |}
  = Done (1, {| ready := rdy; status := 0; isServer := false; channel := ch;
                type := SOCKET_UDP; isIPv6 := v6; addripv4 := a4;
                addripv6 := a6; binding := bnd |})
      {| w_errno := e; w_oracle := rest;
         w_trace := tr ++ [call_sendto ch (take (Z.to_nat len) data) len
                             (if v6 then a6 else a4)
                             (Z.of_nat (if v6 then sizeof_sockaddr_in6
                                        else sizeof_sockaddr_in))] |}.
Proof. destruct v6; reflexivity. Qed.

(** The same call when sendto succeeds: one call, result 1. *)
Lemma SocketSend_udp_ok
    (rdy st ch : Z) (v6 : bool) (a4 a6 : option block) (bnd : list UDPChannel)
    (data : block) (len n errno0 : Z) (rest : list Reply) (tr : list Call) :
  SocketSend
    {| ready := rdy; status := st; isServer := false; channel := ch;
       type := SOCKET_UDP; isIPv6 := v6; addripv4 := a4; addripv6 := a6;
       binding := bnd |}
    data len
    {| w_errno := errno0; w_oracle := R_ok n :: rest; w_trace := tr |}
  = Done (1, {| ready := rdy; status := 0; isServer := false; channel := ch;
                type := SOCKET_UDP; isIPv6 := v6; addripv4 := a4;
                addripv6 := a6; binding := bnd |})
      {| w_errno := 0; w_oracle := rest;
         w_trace := tr ++ [call_sendto ch (take (Z.to_nat len) data) len
                             (if v6 then a6 else a4)
                             (Z.of_nat (if v6 then sizeof_sockaddr_in6
                                        else sizeof_sockaddr_in))] |}.
Proof. destruct v6; reflexivity. Qed.

(** ** Receiving *)

(** C10: a TCP receive that fills the caller's buffer (recv returns maxlen
    bytes into a buffer of maxlen bytes) stores the terminator at offset
    maxlen, one past the last byte of the buffer. *)
Theorem SocketReceive_terminator_past_buffer
    (rdy st ch : Z) (v6 : bool) (a4 a6 : option block) (bnd : list UDPChannel)
    (b fill : Z) (bs : block) (errno0 : Z) (rest : list Reply) (tr : list Call) :
  let payload := b :: bs in
  let maxlen := Z.of_nat (length payload) in
  SocketReceive
    {| ready := rdy; status := st; isServer := false; channel := ch;
       type := SOCKET_TCP; isIPv6 := v6; addripv4 := a4; addripv6 := a6;
       binding := bnd |}
    (replicate (length payload) fill) maxlen
    {| w_errno := errno0; w_oracle := R_data payload :: rest; w_trace := tr |}
  = Crashed (StoreOutOfBounds maxlen maxlen)
      {| w_errno := 0; w_oracle := rest; w_trace := tr ++ [call_recv ch maxlen] |}.
Proof.
  intros payload maxlen.
  change (length (R_data payload :: rest)) with (S (length rest)).
  unfold SocketReceive. run. cbn [SocketReceive_loop]. run.
  unfold maxlen at 1. rewrite Z.leb_refl.
  rewrite length_replicate, decide_True by lia.
  rewrite zero_is_not_WSAEINTR.
  assert (Hlen : (0 <? Z.of_nat (length payload)) = true)
    by (apply Z.ltb_lt; cbn [length payload]; lia).
  rewrite Hlen.
  rewrite drop_ge, app_nil_r by (rewrite length_replicate; lia).
  replace (0 <=? Z.of_nat (length payload)) with true
    by (symmetry; apply Z.leb_le; lia).
  rewrite Z.ltb_irrefl. reflexivity.
Qed.

(** A shorter payload leaves room for the terminator. *)
Lemma SocketReceive_terminator_in_buffer
    (sock : Socket) (payload buffer : block) (maxlen : Z)
    (errno0 : Z) (rest : list Reply) (tr : list Call) :
  isServer sock = false -> type sock = SOCKET_TCP ->
  Z.of_nat (length buffer) = maxlen ->
  (0 < length payload < length buffer)%nat ->
  SocketReceive sock buffer maxlen
    {| w_errno := errno0; w_oracle := R_data payload :: rest; w_trace := tr |}
  = Done (Z.of_nat (length payload), set_ready 0 sock,
          <[length payload := 0]> (payload ++ drop (length payload) buffer))
      {| w_errno := 0; w_oracle := rest;
         w_trace := tr ++ [call_recv (channel sock) maxlen] |}.
Proof.
  intros Hs Ht Hb Hp.
  change (length (R_data payload :: rest)) with (S (length rest)).
  unfold SocketReceive. rewrite Hs, Ht. run. cbn [SocketReceive_loop]. run.
  replace (Z.of_nat (length payload) <=? maxlen) with true
    by (symmetry; apply Z.leb_le; lia).
  rewrite decide_True by lia.
  rewrite zero_is_not_WSAEINTR.
  replace (0 <? Z.of_nat (length payload)) with true
    by (symmetry; apply Z.ltb_lt; lia).
  replace (0 <=? Z.of_nat (length payload)) with true
    by (symmetry; apply Z.leb_le; lia).
  rewrite length_app, length_drop.
  replace (Z.of_nat (length payload) <? _) with true
    by (symmetry; apply Z.ltb_lt; lia).
  rewrite Nat2Z.id. destruct sock; reflexivity.
Qed.

(** ** Resolver hints *)

(** What SocketSetHints stores into the hints of a configuration with a
    host string. *)
Lemma SocketSetHints_result (config : SocketConfig) (h : string)
    (hints0 : addrinfo) (w : World) :
  cfg_host config = Some h ->
  let v4 := negb (fst (inet_pton AF_INET h) =? 0) in
  let v6 := negb (fst (inet_pton AF_INET6 h) =? 0) in
  let passive := negb (bool_decide (cfg_type config = SOCKET_UDP)) || cfg_server config in
  SocketSetHints (Some config) (Some hints0) w
  = Done (Some {| ai_flags :=
                    if passive then AI_PASSIVE
                    else if v4 || v6 then AI_NUMERICHOST else 0;
                  ai_family :=
                    if v4 then AF_INET else if v6 then AF_INET6 else AF_UNSPEC;
                  ai_socktype :=
                    if decide (cfg_type config = SOCKET_UDP) then SOCK_DGRAM
                    else SOCK_STREAM;
                  ai_protocol := 0; ai_addrlen := 0; ai_addr := None;
                  ai_canonname := None |}) w.
Proof.
  intros Hh v4 v6 passive. subst v4 v6 passive.
  unfold SocketSetHints, IsIPv4Address, IsIPv6Address.
  destruct config as [host port srv nb ty backlog opts]. cbn in Hh. subst host.
  cbv beta iota zeta delta [bind ret deref cfg_host cfg_type cfg_server].
  destruct (fst (inet_pton AF_INET h) =? 0), (fst (inet_pton AF_INET6 h) =? 0),
    ty, srv; reflexivity.
Qed.

(** C9: for a TCP configuration, whatever its host string and its server
    flag, the hints carry the passive flag alone: the assignment of
    AI_PASSIVE replaces the flags, and with them the numeric-host flag that
    was set for a literal host. *)
Theorem SocketSetHints_tcp_loses_numeric_host
    (h : string) (port : option string) (srv nb : bool) (backlog : Z)
    (opts : list SocketOpt) (hints0 : addrinfo) (w : World) :
  exists hints,
    SocketSetHints
      (Some {| cfg_host := Some h; cfg_port := port; cfg_server := srv;
               cfg_nonblocking := nb; cfg_type := SOCKET_TCP;
               cfg_backlog_size := backlog; cfg_sockopts := opts |})
      (Some hints0) w
    = Done (Some hints) w
    /\ ai_flags hints = AI_PASSIVE
    /\ Z.land (ai_flags hints) AI_NUMERICHOST = 0
    /\ ai_socktype hints = SOCK_STREAM
    /\ ai_family hints =
         (if negb (fst (inet_pton AF_INET h) =? 0) then AF_INET
          else if negb (fst (inet_pton AF_INET6 h) =? 0) then AF_INET6
          else AF_UNSPEC).
Proof.
  eexists. split.
  - apply (SocketSetHints_result _ h). reflexivity.
  - cbn. repeat split; try reflexivity. apply AI_flags_disjoint.
Qed.

(** ** UDP channel binding *)

Definition channel_wf (b : UDPChannel) : Prop :=
  0 <= numbound b <= SOCKET_MAX_UDPADDRESSES
  /\ length (address b) = Z.to_nat SOCKET_MAX_UDPADDRESSES.

(** The binding table of a socket: SOCKET_MAX_UDPCHANNELS slots of
    SOCKET_MAX_UDPADDRESSES addresses, each with a bound count between 0 and
    the capacity. *)
Definition bindings_wf (sock : Socket) : Prop :=
  length (binding sock) = Z.to_nat SOCKET_MAX_UDPCHANNELS
  /\ Forall channel_wf (binding sock).

Definition slot_full (b : UDPChannel) : Prop :=
  numbound b = SOCKET_MAX_UDPADDRESSES.

(** The four reasons of SocketSetChannel to return -1 on a socket. *)
Definition SetChannel_refused (sock : Socket) (channel : Z) : Prop :=
  (channel <> -1 /\ ~ (0 <= channel < SOCKET_MAX_UDPCHANNELS))
  \/ (channel <> -1 /\ exists b, binding sock !! Z.to_nat channel = Some b /\ slot_full b)
  \/ (channel = -1 /\ Forall slot_full (binding sock)).

Lemma load_at_Some {A} (l : list A) (i : Z) (x : A) (w : World) :
  0 <= i -> l !! Z.to_nat i = Some x -> load_at l i w = Done x w.
Proof.
  intros Hi Hx. unfold load_at.
  replace (0 <=? i) with true by (symmetry; apply Z.leb_le; lia).
  rewrite Hx. reflexivity.
Qed.

Lemma store_at_Some {A} (l : list A) (i : Z) (x : A) (w : World) :
  0 <= i < Z.of_nat (length l) ->
  store_at l i x w = Done (<[Z.to_nat i := x]> l) w.
Proof.
  intros Hi. unfold store_at.
  replace (0 <=? i) with true by (symmetry; apply Z.leb_le; lia).
  replace (i <? Z.of_nat (length l)) with true by (symmetry; apply Z.ltb_lt; lia).
  reflexivity.
Qed.

Lemma bindings_wf_lookup (sock : Socket) (i : Z) :
  bindings_wf sock -> 0 <= i < SOCKET_MAX_UDPCHANNELS ->
  exists b, binding sock !! Z.to_nat i = Some b /\ channel_wf b.
Proof.
  intros [Hlen Hall] Hi.
  destruct (lookup_lt_is_Some_2 (binding sock) (Z.to_nat i)) as [b Hb]; [lia|].
  exists b. split; [exact Hb|].
  eapply Forall_lookup_1; eauto.
Qed.

(** The scan stops at the first slot with room, or runs to the end. *)
Lemma SocketSetChannel_scan_spec (sock : Socket) (n : nat) (c last : Z) (w : World) :
  bindings_wf sock -> 0 <= c -> c + Z.of_nat n = SOCKET_MAX_UDPCHANNELS ->
  (forall j b, 0 <= j < c -> binding sock !! Z.to_nat j = Some b -> slot_full b) ->
  exists r at_slot,
    SocketSetChannel_scan n c last (binding sock) w = Done (r, at_slot) w
    /\ ((r = at_slot /\ c <= r < SOCKET_MAX_UDPCHANNELS
         /\ (exists b, binding sock !! Z.to_nat r = Some b
                       /\ numbound b < SOCKET_MAX_UDPADDRESSES)
         /\ (forall j b, 0 <= j < r -> binding sock !! Z.to_nat j = Some b ->
                         slot_full b))
        \/ (r = SOCKET_MAX_UDPCHANNELS
            /\ at_slot = (if decide (n = 0%nat) then last else r - 1)
            /\ (forall j b, 0 <= j < SOCKET_MAX_UDPCHANNELS ->
                            binding sock !! Z.to_nat j = Some b -> slot_full b))).
Proof.
  intros Hwf. revert c last. induction n as [|n IH]; intros c last Hc Hn Hbefore.
  - exists c, last. split; [reflexivity|]. right.
    repeat split; [lia|]. intros j b Hj. apply Hbefore. lia.
  - destruct (bindings_wf_lookup sock c Hwf) as (b & Hb & Hbwf); [lia|].
    cbn [SocketSetChannel_scan]. unfold bind at 1.
    rewrite (load_at_Some _ _ b) by (auto; lia).
    destruct (numbound b <? SOCKET_MAX_UDPADDRESSES) eqn:Hroom.
    + exists c, c. split; [reflexivity|]. left.
      apply Z.ltb_lt in Hroom. repeat split; eauto; lia.
    + apply Z.ltb_ge in Hroom.
      destruct (IH (c + 1) c) as (r & at_slot & Hrun & Hcases); [lia|lia| |].
      { intros j b' Hj Hb'. destruct (decide (j = c)) as [->|Hne].
        - rewrite Hb in Hb'. injection Hb' as <-. destruct Hbwf as [Hr _].
          unfold slot_full. lia.
        - apply (Hbefore j); [lia|exact Hb']. }
      exists r, at_slot. split; [exact Hrun|].
      destruct Hcases as [(-> & Hr & Hex & Hfull)|(-> & Hat & Hfull)].
      * left. repeat split; auto; lia.
      * right. repeat split; auto.
        rewrite Hat. destruct (decide (n = 0%nat)); [|reflexivity].
        rewrite decide_False by lia. lia.
Qed.


Lemma bindings_wf_insert (sock : Socket) (i : nat) (b : UDPChannel) :
  bindings_wf sock -> channel_wf b ->
  bindings_wf (set_binding (<[i := b]> (binding sock)) sock).
Proof.
  intros [Hlen Hall] Hb. split; cbn [binding set_binding].
  - rewrite length_insert. exact Hlen.
  - apply Forall_insert; assumption.
Qed.

(** What SocketSetChannel does once the slot is chosen. *)
Lemma SocketSetChannel_commit (sock : Socket) (channel at_slot : Z) (b : UDPChannel)
    (a : IPAddress) (k : M (option (Z * Z))) (w : World) :
  bindings_wf sock -> 0 <= at_slot < SOCKET_MAX_UDPCHANNELS ->
  binding sock !! Z.to_nat at_slot = Some b ->
  k w = Done (Some (channel, at_slot)) w ->
  (let* found := k in
   match found with
   | None => ret (-1, Some sock)
   | Some (channel, at_slot) =>
       let* b := load_at (binding sock) at_slot in
       if numbound b =? SOCKET_MAX_UDPADDRESSES then ret (-1, Some sock)
       else
         let* addrs := store_at (address b) (numbound b) a in
         let b := {| numbound := numbound b + 1; address := addrs |} in
         let* slots := store_at (binding sock) at_slot b in
         ret (channel, Some (set_binding slots sock))
   end) w
  = if numbound b =? SOCKET_MAX_UDPADDRESSES then Done (-1, Some sock) w
    else Done (channel,
               Some (set_binding
                       (<[Z.to_nat at_slot :=
                            {| numbound := numbound b + 1;
                               address := <[Z.to_nat (numbound b) := a]> (address b) |}]>
                          (binding sock)) sock)) w.
Proof.
  intros Hwf Hi Hb Hk.
  assert (Hbwf : channel_wf b).
  { destruct Hwf as [_ Hall]. eapply Forall_lookup_1; eauto. }
  destruct Hbwf as [Hn Hlen].
  rewrite (bind_Done_eq _ _ _ _ _ Hk). cbv beta iota.
  rewrite (bind_Done_eq _ _ _ _ _ (load_at_Some _ _ b w (proj1 Hi) Hb)).
  destruct (numbound b =? SOCKET_MAX_UDPADDRESSES) eqn:Hfull; [reflexivity|].
  apply Z.eqb_neq in Hfull.
  assert (Hst : store_at (address b) (numbound b) a w
                = Done (<[Z.to_nat (numbound b) := a]> (address b)) w)
    by (apply store_at_Some; lia).
  rewrite (bind_Done_eq _ _ _ _ _ Hst).
  cbv beta zeta.
  erewrite bind_Done_eq; [reflexivity|].
  apply store_at_Some. destruct Hwf as [Hl _]. lia.
Qed.

(** C8: SocketSetChannel returns -1 and changes nothing for a null socket,
    an explicit index out of range, a full target slot, or no slot with
    room in automatic mode; otherwise it appends the address to one slot,
    adds one to the bound count of that slot only and returns its index,
    which is in range.  The bound counts stay within the capacity, and
    SocketUnsetChannel sets the count of a valid channel to zero and leaves
    the socket alone for an invalid index. *)
Theorem SocketSetChannel_spec (sock : Socket) (ch : Z) (a : IPAddress) (w : World) :
  bindings_wf sock ->
  SocketSetChannel None ch a w = Done (-1, None) w
  /\ (exists r sock',
        SocketSetChannel (Some sock) ch a w = Done (r, Some sock') w
        /\ (r = -1 <-> SetChannel_refused sock ch)
        /\ (r = -1 -> sock' = sock)
        /\ (r <> -1 ->
            0 <= r < SOCKET_MAX_UDPCHANNELS
            /\ (ch <> -1 -> r = ch)
            /\ (ch = -1 -> forall j b, 0 <= j < r ->
                  binding sock !! Z.to_nat j = Some b -> slot_full b)
            /\ exists b,
                 binding sock !! Z.to_nat r = Some b
                 /\ numbound b < SOCKET_MAX_UDPADDRESSES
                 /\ sock' =
                    set_binding
                      (<[Z.to_nat r :=
                           {| numbound := numbound b + 1;
                              address := <[Z.to_nat (numbound b) := a]> (address b) |}]>
                         (binding sock)) sock)
        /\ bindings_wf sock')
  /\ (exists sock',
        SocketUnsetChannel (Some sock) ch w = Done (Some sock') w
        /\ (if decide (0 <= ch < SOCKET_MAX_UDPCHANNELS)
            then exists b,
                   binding sock !! Z.to_nat ch = Some b
                   /\ sock' =
                      set_binding
                        (<[Z.to_nat ch := {| numbound := 0; address := address b |}]>
                           (binding sock)) sock
            else sock' = sock)
        /\ bindings_wf sock').
Proof.
  intros Hwf. split; [reflexivity|]. split.
  - unfold SocketSetChannel.
    destruct (ch =? -1) eqn:Hauto.
    + apply Z.eqb_eq in Hauto. subst ch.
      destruct (SocketSetChannel_scan_spec sock (Z.to_nat SOCKET_MAX_UDPCHANNELS)
                  0 (-1) w Hwf) as (r & at_slot & Hrun & Hcases);
        [lia | pose proof UDPCHANNELS_positive; lia | intros; lia |].
      destruct Hcases as [(<- & Hr & (b & Hb & Hroom) & Hfull)|(-> & Hat & Hfull)].
      * erewrite (SocketSetChannel_commit sock r r b);
          [ | exact Hwf | lia | exact Hb
            | rewrite (bind_Done_eq _ _ _ _ _ Hrun); reflexivity ].
        replace (numbound b =? SOCKET_MAX_UDPADDRESSES) with false
          by (symmetry; apply Z.eqb_neq; lia).
        eexists _, _. split; [reflexivity|].
        assert (Hbwf : channel_wf b).
        { destruct Hwf as [_ Hall]. eapply Forall_lookup_1; eauto. }
        split; [|split; [|split]].
        -- split; [lia|]. intros [[Hne _]|[[Hne _]|[_ Hall]]]; try congruence.
           pose proof (Forall_lookup_1 _ _ _ _ Hall Hb) as Hf.
           unfold slot_full in Hf. lia.
        -- lia.
        -- intros _. repeat split; try lia; auto. exists b. auto.
        -- apply bindings_wf_insert; auto. destruct Hbwf as [Hn Hlen].
           split; cbn [numbound address]; [lia|]. rewrite length_insert. exact Hlen.
      * pose proof UDPCHANNELS_positive as Hpos.
        rewrite decide_False in Hat by lia. subst at_slot.
        destruct (bindings_wf_lookup sock (SOCKET_MAX_UDPCHANNELS - 1) Hwf)
          as (b & Hb & Hbwf); [lia|].
        erewrite (SocketSetChannel_commit sock SOCKET_MAX_UDPCHANNELS
                    (SOCKET_MAX_UDPCHANNELS - 1) b);
          [ | exact Hwf | lia | exact Hb
            | rewrite (bind_Done_eq _ _ _ _ _ Hrun); reflexivity ].
        assert (Hf : slot_full b) by (apply (Hfull (SOCKET_MAX_UDPCHANNELS - 1)); [lia|auto]).
        unfold slot_full in Hf. rewrite Hf, Z.eqb_refl.
        exists (-1), sock. split; [reflexivity|].
        split; [|split; [|split]]; auto; try lia.
        split; [|reflexivity]. intros _. right. right. split; [reflexivity|].
        apply Forall_lookup_2. intros i b' Hb'.
        apply (Hfull (Z.of_nat i)).
        -- apply lookup_lt_Some in Hb'. destruct Hwf as [Hl _]. lia.
        -- rewrite Nat2Z.id. exact Hb'.
    + apply Z.eqb_neq in Hauto. unfold ValidChannel.
      destruct ((ch <? 0) || (SOCKET_MAX_UDPCHANNELS <=? ch)) eqn:Hinvalid.
      * cbn [Z.eqb]. unfold bind, ret.
        exists (-1), sock. split; [reflexivity|].
        split; [|split; [|split]]; auto; try lia.
        split; [|reflexivity]. intros _. left. split; [exact Hauto|].
        apply orb_true_iff in Hinvalid as [Hlt|Hge];
          [apply Z.ltb_lt in Hlt | apply Z.leb_le in Hge]; lia.
      * apply orb_false_iff in Hinvalid as [Hlt Hge].
        apply Z.ltb_ge in Hlt. apply Z.leb_gt in Hge.
        destruct (bindings_wf_lookup sock ch Hwf) as (b & Hb & Hbwf); [lia|].
        cbn [Z.eqb].
        erewrite (SocketSetChannel_commit sock ch ch b);
          [ | exact Hwf | lia | exact Hb | reflexivity ].
        destruct (numbound b =? SOCKET_MAX_UDPADDRESSES) eqn:Hfull.
        -- apply Z.eqb_eq in Hfull.
           exists (-1), sock. split; [reflexivity|].
           split; [|split; [|split]]; auto; try lia.
           split; [|reflexivity]. intros _. right. left. split; [exact Hauto|].
           exists b. split; auto.
        -- apply Z.eqb_neq in Hfull. destruct Hbwf as [Hn Hlen].
           eexists _, _. split; [reflexivity|].
           split; [|split; [|split]].
           ++ split; [lia|]. intros [[_ Hout]|[(_ & b' & Hb' & Hf)|[Heq _]]]; try lia.
              rewrite Hb in Hb'. injection Hb' as <-. contradiction.
           ++ lia.
           ++ intros _. repeat split; try lia. exists b. repeat split; auto. lia.
           ++ apply bindings_wf_insert; auto.
              split; cbn [numbound address]; [lia|]. rewrite length_insert. exact Hlen.
  - unfold SocketUnsetChannel.
    destruct (decide (0 <= ch < SOCKET_MAX_UDPCHANNELS)) as [Hin|Hout].
    + replace ((0 <=? ch) && (ch <? SOCKET_MAX_UDPCHANNELS)) with true
        by (symmetry; apply andb_true_iff; split;
            [apply Z.leb_le | apply Z.ltb_lt]; lia).
      destruct (bindings_wf_lookup sock ch Hwf) as (b & Hb & [Hn Hlen]); [lia|].
      cbn [deref]. unfold bind at 1, ret at 1.
      rewrite (bind_Done_eq _ _ _ _ _ (load_at_Some _ _ b w (proj1 Hin) Hb)).
      erewrite bind_Done_eq; [|apply store_at_Some; destruct Hwf as [Hl _]; lia].
      eexists. split; [reflexivity|]. split; [eauto|].
      apply bindings_wf_insert; auto.
      split; cbn [numbound address]; [pose proof UDPADDRESSES_positive; lia | exact Hlen].
    + replace ((0 <=? ch) && (ch <? SOCKET_MAX_UDPCHANNELS)) with false.
      * exists sock. repeat split; auto; apply Hwf.
      * symmetry. apply andb_false_iff.
        destruct (Z.leb_spec 0 ch); [right; apply Z.ltb_ge; lia | left; reflexivity].
Qed.


(** ** The TCP send loop *)

(** The bytes a reply to send() reports as sent. *)
Definition sent_by (r : Reply) : Z :=
  match r with
  | R_ok n => n
  | _ => 0
  end.

Fixpoint bytes_sent (rs : list Reply) : Z :=
  match rs with
  | [] => 0
  | r :: rs => sent_by r + bytes_sent rs
  end.

(** A reply after which the loop goes on: a partial send, or an interrupted
    call. *)
Definition progress_or_interrupt (r : Reply) : Prop :=
  match r with
  | R_ok n => 0 < n
  | R_err e => e = WSAEINTR
  | _ => False
  end.

Definition is_send (fd : Z) (c : Call) : Prop :=
  exists data len, c = call_send fd data len.

Lemma bytes_sent_nonneg (rs : list Reply) :
  Forall progress_or_interrupt rs -> 0 <= bytes_sent rs.
Proof.
  induction 1 as [|r rs Hr _ IH]; cbn [bytes_sent]; [lia|].
  destruct r; cbn in Hr |- *; try contradiction; lia.
Qed.

Lemma SocketSend_loop_prefix (pre : list Reply) :
  forall (fuel : nat) (fd : Z) (data : block) (sent left_ e0 : Z)
         (tr : list Call) (tail : list Reply),
  Forall progress_or_interrupt pre -> bytes_sent pre < left_ ->
  (length pre < fuel)%nat ->
  exists e1 calls data',
    SocketSend_loop fuel fd data sent left_
      {| w_errno := e0; w_oracle := pre ++ tail; w_trace := tr |}
    = SocketSend_loop (fuel - length pre) fd data'
        (sent + bytes_sent pre) (left_ - bytes_sent pre)
        {| w_errno := e1; w_oracle := tail; w_trace := tr ++ calls |}
    /\ length calls = length pre /\ Forall (is_send fd) calls.
Proof.
  induction pre as [|r pre IH]; intros fuel fd data sent left_ e0 tr tail Hpre Hlt Hfuel.
  - exists e0, [], data. cbn. rewrite app_nil_r, Nat.sub_0_r, !Z.add_0_r, Z.sub_0_r.
    repeat split; auto.
  - apply Forall_cons in Hpre as [Hr Hpre].
    pose proof (bytes_sent_nonneg pre Hpre) as Hnn.
    destruct fuel as [|fuel]; [cbn in Hfuel; lia|].
    cbn [length] in Hfuel. cbn [bytes_sent] in Hlt.
    destruct r as [n|e| | | |]; cbn in Hr; try contradiction.
    + cbn [sent_by] in Hlt.
      destruct (IH fuel fd (drop (Z.to_nat n) data) (sent + n) (left_ - n) e0
                  (tr ++ [call_send fd (take (Z.to_nat left_) data) left_]) tail)
        as (e1 & calls & data' & Hrun & Hlen & Hsend); [auto|lia|lia|].
      exists e1, (call_send fd (take (Z.to_nat left_) data) left_ :: calls), data'.
      split; [|split].
      * cbn [SocketSend_loop app]. run.
        replace (0 <? n) with true by (symmetry; apply Z.ltb_lt; lia).
        replace (0 <? left_ - n) with true by (symmetry; apply Z.ltb_lt; lia).
        cbn [andb orb]. rewrite Hrun. cbn [length bytes_sent sent_by Nat.sub].
        rewrite <- app_assoc. cbn [app].
        f_equal; lia.
      * cbn. lia.
      * constructor; [eexists _, _; reflexivity | exact Hsend].
    + subst e. cbn [sent_by] in Hlt.
      destruct (IH fuel fd data sent left_ WSAEINTR
                  (tr ++ [call_send fd (take (Z.to_nat left_) data) left_]) tail)
        as (e1 & calls & data' & Hrun & Hlen & Hsend); [auto|lia|lia|].
      exists e1, (call_send fd (take (Z.to_nat left_) data) left_ :: calls), data'.
      split; [|split].
      * cbn [SocketSend_loop app]. run.
        replace (0 <? SOCKET_ERROR) with false
          by (symmetry; apply Z.ltb_ge; pose proof SOCKET_ERROR_negative; lia).
        replace (0 <? left_) with true by (symmetry; apply Z.ltb_lt; lia).
        rewrite Z.eqb_refl. cbn [andb orb]. rewrite Hrun.
        cbn [length bytes_sent sent_by Nat.sub].
        rewrite <- app_assoc. cbn [app].
        f_equal; lia.
      * cbn. lia.
      * constructor; [eexists _, _; reflexivity | exact Hsend].
Qed.


(** The loops never stop for lack of fuel: every iteration takes a reply
    from the oracle. *)
Lemma SocketSend_loop_fuel (fuel : nat) :
  forall (fd : Z) (data : block) (sent left_ : Z) (w w' : World),
  (length (w_oracle w) < fuel)%nat ->
  SocketSend_loop fuel fd data sent left_ w <> Crashed OutOfFuel w'.
Proof.
  induction fuel as [|fuel IH]; intros fd data sent left_ w w' Hfuel; [lia|].
  destruct w as [e0 oracle tr]. cbn [w_oracle] in Hfuel.
  cbn [SocketSend_loop]. run.
  destruct oracle as [|r rs]; [discriminate|]. cbn [length] in Hfuel.
  destruct r; try discriminate.
  - destruct (0 <? v); cbv beta iota;
      match goal with
      | |- (if ?c then _ else _) _ <> _ => destruct c
      end; try discriminate; apply IH; cbn [w_oracle]; lia.
  - destruct (0 <? SOCKET_ERROR); cbv beta iota;
      match goal with
      | |- (if ?c then _ else _) _ <> _ => destruct c
      end; try discriminate; apply IH; cbn [w_oracle]; lia.
Qed.

Lemma SocketReceive_loop_fuel (fuel : nat) :
  forall (fd : Z) (data : block) (maxlen : Z) (w w' : World),
  (length (w_oracle w) < fuel)%nat ->
  SocketReceive_loop fuel fd data maxlen w <> Crashed OutOfFuel w'.
Proof.
  induction fuel as [|fuel IH]; intros fd data maxlen w w' Hfuel; [lia|].
  destruct w as [e0 oracle tr]. cbn [w_oracle] in Hfuel.
  cbn [SocketReceive_loop]. run.
  destruct oracle as [|r rs]; [discriminate|]. cbn [length] in Hfuel.
  destruct r; try discriminate.
  - destruct (e =? WSAEINTR); [|discriminate]. apply IH. cbn [w_oracle]. lia.
  - destruct (Z.of_nat (length bs) <=? maxlen); [|discriminate].
    destruct (decide (length bs <= length data)%nat); [|discriminate].
    destruct (e0 =? WSAEINTR); [|discriminate]. apply IH. cbn [w_oracle]. lia.
Qed.



(** ** Connecting *)

(** The destination SocketConnect builds from a literal host string: the
    family, the address bytes inet_pton stores, the size of the address
    structure. *)
Definition literal_destination (h : string) : option (Z * block * nat) :=
  if negb (fst (inet_pton AF_INET h) =? 0)
  then Some (AF_INET, snd (inet_pton AF_INET h), sizeof_sockaddr_in)
  else if negb (fst (inet_pton AF_INET6 h) =? 0)
  then Some (AF_INET6, snd (inet_pton AF_INET6 h), sizeof_sockaddr_in6)
  else None.



(** ** The ready flag *)

Lemma SocketSend_ready (sock sock' : Socket) (data : block) (len r : Z) (w w' : World) :
  SocketSend sock data len w = Done (r, sock') w' -> ready sock' = ready sock.
Proof.
  unfold SocketSend, capture_error. intros Hrun.
  inv_M; reflexivity.
Qed.

Lemma SocketSetChannel_ready (sock : Socket) (sock' : option Socket) (ch r : Z)
    (a : IPAddress) (w w' : World) :
  SocketSetChannel (Some sock) ch a w = Done (r, sock') w' ->
  exists s', sock' = Some s' /\ ready s' = ready sock.
Proof.
  unfold SocketSetChannel. intros Hrun.
  inv_M; eexists; split; reflexivity.
Qed.

Lemma SocketUnsetChannel_ready (sock : Socket) (sock' : option Socket) (ch : Z)
    (w w' : World) :
  SocketUnsetChannel (Some sock) ch w = Done sock' w' ->
  exists s', sock' = Some s' /\ ready s' = ready sock.
Proof.
  unfold SocketUnsetChannel. intros Hrun.
  inv_M; eexists; split; reflexivity.
Qed.


Lemma SocketSetLastError_inv (e : Z) (u : unit) (w w' : World) :
  SocketSetLastError e w = Done u w' -> w' = with_errno e w.
Proof. unfold SocketSetLastError. intros [= _ <-]. reflexivity. Qed.

Lemma SocketGetLastError_inv (e : Z) (w w' : World) :
  SocketGetLastError w = Done e w' -> e = w_errno w /\ w' = w.
Proof. unfold SocketGetLastError. intros [= <- <-]. auto. Qed.

Lemma load_at_inv {A} (l : list A) (i : Z) (x : A) (w w' : World) :
  load_at l i w = Done x w' -> w' = w /\ 0 <= i /\ l !! Z.to_nat i = Some x.
Proof.
  unfold load_at. destruct (Z.leb_spec 0 i) as [Hi|Hi].
  - destruct (l !! Z.to_nat i) as [y|]; intros Hrun; inv_M. auto.
  - intros Hrun. inv_M.
Qed.

Lemma heap_load_inv (heap : Heap) (p : option Z) (s : Socket) (w w' : World) :
  heap_load heap p w = Done s w' ->
  w' = w /\ exists q, p = Some q /\ heap !! q = Some s.
Proof.
  unfold heap_load. intros Hrun. inv_M. eauto.
Qed.

Lemma CheckSockets_mask_world (set : SocketSet) (heap : Heap) (i : nat) :
  forall (m m' : list Z) (w w' : World),
  CheckSockets_mask i set heap m w = Done m' w' -> w' = w.
Proof.
  induction i as [|i IH]; intros m m' w w' Hrun; cbn [CheckSockets_mask] in Hrun.
  - inv_M. reflexivity.
  - inv_M. apply load_at_inv in Hm as (-> & _ & _).
    apply heap_load_inv in Hm0 as (-> & _). eauto.
Qed.

(** The mask select leaves holds descriptors the system reported readable. *)
Lemma CheckSockets_wait_mask (set : SocketSet) (heap : Heap) (maxfd timeout : Z)
    (fuel : nat) :
  forall (retval : Z) (mask : list Z) (w w' : World),
  CheckSockets_wait fuel set heap maxfd timeout w = Done (retval, mask) w' ->
  0 < retval ->
  exists readable,
    R_select retval readable ∈ w_oracle w
    /\ forall fd, fd ∈ mask -> fd ∈ readable.
Proof.
  induction fuel as [|fuel IH]; intros retval mask w w' Hrun Hpos;
    cbn [CheckSockets_wait] in Hrun.
  - inv_M.
  - apply bind_Done in Hrun as (u & w1 & Hset & Hrun).
    apply bind_Done in Hrun as (m0 & w2 & Hmask & Hrun).
    apply CheckSockets_mask_world in Hmask as ->.
    apply bind_Done in Hrun as ([n m1] & w3 & Hsel & Hrun).
    apply bind_Done in Hrun as (e & w4 & Herr & Hrun).
    apply SocketSetLastError_inv in Hset as ->.
    apply SocketGetLastError_inv in Herr as [-> ->].
    unfold select, native in Hsel. unfold bind in Hsel at 1.
    cbn [with_errno w_oracle w_errno w_trace] in Hsel.
    destruct (w_oracle w) as [|r rs] eqn:Horacle; [discriminate|].
    assert (Hstep :
      (exists readable, r = R_select n readable
                        /\ m1 = filter (fun fd => fd ∈ readable) m0)
      \/ n = SOCKET_ERROR).
    { destruct r; try discriminate; inv_M; eauto. }
    assert (Hrest : w_oracle w3 = rs).
    { destruct r; try discriminate; inv_M;
        try apply SocketSetLastError_inv in Hm as ->; reflexivity. }
    destruct (w_errno w3 =? WSAEINTR).
    + destruct (IH _ _ _ _ Hrun Hpos) as (readable & Hin & Hsub).
      exists readable. split; [|exact Hsub].
      rewrite Hrest in Hin. apply elem_of_cons. right. exact Hin.
    + clear Hsel. inv_M. destruct Hstep as [(readable & Hr & Hm1) | Hn].
      * exists readable. split; [apply elem_of_cons; left; symmetry; exact Hr|].
        intros fd Hfd. rewrite Hm1 in Hfd.
        apply list_elem_of_filter in Hfd as [Hfd _]. exact Hfd.
      * pose proof SOCKET_ERROR_negative. lia.
Qed.

Lemma CheckSockets_mask_fuel (set : SocketSet) (heap : Heap) (i : nat) :
  forall (m : list Z) (w w' : World),
  CheckSockets_mask i set heap m w <> Crashed OutOfFuel w'.
Proof.
  induction i as [|i IH]; intros m w w'; cbn [CheckSockets_mask]; [discriminate|].
  unfold load_at, heap_load, bind, deref, ret, crash.
  destruct (if 0 <=? Z.of_nat i then sockets set !! Z.to_nat (Z.of_nat i) else None)
    as [[q|]|]; try discriminate.
  destruct (heap !! q); [apply IH | discriminate].
Qed.

Lemma CheckSockets_wait_fuel (set : SocketSet) (heap : Heap) (maxfd timeout : Z)
    (fuel : nat) :
  forall (w w' : World),
  (length (w_oracle w) < fuel)%nat ->
  CheckSockets_wait fuel set heap maxfd timeout w <> Crashed OutOfFuel w'.
Proof.
  induction fuel as [|fuel IH]; intros w w' Hfuel; [lia|].
  cbn [CheckSockets_wait]. unfold bind at 1. cbv [SocketSetLastError].
  unfold bind at 1.
  destruct (CheckSockets_mask _ set heap [] (with_errno 0 w)) as [m w1|f w1] eqn:Hmask.
  - apply CheckSockets_mask_world in Hmask as ->.
    destruct w as [e0 oracle tr]. cbn [w_oracle] in Hfuel. unfold select. run.
    destruct oracle as [|r rs]; [discriminate|]. cbn [length] in Hfuel.
    destruct r; try discriminate.
    + destruct (e =? WSAEINTR); [|discriminate]. apply IH. cbn [w_oracle]. lia.
    + destruct (0 =? WSAEINTR); [|discriminate]. apply IH. cbn [w_oracle]. lia.
  - intros [= -> ->]. eapply CheckSockets_mask_fuel. exact Hmask.
Qed.

(** Marking changes a socket of the heap only by setting its ready flag to
    1, and only when the socket is a member of the set whose descriptor is
    in the mask. *)
Lemma CheckSockets_mark_spec (set : SocketSet) (mask : list Z) (i : nat) :
  forall (heap heap' : Heap) (w w' : World),
  CheckSockets_mark i set mask heap w = Done heap' w' ->
  forall p s, heap !! p = Some s ->
    heap' !! p = Some s
    \/ (heap' !! p = Some (set_ready 1 s)
        /\ channel s ∈ mask /\ Some p ∈ sockets set).
Proof.
  induction i as [|i IH]; intros heap heap' w w' Hrun p s Hp;
    cbn [CheckSockets_mark] in Hrun.
  - inv_M. left. exact Hp.
  - apply bind_Done in Hrun as (q & w1 & Hload & Hrun).
    apply bind_Done in Hrun as (sq & w2 & Hheap & Hrun).
    apply bind_Done in Hrun as (heap1 & w3 & Hmark & Hrun).
    apply load_at_inv in Hload as (-> & _ & Hq).
    apply heap_load_inv in Hheap as (-> & q' & -> & Hsq).
    assert (Hmember : Some q' ∈ sockets set)
      by (eapply list_elem_of_lookup_2; eauto).
    destruct (bool_decide (channel sq ∈ mask)) eqn:Hin.
    + apply bool_decide_eq_true in Hin.
      cbv [deref bind ret] in Hmark. injection Hmark as <- <-.
      destruct (decide (q' = p)) as [->|Hne].
      * rewrite Hp in Hsq. injection Hsq as <-.
        destruct (IH _ _ _ _ Hrun p (set_ready 1 s)) as [Hs|(Hs & _)];
          [apply lookup_insert_eq | |]; right; auto.
      * destruct (IH _ _ _ _ Hrun p s) as [Hs|Hs];
          [rewrite lookup_insert_ne by auto; exact Hp | |]; auto.
    + cbv [ret] in Hmark. injection Hmark as <- <-. eauto.
Qed.

Lemma CheckSockets_spec (set : SocketSet) (timeout r : Z) (heap heap' : Heap)
    (w w' : World) :
  CheckSockets set timeout heap w = Done (r, heap') w' ->
  forall p s, heap !! p = Some s ->
    heap' !! p = Some s
    \/ (heap' !! p = Some (set_ready 1 s)
        /\ Some p ∈ sockets set
        /\ exists readable,
             R_select r readable ∈ w_oracle w /\ channel s ∈ readable).
Proof.
  unfold CheckSockets, with_fuel. intros Hrun p s Hp.
  apply bind_Done in Hrun as (maxfd & w1 & Hmax & Hrun).
  apply bind_Done in Hrun as ([retval mask] & w2 & Hwait & Hrun).
  apply bind_Done in Hrun as (heap1 & w3 & Hmark & Hrun).
  apply ret_Done in Hrun as [[= -> ->] ->].
  assert (w1 = w) as ->.
  { clear -Hmax. revert Hmax. generalize 0 at 1.
    induction (Z.to_nat (numsockets set)) as [|i IH]; intros m Hmax;
      cbn [CheckSockets_maxfd] in Hmax; inv_M; [reflexivity|].
    apply load_at_inv in Hm as (-> & _ & _).
    apply heap_load_inv in Hm0 as (-> & _). eauto. }
  destruct (Z.ltb_spec 0 r) as [Hpos|Hle].
  - destruct (CheckSockets_wait_mask _ _ _ _ _ _ _ _ _ Hwait Hpos)
      as (readable & Hin & Hsub).
    destruct (CheckSockets_mark_spec _ _ _ _ _ _ _ Hmark p s Hp)
      as [Hs|(Hs & Hmask & Hmem)]; [left; exact Hs|].
    right. repeat split; auto. exists readable. auto.
  - apply ret_Done in Hmark as [<- _]. left. exact Hp.
Qed.


(** The operations that reset the ready flag of the socket at [p]. *)
Definition clears_ready (op : Op) (p : Z) : Prop :=
  match op with
  | OpCreate _ q | OpBind _ q | OpListen _ q | OpConnect _ q => q = p
  | OpAccept q _ _ => q = p
  | OpReceive q _ _ => q = p
  | _ => False
  end.

Lemma update_socket_lookup (heap : Heap) (q p : Z) (o : option Socket) (s : Socket) :
  heap !! p = Some s ->
  exists s', update_socket heap q o !! p = Some s' /\ (q = p \/ s' = s).
Proof.
  intros Hp. destruct o as [x|]; cbn [update_socket]; [|eauto].
  destruct (decide (q = p)) as [->|Hne].
  - exists x. split; [apply lookup_insert_eq | auto].
  - exists s. split; [rewrite lookup_insert_ne by auto; exact Hp | auto].
Qed.

Lemma insert_lookup_other (heap : Heap) (q p : Z) (x s : Socket) :
  heap !! p = Some s ->
  exists s', <[q := x]> heap !! p = Some s' /\ ((q = p /\ s' = x) \/ s' = s).
Proof.
  intros Hp. destruct (decide (q = p)) as [->|Hne].
  - exists x. split; [apply lookup_insert_eq | auto].
  - exists s. split; [rewrite lookup_insert_ne by auto; exact Hp | auto].
Qed.

Lemma insert_same_ready (heap : Heap) (q p : Z) (x s0 s : Socket) :
  heap !! q = Some s0 -> ready x = ready s0 -> heap !! p = Some s ->
  exists s', <[q := x]> heap !! p = Some s' /\ ready s' = ready s.
Proof.
  intros Hq Hready Hp. destruct (decide (q = p)) as [->|Hne].
  - exists x. split; [apply lookup_insert_eq | congruence].
  - exists s. split; [rewrite lookup_insert_ne by auto; exact Hp | reflexivity].
Qed.

(** One operation: the socket stays on the heap, and its ready flag is
    unchanged or set to 1 unless the operation is one that resets it. *)
Lemma run_op_ready (op : Op) (heap heap' : Heap) (w w' : World) (p : Z) (s : Socket) :
  run_op op heap w = Done heap' w' -> heap !! p = Some s ->
  exists s', heap' !! p = Some s'
             /\ (clears_ready op p \/ ready s' = ready s \/ ready s' = 1).
Proof.
  intros Hrun Hp. destruct op; cbn [run_op clears_ready] in Hrun |- *.
  - apply bind_Done in Hrun as (result & w1 & _ & Hrun).
    apply bind_Done in Hrun as ([b result'] & w2 & _ & Hrun).
    apply ret_Done in Hrun as [<- _].
    destruct (update_socket_lookup heap p0 p (result' ≫= res_socket) s Hp)
      as (s' & Hs' & [->| ->]); eauto.
  - apply bind_Done in Hrun as (result & w1 & _ & Hrun).
    apply bind_Done in Hrun as ([b result'] & w2 & _ & Hrun).
    apply ret_Done in Hrun as [<- _].
    destruct (update_socket_lookup heap p0 p (res_socket result') s Hp)
      as (s' & Hs' & [->| ->]); eauto.
  - apply bind_Done in Hrun as (result & w1 & _ & Hrun).
    apply bind_Done in Hrun as ([b result'] & w2 & _ & Hrun).
    apply ret_Done in Hrun as [<- _].
    destruct (update_socket_lookup heap p0 p (res_socket result') s Hp)
      as (s' & Hs' & [->| ->]); eauto.
  - apply bind_Done in Hrun as (result & w1 & _ & Hrun).
    apply bind_Done in Hrun as ([b result'] & w2 & _ & Hrun).
    apply ret_Done in Hrun as [<- _].
    destruct (update_socket_lookup heap p0 p (res_socket result') s Hp)
      as (s' & Hs' & [->| ->]); eauto.
  - apply bind_Done in Hrun as (srv & w1 & _ & Hrun).
    apply bind_Done in Hrun as ([new srv'] & w2 & _ & Hrun).
    destruct (insert_lookup_other heap server p srv' s Hp)
      as (s1 & Hs1 & Hcase).
    destruct new as [n|].
    + destruct (decide (is_Some (<[server:=srv']> heap !! fresh))) as [Hsome|Hnone];
        [discriminate|].
      apply ret_Done in Hrun as [<- _].
      exists s1. split.
      * rewrite lookup_insert_ne; [exact Hs1|].
        intros ->. apply Hnone. rewrite Hs1. eauto.
      * destruct Hcase as [[-> _]| ->]; auto.
    + apply ret_Done in Hrun as [<- _].
      exists s1. split; [exact Hs1|]. destruct Hcase as [[-> _]| ->]; auto.
  - apply bind_Done in Hrun as (s0 & w1 & _ & Hrun).
    apply bind_Done in Hrun as (u & w2 & _ & Hrun).
    apply ret_Done in Hrun as [<- _]. eauto.
  - apply bind_Done in Hrun as (s0 & w1 & Hload & Hrun).
    apply bind_Done in Hrun as ([r s1] & w2 & Hset & Hrun).
    apply ret_Done in Hrun as [<- _].
    apply heap_load_inv in Hload as (-> & q & [= <-] & Hq).
    apply SocketSetChannel_ready in Hset as (s' & -> & Hready).
    cbn [update_socket].
    destruct (insert_same_ready heap p0 p s' s0 s Hq Hready Hp) as (s2 & Hs2 & Hr).
    eauto.
  - apply bind_Done in Hrun as (s0 & w1 & Hload & Hrun).
    apply bind_Done in Hrun as (s1 & w2 & Hset & Hrun).
    apply ret_Done in Hrun as [<- _].
    apply heap_load_inv in Hload as (-> & q & [= <-] & Hq).
    apply SocketUnsetChannel_ready in Hset as (s' & -> & Hready).
    cbn [update_socket].
    destruct (insert_same_ready heap p0 p s' s0 s Hq Hready Hp) as (s2 & Hs2 & Hr).
    eauto.
  - apply bind_Done in Hrun as (s0 & w1 & Hload & Hrun).
    apply bind_Done in Hrun as ([r s1] & w2 & Hsend & Hrun).
    apply ret_Done in Hrun as [<- _].
    apply heap_load_inv in Hload as (-> & q & [= <-] & Hq).
    apply SocketSend_ready in Hsend.
    destruct (insert_same_ready heap p0 p s1 s0 s Hq Hsend Hp) as (s2 & Hs2 & Hr).
    eauto.
  - apply bind_Done in Hrun as (s0 & w1 & _ & Hrun).
    apply bind_Done in Hrun as ([[r s1] d] & w2 & _ & Hrun).
    apply ret_Done in Hrun as [<- _].
    destruct (insert_lookup_other heap p0 p s1 s Hp) as (s2 & Hs2 & [[-> ->]| ->]);
      eauto.
  - apply bind_Done in Hrun as ([r heap1] & w1 & Hcheck & Hrun).
    apply ret_Done in Hrun as [<- _].
    destruct (CheckSockets_spec _ _ _ _ _ _ _ Hcheck p s Hp) as [Hs|(Hs & _)];
      eauto.
Qed.


(** C5, as the code has it: over every sequence of operations, a socket
    stays on the heap, and a ready flag that is set is back to 0 afterwards
    only if the sequence holds an operation that resets it on that socket:
    a Receive or an Accept on it, or a Create, Bind, Listen or Connect on
    it.  CheckSockets is not among them (it only sets flags to 1), and
    neither is Send. *)
Theorem ready_cleared_only_by_consuming_operations
    (ops : list Op) (heap heap' : Heap) (w w' : World) (p : Z) (s : Socket) :
  run_ops ops heap w = Done heap' w' ->
  heap !! p = Some s ->
  ready s <> 0 ->
  exists s',
    heap' !! p = Some s'
    /\ (ready s' = 0 -> Exists (fun op => clears_ready op p) ops).
Proof.
  revert heap w s. induction ops as [|op ops IH]; intros heap w s Hrun Hp Hready;
    cbn [run_ops] in Hrun.
  - apply ret_Done in Hrun as [<- _]. exists s. split; [exact Hp|]. congruence.
  - apply bind_Done in Hrun as (heap1 & w1 & Hop & Hrun).
    destruct (run_op_ready op heap heap1 w w1 p s Hop Hp) as (s1 & Hs1 & Hcase).
    destruct Hcase as [Hclears|Hkept].
    + assert (Hstill : exists s', heap' !! p = Some s').
      { clear -Hrun Hs1. revert heap1 w1 s1 Hrun Hs1.
        induction ops as [|op' ops' IH']; intros heap1 w1 s1 Hrun Hs1;
          cbn [run_ops] in Hrun.
        - apply ret_Done in Hrun as [<- _]. eauto.
        - apply bind_Done in Hrun as (heap2 & w2 & Hop & Hrun).
          destruct (run_op_ready _ _ _ _ _ p s1 Hop Hs1) as (s2 & Hs2 & _).
          eauto. }
      destruct Hstill as (s' & Hs'). exists s'. split; [exact Hs'|].
      intros _. apply Exists_cons_hd. exact Hclears.
    + destruct (IH heap1 w1 s1 Hrun Hs1) as (s' & Hs' & Hcleared); [lia|].
      exists s'. split; [exact Hs'|].
      intros Hzero. apply Exists_cons_tl. auto.
Qed.

End Properties.

(** * Runs on the Linux platform *)

Section OnLinux.
#[local] Existing Instance Linux.platform.

Definition no_options : list SocketOpt :=
  replicate 4 {| opt_id := 0; opt_value := []; opt_valueLen := 0 |}.

Definition world (replies : list Reply) : World :=
  {| w_errno := 0; w_oracle := replies; w_trace := [] |}.

(** 127.0.0.1 port 8080 as a sockaddr_in, ::1 port 8080 as a sockaddr_in6. *)
Definition loopback4 : block :=
  [2; 0; 31; 144; 127; 0; 0; 1; 0; 0; 0; 0; 0; 0; 0; 0].

Definition loopback6 : block :=
  [10; 0; 31; 144; 0; 0; 0; 0;
   0; 0; 0; 0; 0; 0; 0; 0; 0; 0; 0; 0; 0; 0; 0; 1;
   0; 0; 0; 0].

Definition candidate4 : addrinfo :=
  {| ai_flags := 0; ai_family := 2; ai_socktype := 1; ai_protocol := 6;
     ai_addrlen := 16; ai_addr := Some loopback4; ai_canonname := None |}.

Definition candidate6 : addrinfo :=
  {| ai_flags := 0; ai_family := 10; ai_socktype := 1; ai_protocol := 6;
     ai_addrlen := 28; ai_addr := Some loopback6; ai_canonname := None |}.

Definition localhost_client : SocketConfig :=
  {| cfg_host := Some "localhost"%string; cfg_port := Some "8080"%string;
     cfg_server := false; cfg_nonblocking := false; cfg_type := SOCKET_TCP;
     cfg_backlog_size := 0; cfg_sockopts := no_options |}.

Definition fresh_result : SocketResult :=
  {| res_status := RESULT_FAILURE; res_socket := Some zero_Socket |}.

Definition is_socket_call (c : Call) : bool :=
  match c with
  | call_socket _ _ _ => true
  | _ => false
  end.

(** ** Socket creation *)

(** C1: "localhost" resolves to two candidates and a channel can be opened
    for both.  CreateSocket opens a channel for the first (descriptor 3)
    and goes on to open one for the second (descriptor 4): the socket keeps
    the channel of the last candidate, an IPv6 one, and the address of the
    first candidate, in the IPv4 slot. *)
Theorem CreateSocket_walks_past_working_candidate :
  exists result w',
    CreateSocket localhost_client fresh_result
      (world [R_addrinfo 0 [candidate4; candidate6]; R_ok 3; R_ok 4; R_ok 1])
    = Done (true, result) w'
    /\ res_status result = RESULT_SUCCESS
    /\ filter is_socket_call (w_trace w') = [call_socket 2 1 0; call_socket 10 1 0]
    /\ (channel <$> res_socket result) = Some 4
    /\ (isIPv6 <$> res_socket result) = Some false
    /\ (res_socket result ≫= addripv4) = Some loopback4
    /\ (res_socket result ≫= addripv6) = None.
Proof. eexists _, _. split; [vm_compute; reflexivity|]. vm_compute. tauto. Qed.

(** When the first candidate cannot be opened and the second can, the
    address kept is still that of the first. *)
Lemma CreateSocket_keeps_address_of_failed_candidate :
  exists result w',
    CreateSocket localhost_client fresh_result
      (world [R_addrinfo 0 [candidate4; candidate6]; R_err 97; R_ok 4; R_ok 1])
    = Done (true, result) w'
    /\ (channel <$> res_socket result) = Some 4
    /\ (res_socket result ≫= addripv4) = Some loopback4.
Proof. eexists _, _. split; [vm_compute; reflexivity|]. vm_compute. tauto. Qed.

(** When the first candidate works and the second cannot be opened, the
    creation fails. *)
Lemma CreateSocket_fails_after_working_candidate :
  exists result w',
    CreateSocket localhost_client fresh_result
      (world [R_addrinfo 0 [candidate4; candidate6]; R_ok 3; R_err 97])
    = Done (false, result) w'
    /\ res_status result = RESULT_FAILURE
    /\ filter is_socket_call (w_trace w') = [call_socket 2 1 0; call_socket 10 1 0].
Proof. eexists _, _. split; [vm_compute; reflexivity|]. vm_compute. tauto. Qed.

(** ** Binding *)

Definition ephemeral_server : SocketConfig :=
  {| cfg_host := Some "127.0.0.1"%string; cfg_port := Some "0"%string;
     cfg_server := true; cfg_nonblocking := false; cfg_type := SOCKET_TCP;
     cfg_backlog_size := 0; cfg_sockopts := no_options |}.

(** A created server socket on channel 3 with 127.0.0.1 port 0 in its
    IPv4 slot. *)
Definition created_server : Socket :=
  set_addripv4 (Some [2; 0; 0; 0; 127; 0; 0; 1; 0; 0; 0; 0; 0; 0; 0; 0])
    (set_isServer true (set_channel 3 zero_Socket)).

(** C2: the server socket is bound to 127.0.0.1 with port "0" and the
    system assigns the port with bytes [hi; lo].  getsockname stores the
    bound address into the old IPv4 block; the block that becomes the
    snapshot is then filled from the address member on (offset 4), not from
    the start of the structure: its port member holds the last two bytes of
    the IPv4 address, and its last four bytes come from past the end of the
    old block ([x1] to [x4]).  The port read back is 1, whatever port was
    assigned. *)
Theorem SocketBind_snapshot_is_shifted (hi lo x1 x2 x3 x4 : Z) :
  exists result w',
    SocketBind ephemeral_server
      {| res_status := RESULT_FAILURE; res_socket := Some created_server |}
      (world [R_ok 0;
              R_data [2; 0; hi; lo; 127; 0; 0; 1; 0; 0; 0; 0; 0; 0; 0; 0];
              R_ok 1;
              R_data [x1; x2; x3; x4]])
    = Done (true, result) w'
    /\ res_status result = RESULT_SUCCESS
    /\ (res_socket result ≫= addripv4)
       = Some [127; 0; 0; 1; 0; 0; 0; 0; 0; 0; 0; 0; x1; x2; x3; x4]
    /\ (sa_port <$> (res_socket result ≫= addripv4)) = Some 1
    /\ (sa_family <$> (res_socket result ≫= addripv4)) = Some 127.
Proof. eexists _, _. split; [vm_compute; reflexivity|]. vm_compute. tauto. Qed.

(** ** Resolution *)

(** C6: the resolver returns one IPv6 candidate, whose address has 28
    bytes.  The entry ResolveHost fills has a 16-byte address block (the
    size of a struct sockaddr) and receives the first 16 bytes only, with
    the length member still 28: the second half of the IPv6 address and the
    scope are not copied. *)
Theorem ResolveHost_truncates_ipv6_address :
  exists entry w',
    ResolveHost (Some "::1"%string) (Some "8080"%string) 0 0 (Some [None; None])
      (world [R_addrinfo 0 [candidate6]; R_ok 1; R_ok 1])
    = Done (1, Some [Some entry; None]) w'
    /\ ai_family entry = 10
    /\ ai_addrlen entry = 28
    /\ ai_addr entry = Some (take 16 loopback6)
    /\ ai_addr entry <> ai_addr candidate6.
Proof.
  eexists _, _. split; [vm_compute; reflexivity|].
  repeat split; try reflexivity. discriminate.
Qed.

(** With no array from the caller, the array ResolveHost allocates has one
    slot per candidate and the terminating NULL is stored past its end. *)
Lemma ResolveHost_terminator_past_own_array :
  exists w',
    ResolveHost (Some "127.0.0.1"%string) (Some "8080"%string) 0 0 None
      (world [R_addrinfo 0 [candidate4]; R_ok 1; R_ok 1; R_ok 1])
    = Crashed (StoreOutOfBounds 1 1) w'.
Proof. eexists. vm_compute. reflexivity. Qed.

(** A failed resolution and an empty candidate list give -1. *)
Lemma ResolveHost_failure :
  (exists w', ResolveHost (Some "nowhere"%string) None 0 0 None
                (world [R_addrinfo (-2) []]) = Done (-1, None) w')
  /\ (exists w', ResolveHost (Some "nowhere"%string) None 0 0 None
                   (world [R_addrinfo 0 []]) = Done (-1, None) w').
Proof. split; eexists; vm_compute; reflexivity. Qed.

(** ** Hints *)

(** A TCP client with the literal host 127.0.0.1: the family is AF_INET,
    the flags are AI_PASSIVE (1) without AI_NUMERICHOST (4). *)
Example SocketSetHints_tcp_client_literal :
  SocketSetHints
    (Some {| cfg_host := Some "127.0.0.1"%string; cfg_port := Some "8080"%string;
             cfg_server := false; cfg_nonblocking := false;
             cfg_type := SOCKET_TCP; cfg_backlog_size := 0;
             cfg_sockopts := no_options |})
    (Some zero_addrinfo) (world [])
  = Done (Some {| ai_flags := 1; ai_family := 2; ai_socktype := 1;
                  ai_protocol := 0; ai_addrlen := 0; ai_addr := None;
                  ai_canonname := None |}) (world []).
Proof. vm_compute. reflexivity. Qed.

(** The UDP client keeps the numeric-host flag. *)
Example SocketSetHints_udp_client_literal :
  SocketSetHints
    (Some {| cfg_host := Some "::1"%string; cfg_port := Some "8080"%string;
             cfg_server := false; cfg_nonblocking := false;
             cfg_type := SOCKET_UDP; cfg_backlog_size := 0;
             cfg_sockopts := no_options |})
    (Some zero_addrinfo) (world [])
  = Done (Some {| ai_flags := 4; ai_family := 10; ai_socktype := 2;
                  ai_protocol := 0; ai_addrlen := 0; ai_addr := None;
                  ai_canonname := None |}) (world []).
Proof. vm_compute. reflexivity. Qed.

(** ** Instances of the general statements *)

Definition tcp_client : Socket := set_channel 3 zero_Socket.


Definition literal_client : SocketConfig :=
  {| cfg_host := Some "127.0.0.1"%string; cfg_port := Some "8080"%string;
     cfg_server := false; cfg_nonblocking := true; cfg_type := SOCKET_TCP;
     cfg_backlog_size := 0; cfg_sockopts := no_options |}.

Definition client_result : SocketResult :=
  {| res_status := RESULT_FAILURE; res_socket := Some tcp_client |}.


Lemma zero_Socket_bindings_wf : bindings_wf zero_Socket.
Proof.
  split; [reflexivity|].
  apply Forall_replicate. split; [vm_compute; split; discriminate | reflexivity].
Defined.

Lemma SocketSetChannel_spec_witness :
  exists r sock',
    SocketSetChannel (Some zero_Socket) (-1) {| ip_host := 2130706433; ip_port := 8080 |}
      (world [])
    = Done (r, Some sock') (world [])
    /\ r <> -1 /\ bindings_wf sock'.
Proof.
  destruct (SocketSetChannel_spec zero_Socket (-1)
              {| ip_host := 2130706433; ip_port := 8080 |} (world [])
              zero_Socket_bindings_wf)
    as (_ & (r & sock' & Hrun & Hrefused & _ & _ & Hwf) & _).
  exists r, sock'. split; [exact Hrun|]. split; [|exact Hwf].
  intros Hr. apply Hrefused in Hr.
  destruct Hr as [[Hne _]|[[Hne _]|[_ Hfull]]]; try (apply Hne; reflexivity).
  apply Forall_inv in Hfull. vm_compute in Hfull. discriminate Hfull.
Defined.

(** A listening socket at address 1 whose ready flag CheckSockets has set. *)
Definition listening : Socket :=
  set_ready 1 (set_isServer true (set_channel 3 zero_Socket)).

Definition accept_config : SocketConfig :=
  {| cfg_host := None; cfg_port := None; cfg_server := true;
     cfg_nonblocking := true; cfg_type := SOCKET_TCP; cfg_backlog_size := 0;
     cfg_sockopts := no_options |}.

Lemma ready_cleared_only_by_consuming_operations_witness :
  exists s',
    (<[1 := set_ready 0 listening]> ({[1 := listening]} : Heap)) !! 1 = Some s'
    /\ (ready s' = 0 ->
        Exists (fun op => clears_ready op 1) [OpAccept 1 accept_config 2]).
Proof.
  apply (ready_cleared_only_by_consuming_operations
           [OpAccept 1 accept_config 2] {[1 := listening]}
           (<[1 := set_ready 0 listening]> {[1 := listening]})
           (world [R_ok 1; R_err 11])
           {| w_errno := 0; w_oracle := [];
              w_trace := [call_malloc 2352; call_accept 3] |}
           1 listening).
  - vm_compute. reflexivity.
  - vm_compute. reflexivity.
  - vm_compute. discriminate.
Defined.

(** C5 as the specification words it: a set ready flag goes back to 0 only
    at a Send or a Receive on that socket. *)
Definition ready_cleared_only_by_send_or_receive : Prop :=
  forall (op : Op) (heap heap' : Heap) (w w' : World) (p : Z) (s s' : Socket),
    run_op op heap w = Done heap' w' ->
    heap !! p = Some s -> heap' !! p = Some s' ->
    ready s <> 0 -> ready s' = 0 ->
    match op with
    | OpSend q _ _ | OpReceive q _ _ => q = p
    | _ => False
    end.

(** SocketAccept resets the ready flag of the listening socket before it
    calls accept, here with no connection pending. *)
Lemma SocketAccept_clears_ready_flag : ~ ready_cleared_only_by_send_or_receive.
Proof.
  intros Hclaim.
  apply (Hclaim (OpAccept 1 accept_config 2) {[1 := listening]}
           (<[1 := set_ready 0 listening]> {[1 := listening]})
           (world [R_ok 1; R_err 11])
           {| w_errno := 0; w_oracle := [];
              w_trace := [call_malloc 2352; call_accept 3] |}
           1 listening (set_ready 0 listening)).
  - vm_compute. reflexivity.
  - vm_compute. reflexivity.
  - vm_compute. reflexivity.
  - vm_compute. discriminate.
  - reflexivity.
Qed.

End OnLinux.


(** * Further properties of the module *)

Section Further.
Context `{Platform}.

Ltac run :=
  cbv beta iota zeta delta
    [bind ret crash deref native native_int native_void malloc
     SocketSetLastError SocketGetLastError with_errno with_fuel capture_error
     w_errno w_oracle w_trace receive_call write_bytes store_at load_at
     getaddrinfo getsockname accept load_family
     isServer type channel ready status isIPv6 addripv4 addripv6 binding
     set_ready set_status set_isServer set_channel set_type set_isIPv6
     set_addripv4 set_addripv6 set_binding
     res_status res_socket set_res_status set_res_socket
     cfg_host cfg_port cfg_server cfg_nonblocking cfg_type cfg_backlog_size
     cfg_sockopts andb orb negb fst snd].

(** ** Packets *)

(** [x | y] is [x + y] when the low bits of [x] are clear. *)
Lemma lor_disjoint_add (x y n : Z) :
  0 <= n -> x mod 2 ^ n = 0 -> 0 <= y < 2 ^ n -> Z.lor x y = x + y.
Proof.
  intros Hn Hx Hy.
  assert (Hland : Z.land x y = 0).
  { apply Z.bits_inj'. intros i Hi. rewrite Z.land_spec, Z.bits_0.
    destruct (Z.lt_ge_cases i n) as [Hlt|Hge].
    - rewrite <- (Z.mod_pow2_bits_low x n i) by lia. rewrite Hx, Z.bits_0. reflexivity.
    - rewrite <- (Z.mod_small y (2 ^ n)) by lia.
      rewrite Z.mod_pow2_bits_high by lia. apply andb_false_r. }
  pose proof (Z.add_lor_land x y) as Hsum. lia.
Qed.

Lemma be16_decode (v : Z) :
  Z.lor (Z.shiftl (uint8 (Z.shiftr (v mod 2 ^ 16) 8)) 8) (uint8 (v mod 2 ^ 16)) mod 2 ^ 16
  = v mod 2 ^ 16.
Proof.
  unfold uint8. rewrite Z.shiftr_div_pow2, Z.shiftl_mul_pow2 by lia.
  rewrite (lor_disjoint_add _ _ 8); [| lia | | ].
  - change (2 ^ 16) with 65536. change (2 ^ 8) with 256.
    Z.to_euclidean_division_equations. lia.
  - change (2 ^ 8) with 256. Z.to_euclidean_division_equations. lia.
  - change (2 ^ 8) with 256. Z.to_euclidean_division_equations. lia.
Qed.

Lemma be32_decode (v : Z) :
  let x := v mod 2 ^ 32 in
  Z.lor (Z.lor (Z.lor (Z.shiftl (uint8 (Z.shiftr x 24)) 24 mod 2 ^ 32)
                      (Z.shiftl (uint8 (Z.shiftr x 16)) 16 mod 2 ^ 32))
               (Z.shiftl (uint8 (Z.shiftr x 8)) 8 mod 2 ^ 32))
        (uint8 x) mod 2 ^ 32
  = x.
Proof.
  intros x. assert (Hx : 0 <= x < 2 ^ 32) by (apply Z.mod_pos_bound; lia).
  clearbody x. unfold uint8. rewrite !Z.shiftr_div_pow2, !Z.shiftl_mul_pow2 by lia.
  change (2 ^ 32) with 4294967296 in *. change (2 ^ 24) with 16777216.
  change (2 ^ 16) with 65536. change (2 ^ 8) with 256.
  set (b0 := x / 16777216 mod 256). set (b1 := x / 65536 mod 256).
  set (b2 := x / 256 mod 256). set (b3 := x mod 256).
  assert (H0 : 0 <= b0 < 256) by (apply Z.mod_pos_bound; lia).
  assert (H1 : 0 <= b1 < 256) by (apply Z.mod_pos_bound; lia).
  assert (H2 : 0 <= b2 < 256) by (apply Z.mod_pos_bound; lia).
  assert (H3 : 0 <= b3 < 256) by (apply Z.mod_pos_bound; lia).
  rewrite !(Z.mod_small (_ * _) 4294967296) by lia.
  rewrite (lor_disjoint_add (b0 * 16777216) (b1 * 65536) 24);
    [| lia | change (2 ^ 24) with 16777216; apply Z.mod_mul; lia
     | change (2 ^ 24) with 16777216; lia].
  rewrite (lor_disjoint_add _ (b2 * 256) 16);
    [| lia | change (2 ^ 16) with 65536; Z.to_euclidean_division_equations; lia
     | change (2 ^ 16) with 65536; lia].
  rewrite (lor_disjoint_add _ b3 8);
    [| lia | change (2 ^ 8) with 256; Z.to_euclidean_division_equations; lia
     | change (2 ^ 8) with 256; lia].
  rewrite Z.mod_small by lia.
  subst b0 b1 b2 b3. Z.to_euclidean_division_equations. lia.
Qed.

Lemma be64_decode (v : Z) :
  let x := v mod 2 ^ 64 in
  Z.lor (Z.lor (Z.lor (Z.lor (Z.lor (Z.lor (Z.lor
     (Z.shiftl (uint8 (Z.shiftr x 56)) 56 mod 2 ^ 64)
     (Z.shiftl (uint8 (Z.shiftr x 48)) 48 mod 2 ^ 64))
     (Z.shiftl (uint8 (Z.shiftr x 40)) 40 mod 2 ^ 64))
     (Z.shiftl (uint8 (Z.shiftr x 32)) 32 mod 2 ^ 64))
     (Z.shiftl (uint8 (Z.shiftr x 24)) 24 mod 2 ^ 64))
     (Z.shiftl (uint8 (Z.shiftr x 16)) 16 mod 2 ^ 64))
     (Z.shiftl (uint8 (Z.shiftr x 8)) 8 mod 2 ^ 64))
     (uint8 x) mod 2 ^ 64
  = x.
Proof.
  intros x. assert (Hx : 0 <= x < 2 ^ 64) by (apply Z.mod_pos_bound; lia).
  clearbody x. unfold uint8. rewrite !Z.shiftr_div_pow2, !Z.shiftl_mul_pow2 by lia.
  change (2 ^ 64) with 18446744073709551616 in *.
  change (2 ^ 56) with 72057594037927936. change (2 ^ 48) with 281474976710656.
  change (2 ^ 40) with 1099511627776. change (2 ^ 32) with 4294967296.
  change (2 ^ 24) with 16777216. change (2 ^ 16) with 65536. change (2 ^ 8) with 256.
  set (b0 := x / 72057594037927936 mod 256). set (b1 := x / 281474976710656 mod 256).
  set (b2 := x / 1099511627776 mod 256). set (b3 := x / 4294967296 mod 256).
  set (b4 := x / 16777216 mod 256). set (b5 := x / 65536 mod 256).
  set (b6 := x / 256 mod 256). set (b7 := x mod 256).
  assert (H0 : 0 <= b0 < 256) by (apply Z.mod_pos_bound; lia).
  assert (H1 : 0 <= b1 < 256) by (apply Z.mod_pos_bound; lia).
  assert (H2 : 0 <= b2 < 256) by (apply Z.mod_pos_bound; lia).
  assert (H3 : 0 <= b3 < 256) by (apply Z.mod_pos_bound; lia).
  assert (H4 : 0 <= b4 < 256) by (apply Z.mod_pos_bound; lia).
  assert (H5 : 0 <= b5 < 256) by (apply Z.mod_pos_bound; lia).
  assert (H6 : 0 <= b6 < 256) by (apply Z.mod_pos_bound; lia).
  assert (H7 : 0 <= b7 < 256) by (apply Z.mod_pos_bound; lia).
  rewrite !(Z.mod_small (_ * _) 18446744073709551616) by lia.
  rewrite (lor_disjoint_add (b0 * 72057594037927936) (b1 * 281474976710656) 56);
    [| lia | change (2 ^ 56) with 72057594037927936; apply Z.mod_mul; lia
     | change (2 ^ 56) with 72057594037927936; lia].
  rewrite (lor_disjoint_add _ (b2 * 1099511627776) 48);
    [| lia | change (2 ^ 48) with 281474976710656; Z.to_euclidean_division_equations; lia
     | change (2 ^ 48) with 281474976710656; lia].
  rewrite (lor_disjoint_add _ (b3 * 4294967296) 40);
    [| lia | change (2 ^ 40) with 1099511627776; Z.to_euclidean_division_equations; lia
     | change (2 ^ 40) with 1099511627776; lia].
  rewrite (lor_disjoint_add _ (b4 * 16777216) 32);
    [| lia | change (2 ^ 32) with 4294967296; Z.to_euclidean_division_equations; lia
     | change (2 ^ 32) with 4294967296; lia].
  rewrite (lor_disjoint_add _ (b5 * 65536) 24);
    [| lia | change (2 ^ 24) with 16777216; Z.to_euclidean_division_equations; lia
     | change (2 ^ 24) with 16777216; lia].
  rewrite (lor_disjoint_add _ (b6 * 256) 16);
    [| lia | change (2 ^ 16) with 65536; Z.to_euclidean_division_equations; lia
     | change (2 ^ 16) with 65536; lia].
  rewrite (lor_disjoint_add _ b7 8);
    [| lia | change (2 ^ 8) with 256; Z.to_euclidean_division_equations; lia
     | change (2 ^ 8) with 256; lia].
  rewrite Z.mod_small by lia.
  subst b0 b1 b2 b3 b4 b5 b6 b7. Z.to_euclidean_division_equations. lia.
Qed.

(** The [n] low-order bytes of [v], most significant first. *)
Fixpoint big_endian (n : nat) (v : Z) : list Z :=
  match n with
  | O => []
  | S n' => (v / 2 ^ (8 * Z.of_nat n')) mod 2 ^ 8 :: big_endian n' v
  end.

Lemma store_at_next (pre done rest : list Z) (y x i : Z) (w : World) :
  i = Z.of_nat (length pre + length done) ->
  store_at (pre ++ done ++ y :: rest) i x w = Done (pre ++ (done ++ [x]) ++ rest) w.
Proof.
  intros ->. rewrite store_at_Some.
  - rewrite Nat2Z.id. f_equal.
    rewrite insert_app_r_alt by lia.
    rewrite insert_app_r_alt by lia.
    replace (length pre + length done - length pre - length done)%nat with 0%nat by lia.
    cbn [insert list_insert]. rewrite <- (app_assoc done). reflexivity.
  - rewrite !length_app. cbn [length]. lia.
Qed.

Lemma load_at_middle (pre bs rest : list Z) (k : nat) (b i : Z) (w : World) :
  bs !! k = Some b -> i = Z.of_nat (length pre + k) ->
  load_at (pre ++ bs ++ rest) i w = Done b w.
Proof.
  intros Hb ->. apply load_at_Some; [lia|]. rewrite Nat2Z.id.
  rewrite lookup_app_r by lia.
  replace (length pre + k - length pre)%nat with k by lia.
  rewrite lookup_app_l by (eapply lookup_lt_Some; eauto). exact Hb.
Qed.

Lemma window_split (data : list Z) (o : Z) (n : nat) :
  0 <= o -> o + Z.of_nat n <= Z.of_nat (length data) ->
  exists ys,
    length ys = n /\ length (take (Z.to_nat o) data) = Z.to_nat o
    /\ data = take (Z.to_nat o) data ++ ys ++ drop (Z.to_nat o + n) data.
Proof.
  intros Ho Hn. exists (take n (drop (Z.to_nat o) data)). split; [|split].
  - rewrite length_take, length_drop. lia.
  - rewrite length_take. lia.
  - rewrite <- drop_drop, take_drop, take_drop. reflexivity.
Qed.

Lemma PacketWrite16_run (pre rest : list Z) (y0 y1 y2 size v : Z) (w : World) :
  PacketWrite16 {| pkt_size := size; pkt_offs := Z.of_nat (length pre);
                   pkt_data := pre ++ [y0; y1] ++ y2 :: rest |} v w
  = Done {| pkt_size := size + 2; pkt_offs := Z.of_nat (length pre) + 2;
            pkt_data := pre ++ big_endian 2 (v mod 2 ^ 16) ++ y2 :: rest |} w.
Proof.
  unfold PacketWrite16. cbn [pkt_size pkt_offs pkt_data].
  erewrite bind_Done_eq;
    [|apply (store_at_next pre [] ([y1] ++ y2 :: rest) y0); cbn [length]; lia].
  erewrite bind_Done_eq;
    [|apply (store_at_next pre [_] (y2 :: rest) y1); cbn [length]; lia].
  erewrite bind_Done_eq;
    [|apply (load_at_Some _ _ y2); [lia|];
      replace (Z.to_nat (Z.of_nat (length pre) + 2)) with (length pre + 2)%nat by lia;
      rewrite lookup_app_r by lia;
      replace (length pre + 2 - length pre)%nat with 2%nat by lia; reflexivity].
  unfold ret, uint8. rewrite !Z.shiftr_div_pow2 by lia.
  cbn [big_endian app Z.of_nat Z.mul]. rewrite Z.div_1_r. reflexivity.
Qed.

Lemma PacketRead16_run (pre rest : list Z) (size x : Z) (w : World) :
  PacketRead16 {| pkt_size := size; pkt_offs := Z.of_nat (length pre);
                  pkt_data := pre ++ big_endian 2 (x mod 2 ^ 16) ++ rest |} w
  = Done (x mod 2 ^ 16,
          {| pkt_size := size + 2; pkt_offs := Z.of_nat (length pre) + 2;
             pkt_data := pre ++ big_endian 2 (x mod 2 ^ 16) ++ rest |}) w.
Proof.
  unfold PacketRead16. cbn [pkt_size pkt_offs pkt_data].
  erewrite bind_Done_eq; [|apply (load_at_middle _ _ _ 0); [reflexivity|lia]].
  erewrite bind_Done_eq; [|apply (load_at_middle _ _ _ 1); [reflexivity|lia]].
  unfold ret. do 2 f_equal.
  pose proof (be16_decode x) as Hd. unfold uint8 in Hd.
  rewrite Z.shiftr_div_pow2 in Hd by lia.
  change (8 * Z.of_nat 1) with 8. change (8 * Z.of_nat 0) with 0.
  change (2 ^ 0) with 1. rewrite Z.div_1_r. exact Hd.
Qed.

Lemma PacketWrite32_run (pre rest : list Z) (y0 y1 y2 y3 size v : Z) (w : World) :
  PacketWrite32 {| pkt_size := size; pkt_offs := Z.of_nat (length pre);
                   pkt_data := pre ++ [y0; y1; y2; y3] ++ rest |} v w
  = Done {| pkt_size := size + 4; pkt_offs := Z.of_nat (length pre) + 4;
            pkt_data := pre ++ big_endian 4 (v mod 2 ^ 32) ++ rest |} w.
Proof.
  unfold PacketWrite32. cbn [pkt_size pkt_offs pkt_data].
  erewrite bind_Done_eq;
    [|apply (store_at_next pre [] ([y1; y2; y3] ++ rest) y0); cbn [length]; lia].
  erewrite bind_Done_eq;
    [|apply (store_at_next pre [_] ([y2; y3] ++ rest) y1); cbn [length]; lia].
  erewrite bind_Done_eq;
    [|apply (store_at_next pre [_; _] ([y3] ++ rest) y2); cbn [length]; lia].
  erewrite bind_Done_eq;
    [|apply (store_at_next pre [_; _; _] rest y3); cbn [length]; lia].
  unfold ret, uint8. rewrite !Z.shiftr_div_pow2 by lia.
  cbn [big_endian app]. change (8 * Z.of_nat 3) with 24. change (8 * Z.of_nat 2) with 16.
  change (8 * Z.of_nat 1) with 8. change (8 * Z.of_nat 0) with 0.
  change (2 ^ 0) with 1. rewrite Z.div_1_r. reflexivity.
Qed.

Lemma PacketRead32_run (pre rest : list Z) (size x : Z) (w : World) :
  PacketRead32 {| pkt_size := size; pkt_offs := Z.of_nat (length pre);
                  pkt_data := pre ++ big_endian 4 (x mod 2 ^ 32) ++ rest |} w
  = Done (x mod 2 ^ 32,
          {| pkt_size := size + 4; pkt_offs := Z.of_nat (length pre) + 4;
             pkt_data := pre ++ big_endian 4 (x mod 2 ^ 32) ++ rest |}) w.
Proof.
  unfold PacketRead32. cbn [pkt_size pkt_offs pkt_data].
  erewrite bind_Done_eq; [|apply (load_at_middle _ _ _ 0); [reflexivity|lia]].
  erewrite bind_Done_eq; [|apply (load_at_middle _ _ _ 1); [reflexivity|lia]].
  erewrite bind_Done_eq; [|apply (load_at_middle _ _ _ 2); [reflexivity|lia]].
  erewrite bind_Done_eq; [|apply (load_at_middle _ _ _ 3); [reflexivity|lia]].
  unfold ret. do 2 f_equal.
  pose proof (be32_decode x) as Hd. cbv zeta in Hd. unfold uint8 in Hd.
  rewrite !Z.shiftr_div_pow2 in Hd by lia.
  change (8 * Z.of_nat 3) with 24. change (8 * Z.of_nat 2) with 16.
  change (8 * Z.of_nat 1) with 8. change (8 * Z.of_nat 0) with 0.
  change (2 ^ 0) with 1. rewrite Z.div_1_r. exact Hd.
Qed.

Lemma PacketWrite64_run (pre rest : list Z) (y0 y1 y2 y3 y4 y5 y6 y7 size v : Z)
    (w : World) :
  PacketWrite64 {| pkt_size := size; pkt_offs := Z.of_nat (length pre);
                   pkt_data := pre ++ [y0; y1; y2; y3; y4; y5; y6; y7] ++ rest |} v w
  = Done {| pkt_size := size + 8; pkt_offs := Z.of_nat (length pre) + 8;
            pkt_data := pre ++ big_endian 8 (v mod 2 ^ 64) ++ rest |} w.
Proof.
  unfold PacketWrite64. cbn [pkt_size pkt_offs pkt_data].
  erewrite bind_Done_eq;
    [|apply (store_at_next pre [] ([y1; y2; y3; y4; y5; y6; y7] ++ rest) y0);
      cbn [length]; lia].
  erewrite bind_Done_eq;
    [|apply (store_at_next pre [_] ([y2; y3; y4; y5; y6; y7] ++ rest) y1);
      cbn [length]; lia].
  erewrite bind_Done_eq;
    [|apply (store_at_next pre [_; _] ([y3; y4; y5; y6; y7] ++ rest) y2);
      cbn [length]; lia].
  erewrite bind_Done_eq;
    [|apply (store_at_next pre [_; _; _] ([y4; y5; y6; y7] ++ rest) y3);
      cbn [length]; lia].
  erewrite bind_Done_eq;
    [|apply (store_at_next pre [_; _; _; _] ([y5; y6; y7] ++ rest) y4);
      cbn [length]; lia].
  erewrite bind_Done_eq;
    [|apply (store_at_next pre [_; _; _; _; _] ([y6; y7] ++ rest) y5);
      cbn [length]; lia].
  erewrite bind_Done_eq;
    [|apply (store_at_next pre [_; _; _; _; _; _] ([y7] ++ rest) y6);
      cbn [length]; lia].
  erewrite bind_Done_eq;
    [|apply (store_at_next pre [_; _; _; _; _; _; _] rest y7); cbn [length]; lia].
  unfold ret, uint8. rewrite !Z.shiftr_div_pow2 by lia.
  cbn [big_endian app].
  change (8 * Z.of_nat 7) with 56. change (8 * Z.of_nat 6) with 48.
  change (8 * Z.of_nat 5) with 40. change (8 * Z.of_nat 4) with 32.
  change (8 * Z.of_nat 3) with 24. change (8 * Z.of_nat 2) with 16.
  change (8 * Z.of_nat 1) with 8. change (8 * Z.of_nat 0) with 0.
  change (2 ^ 0) with 1. rewrite Z.div_1_r. reflexivity.
Qed.

Lemma PacketRead64_run (pre rest : list Z) (size x : Z) (w : World) :
  PacketRead64 {| pkt_size := size; pkt_offs := Z.of_nat (length pre);
                  pkt_data := pre ++ big_endian 8 (x mod 2 ^ 64) ++ rest |} w
  = Done (x mod 2 ^ 64,
          {| pkt_size := size + 8; pkt_offs := Z.of_nat (length pre) + 8;
             pkt_data := pre ++ big_endian 8 (x mod 2 ^ 64) ++ rest |}) w.
Proof.
  unfold PacketRead64. cbn [pkt_size pkt_offs pkt_data].
  erewrite bind_Done_eq; [|apply (load_at_middle _ _ _ 0); [reflexivity|lia]].
  erewrite bind_Done_eq; [|apply (load_at_middle _ _ _ 1); [reflexivity|lia]].
  erewrite bind_Done_eq; [|apply (load_at_middle _ _ _ 2); [reflexivity|lia]].
  erewrite bind_Done_eq; [|apply (load_at_middle _ _ _ 3); [reflexivity|lia]].
  erewrite bind_Done_eq; [|apply (load_at_middle _ _ _ 4); [reflexivity|lia]].
  erewrite bind_Done_eq; [|apply (load_at_middle _ _ _ 5); [reflexivity|lia]].
  erewrite bind_Done_eq; [|apply (load_at_middle _ _ _ 6); [reflexivity|lia]].
  erewrite bind_Done_eq; [|apply (load_at_middle _ _ _ 7); [reflexivity|lia]].
  unfold ret. do 2 f_equal.
  pose proof (be64_decode x) as Hd. cbv zeta in Hd. unfold uint8 in Hd.
  rewrite !Z.shiftr_div_pow2 in Hd by lia.
  change (8 * Z.of_nat 7) with 56. change (8 * Z.of_nat 6) with 48.
  change (8 * Z.of_nat 5) with 40. change (8 * Z.of_nat 4) with 32.
  change (8 * Z.of_nat 3) with 24. change (8 * Z.of_nat 2) with 16.
  change (8 * Z.of_nat 1) with 8. change (8 * Z.of_nat 0) with 0.
  change (2 ^ 0) with 1. rewrite Z.div_1_r. exact Hd.
Qed.

(** The packet after the bytes at its offset are replaced by [bs]. *)
Definition packet_with (packet : Packet) (bs : list Z) : Packet :=
  {| pkt_size := pkt_size packet + Z.of_nat (length bs);
     pkt_offs := pkt_offs packet + Z.of_nat (length bs);
     pkt_data := take (Z.to_nat (pkt_offs packet)) (pkt_data packet) ++ bs
                 ++ drop (Z.to_nat (pkt_offs packet) + length bs) (pkt_data packet) |}.

(** The packet with its offset set back to [offs]. *)
Definition rewind (offs : Z) (packet : Packet) : Packet :=
  {| pkt_size := pkt_size packet; pkt_offs := offs; pkt_data := pkt_data packet |}.


(** X2: PacketWrite16 reads, for its log line, the byte after the field it
    has written: a field that ends with the buffer makes it read one byte
    past the buffer. *)
Theorem PacketWrite16_reads_past_field (packet : Packet) (v : Z) (w : World) :
  0 <= pkt_offs packet ->
  pkt_offs packet + 2 = Z.of_nat (length (pkt_data packet)) ->
  PacketWrite16 packet v w
  = Crashed (LoadOutOfBounds (pkt_offs packet + 2)
               (Z.of_nat (length (pkt_data packet)))) w.
Proof.
  intros Ho Hlen. destruct packet as [size offs data].
  cbn [pkt_size pkt_offs pkt_data] in *.
  unfold PacketWrite16. cbn [pkt_size pkt_offs pkt_data].
  erewrite bind_Done_eq; [|apply store_at_Some; lia].
  erewrite bind_Done_eq; [|apply store_at_Some; rewrite length_insert; lia].
  unfold bind, load_at.
  replace (0 <=? offs + 2) with true by (symmetry; apply Z.leb_le; lia).
  rewrite lookup_ge_None_2 by (rewrite !length_insert; lia).
  unfold crash. rewrite !length_insert. reflexivity.
Qed.




(** X6: The writing functions do not look at the size of the buffer: a field
    that does not fit between the offset and the end of the buffer is
    stored past the end. *)
Theorem PacketWrite_past_buffer (packet : Packet) (v : Z) (w : World) :
  0 <= pkt_offs packet ->
  (Z.of_nat (length (pkt_data packet)) < pkt_offs packet + 2 ->
   exists i, PacketWrite16 packet v w
             = Crashed (StoreOutOfBounds i (Z.of_nat (length (pkt_data packet)))) w
             /\ Z.of_nat (length (pkt_data packet)) <= i)
  /\ (Z.of_nat (length (pkt_data packet)) < pkt_offs packet + 4 ->
      exists i, PacketWrite32 packet v w
                = Crashed (StoreOutOfBounds i (Z.of_nat (length (pkt_data packet)))) w
                /\ Z.of_nat (length (pkt_data packet)) <= i)
  /\ (Z.of_nat (length (pkt_data packet)) < pkt_offs packet + 8 ->
      exists i, PacketWrite64 packet v w
                = Crashed (StoreOutOfBounds i (Z.of_nat (length (pkt_data packet)))) w
                /\ Z.of_nat (length (pkt_data packet)) <= i).
Proof.
  intros Ho. destruct packet as [size offs data]. cbn [pkt_offs pkt_data] in *.
  repeat split; intros Hroom;
    unfold PacketWrite16, PacketWrite32, PacketWrite64, bind, store_at, ret, crash;
    cbn [pkt_offs pkt_data];
    repeat
      (match goal with
       | |- context [(0 <=? ?i) && (?i <? Z.of_nat (length ?l))] =>
           destruct (Z.leb_spec 0 i); [|lia];
           destruct (Z.ltb_spec i (Z.of_nat (length l))) as [?|?];
           cbn [andb]; rewrite ?length_insert in *
       end);
    try (eexists; split; [reflexivity|lia]); lia.
Qed.

(** ** Socket sets *)

(** A socket set as AllocSocketSet makes it and AddSocket and RemoveSocket
    keep it: an array of [maxsockets] pointers, the first [numsockets] of
    which are the members. *)
Definition set_wf (set : SocketSet) : Prop :=
  0 <= numsockets set <= maxsockets set
  /\ Z.of_nat (length (sockets set)) = maxsockets set.

Definition members (set : SocketSet) : list (option Z) :=
  take (Z.to_nat (numsockets set)) (sockets set).

Lemma AddSocket_run (set : SocketSet) (p : Z) (w : World) :
  set_wf set -> numsockets set < maxsockets set ->
  exists set',
    AddSocket set (Some p) w = Done (numsockets set + 1, set') w
    /\ numsockets set' = numsockets set + 1
    /\ maxsockets set' = maxsockets set
    /\ members set' = members set ++ [Some p]
    /\ set_wf set'.
Proof.
  intros [Hnum Hlen] Hroom. unfold AddSocket.
  replace (numsockets set =? maxsockets set) with false
    by (symmetry; apply Z.eqb_neq; lia).
  erewrite bind_Done_eq; [|apply store_at_Some; lia].
  eexists. split; [reflexivity|]. cbn [numsockets maxsockets sockets].
  split; [reflexivity|]. split; [reflexivity|]. split.
  - unfold members. cbn [numsockets sockets].
    replace (Z.to_nat (numsockets set + 1)) with (S (Z.to_nat (numsockets set))) by lia.
    erewrite take_S_r; [|apply list_lookup_insert_eq; lia].
    rewrite take_insert_ge by lia. reflexivity.
  - split; cbn [numsockets maxsockets sockets]; [lia|].
    rewrite length_insert. exact Hlen.
Qed.

Lemma RemoveSocket_find_spec (set : SocketSet) (sock : option Z) (w : World) (n : nat) :
  forall i : nat,
  (i + n <= length (sockets set))%nat ->
  (forall j, (j < i)%nat -> sockets set !! j <> Some sock) ->
  exists r : nat,
    RemoveSocket_find n (Z.of_nat i) set sock w = Done (Z.of_nat r) w
    /\ (forall j, (j < r)%nat -> sockets set !! j <> Some sock)
    /\ ((r < i + n)%nat /\ sockets set !! r = Some sock \/ r = (i + n)%nat).
Proof.
  induction n as [|n IH]; intros i Hlen Hbefore; cbn [RemoveSocket_find].
  - exists i. split; [reflexivity|]. split; [exact Hbefore|]. right. lia.
  - destruct (lookup_lt_is_Some_2 (sockets set) i) as [x Hx]; [lia|].
    erewrite bind_Done_eq; [|apply (load_at_Some _ _ x); [lia|rewrite Nat2Z.id; exact Hx]].
    destruct (decide (x = sock)) as [->|Hne].
    + exists i. split; [reflexivity|]. split; [exact Hbefore|]. left. split; [lia|exact Hx].
    + destruct (IH (S i)) as (r & Hrun & Hr & Hcase); [lia| |].
      { intros j Hj. destruct (decide (j = i)) as [->|Hji]; [|apply Hbefore; lia].
        rewrite Hx. congruence. }
      exists r. replace (Z.of_nat i + 1) with (Z.of_nat (S i)) by lia.
      split; [exact Hrun|]. split; [exact Hr|].
      destruct Hcase as [[Hlt Hfound]| ->]; [left; split; [lia|exact Hfound] | right; lia].
Qed.

Lemma RemoveSocket_shift_spec (w : World) (k : nat) :
  forall (i : nat) (arr : list (option Z)),
  (i + k < length arr)%nat ->
  RemoveSocket_shift k (Z.of_nat i) arr w
  = Done (take i arr ++ take k (drop (S i) arr) ++ drop (i + k) arr) w.
Proof.
  induction k as [|k IH]; intros i arr Hlen; cbn [RemoveSocket_shift].
  - unfold ret. rewrite Nat.add_0_r, take_0, app_nil_l, take_drop. reflexivity.
  - destruct (lookup_lt_is_Some_2 arr (S i)) as [x Hx]; [lia|].
    erewrite bind_Done_eq;
      [|apply (load_at_Some _ _ x); [lia|];
        replace (Z.to_nat (Z.of_nat i + 1)) with (S i) by lia; exact Hx].
    erewrite bind_Done_eq; [|apply store_at_Some; lia].
    rewrite Nat2Z.id. replace (Z.of_nat i + 1) with (Z.of_nat (S i)) by lia.
    rewrite IH by (rewrite length_insert; lia).
    f_equal.
    rewrite (take_S_r _ i x) by (apply list_lookup_insert_eq; lia).
    rewrite take_insert_ge by lia.
    rewrite !drop_insert_lt by lia.
    rewrite (drop_S arr x (S i)) by exact Hx. rewrite firstn_cons.
    rewrite <- !app_assoc. cbn [app].
    replace (S i + k)%nat with (i + S k)%nat by lia. reflexivity.
Qed.

Lemma members_lookup (set : SocketSet) (j : nat) :
  (j < Z.to_nat (numsockets set))%nat -> members set !! j = sockets set !! j.
Proof. intros Hj. unfold members. apply lookup_take_lt. exact Hj. Qed.

Lemma RemoveSocket_run (set : SocketSet) (p : Z) (i : nat) (w : World) :
  set_wf set ->
  members set !! i = Some (Some p) ->
  (forall j, (j < i)%nat -> members set !! j <> Some (Some p)) ->
  exists set',
    RemoveSocket set (Some p) w = Done (numsockets set - 1, set') w
    /\ numsockets set' = numsockets set - 1
    /\ maxsockets set' = maxsockets set
    /\ members set' = delete i (members set)
    /\ set_wf set'.
Proof.
  intros [Hnum Hlen] Hi Hfirst.
  assert (Hin : (i < Z.to_nat (numsockets set))%nat).
  { apply lookup_lt_Some in Hi. unfold members in Hi. rewrite length_take in Hi. lia. }
  rewrite members_lookup in Hi by exact Hin.
  unfold RemoveSocket.
  destruct (RemoveSocket_find_spec set (Some p) w (Z.to_nat (numsockets set)) 0)
    as (r & Hrun & Hr & Hcase); [lia | intros; lia |].
  assert (r = i) as ->.
  { destruct (Nat.lt_trichotomy r i) as [Hlt|[Heq|Hgt]]; [|exact Heq|].
    - exfalso. destruct Hcase as [[Hrn Hfound]| ->]; [|lia].
      apply (Hfirst r Hlt). rewrite members_lookup by lia. exact Hfound.
    - exfalso. apply (Hr i Hgt). exact Hi. }
  change 0 with (Z.of_nat 0). rewrite (bind_Done_eq _ _ _ _ _ Hrun).
  replace (Z.of_nat i =? numsockets set) with false
    by (symmetry; apply Z.eqb_neq; lia).
  cbv zeta.
  replace (Z.to_nat (numsockets set - 1 - Z.of_nat i))
    with (Z.to_nat (numsockets set) - 1 - i)%nat by lia.
  assert (Hroom : (i + (Z.to_nat (numsockets set) - 1 - i) < length (sockets set))%nat)
    by lia.
  rewrite (bind_Done_eq _ _ _ _ _ (RemoveSocket_shift_spec w _ i (sockets set) Hroom)).
  eexists. split; [reflexivity|]. cbn [numsockets maxsockets sockets].
  split; [reflexivity|]. split; [reflexivity|]. split.
  - unfold members. cbn [numsockets sockets].
    rewrite delete_take_drop, take_take.
    replace (i `min` Z.to_nat (numsockets set))%nat with i by lia.
    rewrite app_assoc, take_app_length'.
    + f_equal. rewrite take_drop_commute. do 2 f_equal. lia.
    + rewrite length_app, !length_take, length_drop. lia.
  - split; cbn [numsockets maxsockets sockets]; [lia|].
    rewrite !length_app, !length_take, !length_drop. lia.
Qed.

Lemma RemoveSocket_absent (set : SocketSet) (p : Z) (w : World) :
  set_wf set -> Some p ∉ members set ->
  RemoveSocket set (Some p) w = Done (-1, set) (with_errno 0 w).
Proof.
  intros [Hnum Hlen] Habsent. unfold RemoveSocket.
  destruct (RemoveSocket_find_spec set (Some p) w (Z.to_nat (numsockets set)) 0)
    as (r & Hrun & Hr & Hcase); [lia | intros; lia |].
  destruct Hcase as [[Hrn Hfound]| ->].
  - exfalso. apply Habsent. apply (list_elem_of_lookup_2 _ r).
    rewrite members_lookup by lia. exact Hfound.
  - change 0 with (Z.of_nat 0). rewrite (bind_Done_eq _ _ _ _ _ Hrun).
    replace (Z.of_nat (0 + Z.to_nat (numsockets set)) =? numsockets set) with true
      by (symmetry; apply Z.eqb_eq; lia).
    reflexivity.
Qed.

(** X7: Adding to a set: refused, with -1, the set unchanged and the error
    slot cleared, for a null socket and for a full set; otherwise the
    socket becomes the last member and the new count is returned.  No test
    is made for a socket that is a member already. *)
Theorem AddSocket_spec (set : SocketSet) (w : World) :
  set_wf set ->
  AddSocket set None w = Done (-1, set) (with_errno 0 w)
  /\ forall p : Z,
       (numsockets set = maxsockets set ->
        AddSocket set (Some p) w = Done (-1, set) (with_errno 0 w))
       /\ (numsockets set < maxsockets set ->
           exists set',
             AddSocket set (Some p) w = Done (numsockets set + 1, set') w
             /\ numsockets set' = numsockets set + 1
             /\ maxsockets set' = maxsockets set
             /\ members set' = members set ++ [Some p]
             /\ set_wf set').
Proof.
  intros Hwf. split; [reflexivity|]. intros p. split.
  - intros Hfull. unfold AddSocket. rewrite Hfull, Z.eqb_refl. reflexivity.
  - intros Hroom. apply AddSocket_run; assumption.
Qed.

(** X8: Removing from a set: -1 with the set unchanged when the socket is not
    a member; otherwise the first occurrence is taken out, the members
    after it move down one place in order, and the new count is returned.
    A null socket is not an error: the count is returned. *)
Theorem RemoveSocket_spec (set : SocketSet) (w : World) :
  set_wf set ->
  RemoveSocket set None w = Done (numsockets set, set) w
  /\ forall p : Z,
       (Some p ∉ members set ->
        RemoveSocket set (Some p) w = Done (-1, set) (with_errno 0 w))
       /\ (forall i : nat,
             members set !! i = Some (Some p) ->
             (forall j, (j < i)%nat -> members set !! j <> Some (Some p)) ->
             exists set',
               RemoveSocket set (Some p) w = Done (numsockets set - 1, set') w
               /\ numsockets set' = numsockets set - 1
               /\ maxsockets set' = maxsockets set
               /\ members set' = delete i (members set)
               /\ set_wf set').
Proof.
  intros Hwf. split; [reflexivity|]. intros p. split.
  - apply RemoveSocket_absent. exact Hwf.
  - intros i. apply RemoveSocket_run. exact Hwf.
Qed.

(** X9: Adding a socket that is not a member and removing it again gives the
    members back. *)
Theorem AddSocket_then_RemoveSocket (set : SocketSet) (p : Z) (w : World) :
  set_wf set -> numsockets set < maxsockets set -> Some p ∉ members set ->
  exists set1 set2,
    AddSocket set (Some p) w = Done (numsockets set + 1, set1) w
    /\ RemoveSocket set1 (Some p) w = Done (numsockets set, set2) w
    /\ members set2 = members set
    /\ numsockets set2 = numsockets set.
Proof.
  intros Hwf Hroom Habsent.
  destruct (AddSocket_run set p w Hwf Hroom)
    as (set1 & Hadd & Hn1 & Hm1 & Hmem1 & Hwf1).
  assert (Hlen : length (members set) = Z.to_nat (numsockets set)).
  { unfold members. rewrite length_take. destruct Hwf as [? ?]. lia. }
  destruct (RemoveSocket_run set1 p (length (members set)) w Hwf1)
    as (set2 & Hrem & Hn2 & Hm2 & Hmem2 & Hwf2).
  - rewrite Hmem1. rewrite lookup_app_r by lia. rewrite Nat.sub_diag. reflexivity.
  - intros j Hj. rewrite Hmem1, lookup_app_l by lia.
    intros Hfound. apply Habsent. eapply list_elem_of_lookup_2. exact Hfound.
  - exists set1, set2. split; [exact Hadd|]. split.
    + rewrite Hrem. do 2 f_equal. lia.
    + split; [|lia]. rewrite Hmem2, Hmem1, delete_take_drop.
      rewrite take_app_length. rewrite drop_app_ge by lia.
      replace (S (length (members set)) - length (members set))%nat with 1%nat by lia.
      cbn. apply app_nil_r.
Qed.

(** X10: AllocSocketSet gives NULL when one of its two allocations fails, and
    otherwise an empty set of the capacity asked for, all of its slots
    NULL. *)
Theorem AllocSocketSet_spec (max e : Z) (rest : list Reply) (tr : list Call) :
  0 <= max ->
  AllocSocketSet max {| w_errno := e; w_oracle := R_ok 0 :: rest; w_trace := tr |}
  = Done None {| w_errno := e; w_oracle := rest;
                 w_trace := tr ++ [call_malloc sizeof_SocketSet] |}
  /\ forall a, a <> 0 ->
       AllocSocketSet max
         {| w_errno := e; w_oracle := R_ok a :: R_ok 0 :: rest; w_trace := tr |}
       = Done None
           {| w_errno := e; w_oracle := rest;
              w_trace := tr ++ [call_malloc sizeof_SocketSet;
                                call_malloc (max * sizeof_pointer)] |}
       /\ forall b, b <> 0 ->
            exists set,
              AllocSocketSet max
                {| w_errno := e; w_oracle := R_ok a :: R_ok b :: rest; w_trace := tr |}
              = Done (Some set)
                  {| w_errno := e; w_oracle := rest;
                     w_trace := tr ++ [call_malloc sizeof_SocketSet;
                                       call_malloc (max * sizeof_pointer)] |}
              /\ set_wf set /\ maxsockets set = max /\ members set = []
              /\ Forall (fun slot => slot = None) (sockets set).
Proof.
  intros Hmax. split; [reflexivity|]. intros a Ha.
  unfold AllocSocketSet, bind, native, ret. cbn [w_oracle w_errno w_trace].
  replace (a =? 0) with false by (symmetry; apply Z.eqb_neq; lia).
  cbn [w_oracle w_errno w_trace Z.eqb]. rewrite <- !app_assoc.
  split; [reflexivity|]. intros b Hb.
  replace (b =? 0) with false by (symmetry; apply Z.eqb_neq; lia).
  eexists. split; [reflexivity|]. cbn [sockets maxsockets].
  split; [|split; [reflexivity|split; [reflexivity|]]].
  - split; cbn [numsockets maxsockets sockets]; [lia|].
    rewrite length_replicate. lia.
  - apply Forall_replicate. reflexivity.
Qed.

(** A caller adding the sockets [ps] to a set, one after the other. *)
Fixpoint add_all (ps : list Z) (set : SocketSet) : M SocketSet :=
  match ps with
  | [] => ret set
  | p :: ps =>
      let* (_, set) := AddSocket set (Some p) in
      add_all ps set
  end.

(** X11: A set takes sockets up to its capacity, in the order they are added
    (also a socket that is a member already), and refuses every socket
    after that. *)
Theorem AddSocket_fills_set (w : World) :
  forall (ps : list Z) (set : SocketSet),
  set_wf set -> numsockets set + Z.of_nat (length ps) <= maxsockets set ->
  exists set',
    add_all ps set w = Done set' w
    /\ set_wf set'
    /\ maxsockets set' = maxsockets set
    /\ members set' = members set ++ (Some <$> ps)
    /\ (numsockets set + Z.of_nat (length ps) = maxsockets set ->
        forall p w', AddSocket set' (Some p) w' = Done (-1, set') (with_errno 0 w')).
Proof.
  induction ps as [|p ps IH]; intros set Hwf Hroom.
  - exists set. split; [reflexivity|]. split; [exact Hwf|]. split; [reflexivity|].
    split; [cbn; rewrite app_nil_r; reflexivity|].
    intros Hfull p w'. unfold AddSocket. cbn [length] in Hfull.
    replace (numsockets set =? maxsockets set) with true
      by (symmetry; apply Z.eqb_eq; lia).
    reflexivity.
  - cbn [length] in Hroom.
    destruct (AddSocket_run set p w Hwf) as (set1 & Hadd & Hn1 & Hm1 & Hmem1 & Hwf1);
      [lia|].
    destruct (IH set1 Hwf1) as (set' & Hrun & Hwf' & Hm' & Hmem' & Hfull'); [lia|].
    exists set'. cbn [add_all]. rewrite (bind_Done_eq _ _ _ _ _ Hadd).
    split; [exact Hrun|]. split; [exact Hwf'|]. split; [congruence|].
    split.
    + rewrite Hmem', Hmem1, <- app_assoc. reflexivity.
    + intros Hfull. apply Hfull'. cbn [length] in Hfull. lia.
Qed.

(** ** CheckSockets *)

(** Every member of the set points at a socket of the heap: [socks] are
    the sockets of the members, in the order of the set. *)
Definition resolves (heap : Heap) (set : SocketSet) (socks : list Socket) : Prop :=
  Forall2 (fun p s => exists q, p = Some q /\ heap !! q = Some s) (members set) socks.

Lemma heap_load_Some (heap : Heap) (q : Z) (s : Socket) (w : World) :
  heap !! q = Some s -> heap_load heap (Some q) w = Done s w.
Proof. intros Hs. unfold heap_load, bind, deref, ret. rewrite Hs. reflexivity. Qed.

Lemma resolves_lookup (heap : Heap) (set : SocketSet) (socks : list Socket) (i : nat) :
  resolves heap set socks -> (i < Z.to_nat (numsockets set))%nat ->
  (i < length (sockets set))%nat ->
  exists q s, sockets set !! i = Some (Some q) /\ heap !! q = Some s
              /\ socks !! i = Some s.
Proof.
  intros Hres Hi Hlen.
  destruct (lookup_lt_is_Some_2 (members set) i) as [p Hp].
  { unfold members. rewrite length_take. lia. }
  destruct (Forall2_lookup_l _ _ _ _ _ Hres Hp) as (s & Hs & q & -> & Hq).
  exists q, s. rewrite <- members_lookup by exact Hi. auto.
Qed.

Lemma resolves_length (heap : Heap) (set : SocketSet) (socks : list Socket) :
  set_wf set -> resolves heap set socks ->
  length socks = Z.to_nat (numsockets set).
Proof.
  intros [Hnum Hlen] Hres. apply Forall2_length in Hres. rewrite <- Hres.
  unfold members. rewrite length_take. lia.
Qed.

Lemma CheckSockets_maxfd_run (heap : Heap) (set : SocketSet) (socks : list Socket)
    (w : World) :
  set_wf set -> resolves heap set socks ->
  forall (i : nat) (m : Z), (i <= Z.to_nat (numsockets set))%nat ->
  CheckSockets_maxfd i set heap m w
  = Done (foldr Z.max m (channel <$> take i socks)) w.
Proof.
  intros Hwf Hres. pose proof Hwf as [Hnum Hlen].
  induction i as [|i IH]; intros m Hi; cbn [CheckSockets_maxfd].
  - reflexivity.
  - destruct (resolves_lookup heap set socks i Hres) as (q & s & Hp & Hq & Hs);
      [lia | lia |].
    erewrite bind_Done_eq; [|apply load_at_Some; [lia | rewrite Nat2Z.id; exact Hp]].
    erewrite bind_Done_eq; [|apply heap_load_Some; exact Hq].
    rewrite IH by lia. f_equal.
    rewrite (take_S_r _ _ _ Hs), fmap_app, foldr_app. cbn [fmap list_fmap foldr].
    f_equal. destruct (Z.ltb_spec m (channel s)); lia.
Qed.

Lemma CheckSockets_mask_run (heap : Heap) (set : SocketSet) (socks : list Socket)
    (w : World) :
  set_wf set -> resolves heap set socks ->
  forall (i : nat) (mask : list Z), (i <= Z.to_nat (numsockets set))%nat ->
  CheckSockets_mask i set heap mask w
  = Done ((channel <$> take i socks) ++ mask) w.
Proof.
  intros Hwf Hres. pose proof Hwf as [Hnum Hlen].
  induction i as [|i IH]; intros mask Hi; cbn [CheckSockets_mask].
  - reflexivity.
  - destruct (resolves_lookup heap set socks i Hres) as (q & s & Hp & Hq & Hs);
      [lia | lia |].
    erewrite bind_Done_eq; [|apply load_at_Some; [lia | rewrite Nat2Z.id; exact Hp]].
    erewrite bind_Done_eq; [|apply heap_load_Some; exact Hq].
    rewrite IH by lia. f_equal.
    rewrite (take_S_r _ _ _ Hs), fmap_app, <- app_assoc. reflexivity.
Qed.

(** The select call of a CheckSockets on members with the channels [mask]. *)
Definition select_call (mask : list Z) (timeout : Z) : Call :=
  call_select (foldr Z.max 0 mask + 1) mask (timeout / 1000) (timeout mod 1000 * 1000).

Section Wait.
Variables (heap : Heap) (set : SocketSet) (socks : list Socket) (maxfd timeout : Z).
Hypothesis Hwf : set_wf set.
Hypothesis Hres : resolves heap set socks.

Let c : Call :=
  call_select (maxfd + 1) (channel <$> socks) (timeout / 1000) (timeout mod 1000 * 1000).

Lemma CheckSockets_mask_all (w : World) :
  CheckSockets_mask (Z.to_nat (numsockets set)) set heap [] w
  = Done (channel <$> socks) w.
Proof.
  rewrite (CheckSockets_mask_run heap set socks w Hwf Hres) by lia.
  rewrite app_nil_r, <- (resolves_length heap set socks Hwf Hres), firstn_all.
  reflexivity.
Qed.

Lemma CheckSockets_wait_interrupted (fuel : nat) (e : Z) (o : list Reply)
    (tr : list Call) :
  CheckSockets_wait (S fuel) set heap maxfd timeout
    {| w_errno := e; w_oracle := R_err WSAEINTR :: o; w_trace := tr |}
  = CheckSockets_wait fuel set heap maxfd timeout
      {| w_errno := WSAEINTR; w_oracle := o; w_trace := tr ++ [c] |}.
Proof.
  cbn [CheckSockets_wait]. unfold bind at 1. unfold SocketSetLastError at 1.
  rewrite (bind_Done_eq _ _ _ _ _ (CheckSockets_mask_all _)).
  unfold select, bind, native, with_errno, SocketSetLastError, SocketGetLastError, ret;
    cbn [w_errno w_oracle w_trace].
  rewrite Z.eqb_refl. reflexivity.
Qed.

Lemma CheckSockets_wait_selected (fuel : nat) (e n : Z) (readable : list Z)
    (o : list Reply) (tr : list Call) :
  CheckSockets_wait (S fuel) set heap maxfd timeout
    {| w_errno := e; w_oracle := R_select n readable :: o; w_trace := tr |}
  = Done (n, filter (fun fd => fd ∈ readable) (channel <$> socks))
      {| w_errno := 0; w_oracle := o; w_trace := tr ++ [c] |}.
Proof.
  cbn [CheckSockets_wait]. unfold bind at 1. unfold SocketSetLastError at 1.
  rewrite (bind_Done_eq _ _ _ _ _ (CheckSockets_mask_all _)).
  unfold select, bind, native, with_errno, SocketSetLastError, SocketGetLastError, ret;
    cbn [w_errno w_oracle w_trace].
  pose proof WSAEINTR_nonzero.
  replace (0 =? WSAEINTR) with false by (symmetry; apply Z.eqb_neq; lia).
  reflexivity.
Qed.

Lemma CheckSockets_wait_failed (fuel : nat) (e e' : Z) (o : list Reply)
    (tr : list Call) :
  e' <> WSAEINTR ->
  CheckSockets_wait (S fuel) set heap maxfd timeout
    {| w_errno := e; w_oracle := R_err e' :: o; w_trace := tr |}
  = Done (SOCKET_ERROR, channel <$> socks)
      {| w_errno := e'; w_oracle := o; w_trace := tr ++ [c] |}.
Proof.
  intros He. cbn [CheckSockets_wait]. unfold bind at 1. unfold SocketSetLastError at 1.
  rewrite (bind_Done_eq _ _ _ _ _ (CheckSockets_mask_all _)).
  unfold select, bind, native, with_errno, SocketSetLastError, SocketGetLastError, ret;
    cbn [w_errno w_oracle w_trace].
  replace (e' =? WSAEINTR) with false by (symmetry; apply Z.eqb_neq; lia).
  reflexivity.
Qed.

Lemma CheckSockets_wait_prefix (k : nat) :
  forall (fuel : nat) (e : Z) (o : list Reply) (tr : list Call),
  exists e',
    CheckSockets_wait (k + fuel) set heap maxfd timeout
      {| w_errno := e; w_oracle := replicate k (R_err WSAEINTR) ++ o; w_trace := tr |}
    = CheckSockets_wait fuel set heap maxfd timeout
        {| w_errno := e'; w_oracle := o; w_trace := tr ++ replicate k c |}.
Proof.
  induction k as [|k IH]; intros fuel e o tr.
  - exists e. cbn. rewrite app_nil_r. reflexivity.
  - cbn [replicate app Nat.add]. rewrite CheckSockets_wait_interrupted.
    destruct (IH fuel WSAEINTR o (tr ++ [c])) as [e' ->].
    exists e'. rewrite <- app_assoc. reflexivity.
Qed.

End Wait.

(** The marking loop sets the flag of the sockets among the first [i]
    pointers of the array whose channel is in the mask, and changes nothing
    else. *)
Definition marked (set : SocketSet) (i : nat) (mask : list Z) (p : Z) (s : Socket)
  : Socket :=
  if bool_decide (Some p ∈ take i (sockets set) /\ channel s ∈ mask)
  then set_ready 1 s else s.

Lemma CheckSockets_mark_run (set : SocketSet) (mask : list Z) (w : World) :
  forall (i : nat) (heap : Heap),
  (forall j, (j < i)%nat ->
     exists q, sockets set !! j = Some (Some q) /\ is_Some (heap !! q)) ->
  exists heap',
    CheckSockets_mark i set mask heap w = Done heap' w
    /\ forall p, heap' !! p = marked set i mask p <$> heap !! p.
Proof.
  induction i as [|i IH]; intros heap Hmembers; cbn [CheckSockets_mark].
  - exists heap. split; [reflexivity|]. intros p. unfold marked.
    destruct (heap !! p) as [s|]; [|reflexivity]. cbn.
    rewrite bool_decide_eq_false_2; [reflexivity|].
    rewrite take_0. intros [Hin _]. inversion Hin.
  - destruct (Hmembers i) as (q & Hq & s & Hs); [lia|].
    erewrite bind_Done_eq; [|apply load_at_Some; [lia | rewrite Nat2Z.id; exact Hq]].
    erewrite bind_Done_eq; [|apply heap_load_Some; exact Hs].
    set (heap1 := if bool_decide (channel s ∈ mask)
                  then <[q := set_ready 1 s]> heap else heap).
    assert (Hstep : (if bool_decide (channel s ∈ mask)
                     then let* p := deref (Some q) in ret (<[p := set_ready 1 s]> heap)
                     else ret heap) w = Done heap1 w).
    { subst heap1. destruct (bool_decide (channel s ∈ mask)); reflexivity. }
    rewrite (bind_Done_eq _ _ _ _ _ Hstep).
    destruct (IH heap1) as (heap' & Hrun & Hheap').
    { intros j Hj. destruct (Hmembers j) as (q' & Hq' & s' & Hs'); [lia|].
      exists q'. split; [exact Hq'|]. subst heap1.
      destruct (bool_decide (channel s ∈ mask)); [|eauto].
      destruct (decide (q = q')) as [->|Hne].
      - rewrite lookup_insert_eq. eauto.
      - rewrite lookup_insert_ne by exact Hne. eauto. }
    exists heap'. split; [exact Hrun|]. intros p. rewrite Hheap'.
    unfold marked. rewrite (take_S_r _ _ _ Hq). subst heap1.
    destruct (decide (p = q)) as [->|Hne].
    + rewrite Hs. destruct (bool_decide_reflect (channel s ∈ mask)) as [Hin|Hout].
      * rewrite lookup_insert_eq. cbn [fmap option_fmap option_map].
        rewrite (bool_decide_eq_true_2 (_ ∈ _ ++ _ /\ _));
          [|split; [apply elem_of_app; right; apply list_elem_of_singleton; reflexivity
                   | exact Hin]].
        destruct (bool_decide _); reflexivity.
      * rewrite Hs. cbn [fmap option_fmap option_map].
        rewrite !bool_decide_eq_false_2; [reflexivity| |]; intros [_ Hin]; auto.
    + assert (Heq : heap !! p
                    = (if bool_decide (channel s ∈ mask)
                       then <[q := set_ready 1 s]> heap else heap) !! p).
      { destruct (bool_decide (channel s ∈ mask)); [|reflexivity].
        rewrite lookup_insert_ne by auto. reflexivity. }
      rewrite <- Heq. destruct (heap !! p) as [s'|]; [|reflexivity].
      cbn [fmap option_fmap option_map]. f_equal.
      erewrite bool_decide_ext; [reflexivity|].
      rewrite elem_of_app, list_elem_of_singleton.
      split; [tauto|]. intros [[Hin|Heq'] Hm]; [tauto|]. congruence.
Qed.

Lemma CheckSockets_maxfd_all (heap : Heap) (set : SocketSet) (socks : list Socket)
    (w : World) :
  set_wf set -> resolves heap set socks ->
  CheckSockets_maxfd (Z.to_nat (numsockets set)) set heap 0 w
  = Done (foldr Z.max 0 (channel <$> socks)) w.
Proof.
  intros Hwf Hres.
  rewrite (CheckSockets_maxfd_run heap set socks w Hwf Hres) by lia.
  rewrite <- (resolves_length heap set socks Hwf Hres), firstn_all. reflexivity.
Qed.

Lemma CheckSockets_wait_all (heap : Heap) (set : SocketSet) (socks : list Socket)
    (timeout : Z) (k : nat) (last : Reply) (rest : list Reply) (e : Z)
    (tr : list Call) :
  set_wf set -> resolves heap set socks ->
  exists e',
    with_fuel (fun fuel =>
                 CheckSockets_wait fuel set heap (foldr Z.max 0 (channel <$> socks))
                   timeout)
      {| w_errno := e; w_oracle := replicate k (R_err WSAEINTR) ++ last :: rest;
         w_trace := tr |}
    = CheckSockets_wait (S (S (length rest))) set heap
        (foldr Z.max 0 (channel <$> socks)) timeout
        {| w_errno := e'; w_oracle := last :: rest;
           w_trace := tr ++ replicate k (select_call (channel <$> socks) timeout) |}.
Proof.
  intros Hwf Hres. unfold with_fuel. cbn [w_oracle].
  rewrite length_app, length_replicate. cbn [length].
  replace (S (k + S (length rest))) with (k + S (S (length rest)))%nat by lia.
  apply CheckSockets_wait_prefix; assumption.
Qed.



(** ** Native calls, reply by reply *)

Lemma bind_assoc {A B C} (m : M A) (k : A -> M B) (k' : B -> M C) (w : World) :
  bind (bind m k) k' w = bind m (fun a => bind (k a) k') w.
Proof. unfold bind. destruct (m w); reflexivity. Qed.

Lemma native_reply (c : Call) (r : Reply) (e : Z) (o : list Reply) (tr : list Call) :
  native c {| w_errno := e; w_oracle := r :: o; w_trace := tr |}
  = Done r {| w_errno := e; w_oracle := o; w_trace := tr ++ [c] |}.
Proof. reflexivity. Qed.

Lemma native_int_ok (c : Call) (failure v e : Z) (o : list Reply) (tr : list Call) :
  native_int c failure {| w_errno := e; w_oracle := R_ok v :: o; w_trace := tr |}
  = Done v {| w_errno := e; w_oracle := o; w_trace := tr ++ [c] |}.
Proof. reflexivity. Qed.

Lemma native_int_err (c : Call) (failure e' e : Z) (o : list Reply) (tr : list Call) :
  native_int c failure {| w_errno := e; w_oracle := R_err e' :: o; w_trace := tr |}
  = Done failure {| w_errno := e'; w_oracle := o; w_trace := tr ++ [c] |}.
Proof. reflexivity. Qed.

Lemma capture_error_run (sock : Socket) (e : Z) (o : list Reply) (tr : list Call) :
  capture_error sock {| w_errno := e; w_oracle := o; w_trace := tr |}
  = Done (set_status e sock) {| w_errno := 0; w_oracle := o; w_trace := tr |}.
Proof. reflexivity. Qed.

Lemma malloc_reply (size : nat) (v e : Z) (o : list Reply) (tr : list Call) :
  malloc size {| w_errno := e; w_oracle := R_ok v :: o; w_trace := tr |}
  = Done (if v =? 0 then None else Some (replicate size 0))
      {| w_errno := e; w_oracle := o; w_trace := tr ++ [call_malloc (Z.of_nat size)] |}.
Proof. reflexivity. Qed.

Lemma AllocSocket_reply (v e : Z) (o : list Reply) (tr : list Call) :
  AllocSocket {| w_errno := e; w_oracle := R_ok v :: o; w_trace := tr |}
  = Done (if v =? 0 then None else Some zero_Socket)
      {| w_errno := e; w_oracle := o; w_trace := tr ++ [call_malloc sizeof_Socket] |}.
Proof. reflexivity. Qed.

Lemma accept_connection (fd newfd e : Z) (peer : block) (o : list Reply)
    (tr : list Call) :
  (length peer <= sizeof_sockaddr_storage)%nat ->
  accept fd {| w_errno := e; w_oracle := R_accept newfd peer :: o; w_trace := tr |}
  = Done (newfd, peer)
      {| w_errno := e; w_oracle := o; w_trace := tr ++ [call_accept fd] |}.
Proof.
  intros Hpeer. unfold accept, bind, native. cbn [w_oracle w_errno w_trace].
  rewrite decide_True by exact Hpeer. reflexivity.
Qed.

Lemma accept_failure (fd e' e : Z) (o : list Reply) (tr : list Call) :
  accept fd {| w_errno := e; w_oracle := R_err e' :: o; w_trace := tr |}
  = Done (INVALID_SOCKET, [])
      {| w_errno := e'; w_oracle := o; w_trace := tr ++ [call_accept fd] |}.
Proof. reflexivity. Qed.

Lemma read_bytes_within (src : block) (off n : nat) (w : World) :
  (off + n <= length src)%nat -> read_bytes src off n w = Done (take n (drop off src)) w.
Proof.
  intros Hlen. unfold read_bytes.
  rewrite decide_True by (rewrite length_take, length_drop; lia). reflexivity.
Qed.

Lemma read_bytes_past (src junk : block) (off n : nat) (e : Z) (o : list Reply)
    (tr : list Call) :
  (off <= length src < off + n)%nat ->
  length junk = (off + n - length src)%nat ->
  read_bytes src off n {| w_errno := e; w_oracle := R_data junk :: o; w_trace := tr |}
  = Done (drop off src ++ junk)
      {| w_errno := e; w_oracle := o;
         w_trace := tr ++ [call_read_indeterminate (off + n - length src)] |}.
Proof.
  intros Hlen Hjunk. unfold read_bytes.
  rewrite take_ge by (rewrite length_drop; lia).
  rewrite decide_False by (rewrite length_drop; lia).
  unfold bind, native. cbn [w_oracle w_errno w_trace].
  rewrite length_drop.
  replace (n - (length src - off))%nat with (off + n - length src)%nat by lia.
  rewrite decide_True by exact Hjunk. reflexivity.
Qed.

Lemma sa_family_take (sa : block) : sa_family (take 2 sa) = sa_family sa.
Proof.
  unfold sa_family, block. rewrite !lookup_take_lt by lia. reflexivity.
Qed.

Lemma load_family_within (sa : block) (w : World) :
  (2 <= length sa)%nat -> load_family sa w = Done (sa_family sa) w.
Proof.
  intros Hlen. unfold load_family.
  rewrite (bind_Done_eq _ _ _ _ _ (read_bytes_within sa 0 2 w Hlen)).
  unfold ret. rewrite drop_0, sa_family_take. reflexivity.
Qed.

Lemma SocketSetBlocking_already (sock : Socket) (flags e : Z) (o : list Reply)
    (tr : list Call) :
  Z.land flags O_NONBLOCK = 0 ->
  SocketSetBlocking sock {| w_errno := e; w_oracle := R_ok flags :: o; w_trace := tr |}
  = Done true {| w_errno := e; w_oracle := o;
                 w_trace := tr ++ [call_fcntl_getfl (channel sock)] |}.
Proof.
  intros Hflags. unfold SocketSetBlocking.
  rewrite (bind_Done_eq _ _ _ _ _ (native_int_ok _ _ _ _ _ _)).
  rewrite Hflags. reflexivity.
Qed.

(** ** Receiving *)

Lemma snoc_replicate {A} (l : list A) (x : A) (n : nat) :
  (l ++ [x]) ++ replicate n x = l ++ replicate (S n) x.
Proof. rewrite <- app_assoc. reflexivity. Qed.

Lemma SocketReceive_loop_failed (fuel : nat) (fd maxlen e e' : Z) (data : block)
    (o : list Reply) (tr : list Call) :
  SocketReceive_loop (S fuel) fd data maxlen
    {| w_errno := e; w_oracle := R_err e' :: o; w_trace := tr |}
  = if e' =? WSAEINTR then
      SocketReceive_loop fuel fd data maxlen
        {| w_errno := e'; w_oracle := o; w_trace := tr ++ [call_recv fd maxlen] |}
    else
      Done (SOCKET_ERROR, data)
        {| w_errno := e'; w_oracle := o; w_trace := tr ++ [call_recv fd maxlen] |}.
Proof. cbn [SocketReceive_loop]. run. destruct (e' =? WSAEINTR); reflexivity. Qed.

Lemma SocketReceive_loop_received (fuel : nat) (fd maxlen e : Z) (data bs : block)
    (o : list Reply) (tr : list Call) :
  Z.of_nat (length bs) <= maxlen -> (length bs <= length data)%nat ->
  SocketReceive_loop (S fuel) fd data maxlen
    {| w_errno := e; w_oracle := R_data bs :: o; w_trace := tr |}
  = if e =? WSAEINTR then
      SocketReceive_loop fuel fd (bs ++ drop (length bs) data) maxlen
        {| w_errno := e; w_oracle := o; w_trace := tr ++ [call_recv fd maxlen] |}
    else
      Done (Z.of_nat (length bs), bs ++ drop (length bs) data)
        {| w_errno := e; w_oracle := o; w_trace := tr ++ [call_recv fd maxlen] |}.
Proof.
  intros Hmax Hroom. cbn [SocketReceive_loop]. run.
  replace (Z.of_nat (length bs) <=? maxlen) with true
    by (symmetry; apply Z.leb_le; lia).
  rewrite decide_True by lia. destruct (e =? WSAEINTR); reflexivity.
Qed.

(** Once the last-error slot holds the interrupted-call error, the loop
    goes on through every successful recv. *)
Lemma SocketReceive_loop_discards (fd maxlen e' : Z) (rest : list Reply) :
  e' <> WSAEINTR ->
  forall (chunks : list block) (fuel : nat) (data : block) (tr : list Call),
  Forall (fun bs => Z.of_nat (length bs) <= maxlen
                    /\ (length bs <= length data)%nat) chunks ->
  (length chunks < fuel)%nat ->
  exists data',
    length data' = length data
    /\ SocketReceive_loop fuel fd data maxlen
         {| w_errno := WSAEINTR; w_oracle := (R_data <$> chunks) ++ R_err e' :: rest;
            w_trace := tr |}
       = Done (SOCKET_ERROR, data')
           {| w_errno := e'; w_oracle := rest;
              w_trace := tr ++ replicate (S (length chunks)) (call_recv fd maxlen) |}.
Proof.
  intros He. induction chunks as [|bs chunks IH]; intros fuel data tr Hfit Hfuel;
    (destruct fuel as [|fuel]; [cbn in Hfuel; lia|]).
  - cbn [fmap list_fmap app]. rewrite SocketReceive_loop_failed.
    replace (e' =? WSAEINTR) with false by (symmetry; apply Z.eqb_neq; lia).
    exists data. split; reflexivity.
  - apply Forall_cons in Hfit as [[Hmax Hroom] Hfit].
    cbn [fmap list_fmap app]. rewrite SocketReceive_loop_received by assumption.
    rewrite Z.eqb_refl.
    assert (Hlen : length (bs ++ drop (length bs) data) = length data)
      by (rewrite length_app, length_drop; lia).
    destruct (IH fuel (bs ++ drop (length bs) data) (tr ++ [call_recv fd maxlen]))
      as (data' & Hdata' & Hrun).
    + rewrite Hlen. exact Hfit.
    + cbn [length] in Hfuel. lia.
    + exists data'. split; [lia|]. rewrite Hrun, snoc_replicate. reflexivity.
Qed.

(** X14: A recv that fails on a TCP, non-server socket (with an error other
    than the interrupted-call error) makes SocketReceive return the failure
    indicator and clear the ready flag; the error is not captured in the
    socket status and stays in the last-error slot.  A recv of no bytes
    (the peer has closed) gives 0 and leaves the buffer as it is. *)
Theorem SocketReceive_tcp_nothing_received (sock : Socket) (data : block)
    (maxlen e : Z) (rest : list Reply) (tr : list Call) :
  isServer sock = false -> type sock = SOCKET_TCP -> 0 <= maxlen ->
  (forall e', e' <> WSAEINTR ->
     SocketReceive sock data maxlen
       {| w_errno := e; w_oracle := R_err e' :: rest; w_trace := tr |}
     = Done (SOCKET_ERROR, set_ready 0 sock, data)
         {| w_errno := e'; w_oracle := rest;
            w_trace := tr ++ [call_recv (channel sock) maxlen] |})
  /\ SocketReceive sock data maxlen
       {| w_errno := e; w_oracle := R_data [] :: rest; w_trace := tr |}
     = Done (0, set_ready 0 sock, data)
         {| w_errno := 0; w_oracle := rest;
            w_trace := tr ++ [call_recv (channel sock) maxlen] |}.
Proof.
  intros Hs Ht Hmax. split; [intros e' He|].
  - unfold SocketReceive. rewrite Hs, Ht. cbn [andb].
    unfold bind at 1. unfold SocketSetLastError at 1.
    unfold bind at 1. unfold with_fuel at 1, with_errno.
    cbn [w_errno w_oracle w_trace length].
    rewrite SocketReceive_loop_failed.
    replace (e' =? WSAEINTR) with false by (symmetry; apply Z.eqb_neq; lia).
    pose proof SOCKET_ERROR_negative.
    replace (0 <? SOCKET_ERROR) with false by (symmetry; apply Z.ltb_ge; lia).
    reflexivity.
  - unfold SocketReceive. rewrite Hs, Ht. cbn [andb].
    unfold bind at 1. unfold SocketSetLastError at 1.
    unfold bind at 1. unfold with_fuel at 1, with_errno.
    cbn [w_errno w_oracle w_trace length].
    rewrite SocketReceive_loop_received by (cbn [length]; lia).
    cbn [w_errno]. rewrite zero_is_not_WSAEINTR. reflexivity.
Qed.

(** X15: The retry loop of the TCP branch clears the last-error slot before the
    loop only: after one interrupted recv the slot keeps the interrupted-call
    error through every recv that succeeds, so the loop goes on calling recv,
    each time into the start of the buffer, until a recv fails with another
    error; SocketReceive then returns the failure indicator, whatever was
    received in between. *)
Theorem SocketReceive_tcp_after_interrupt (sock : Socket) (data : block)
    (maxlen e e' : Z) (chunks : list block) (rest : list Reply) (tr : list Call) :
  isServer sock = false -> type sock = SOCKET_TCP ->
  Forall (fun bs => Z.of_nat (length bs) <= maxlen
                    /\ (length bs <= length data)%nat) chunks ->
  e' <> WSAEINTR ->
  exists data',
    length data' = length data
    /\ SocketReceive sock data maxlen
         {| w_errno := e;
            w_oracle := R_err WSAEINTR :: (R_data <$> chunks) ++ R_err e' :: rest;
            w_trace := tr |}
       = Done (SOCKET_ERROR, set_ready 0 sock, data')
           {| w_errno := e'; w_oracle := rest;
              w_trace := tr ++ replicate (S (S (length chunks)))
                                 (call_recv (channel sock) maxlen) |}.
Proof.
  intros Hs Ht Hfit He.
  destruct (SocketReceive_loop_discards (channel sock) maxlen e' rest He chunks
              (S (length ((R_data <$> chunks) ++ R_err e' :: rest))) data
              (tr ++ [call_recv (channel sock) maxlen]) Hfit)
    as (data' & Hlen & Hrun).
  { rewrite length_app, length_fmap. lia. }
  exists data'. split; [exact Hlen|].
  unfold SocketReceive. rewrite Hs, Ht. cbn [andb].
  unfold bind at 1. unfold SocketSetLastError at 1.
  unfold bind at 1. unfold with_fuel at 1, with_errno.
  cbn [w_errno w_oracle w_trace length].
  rewrite SocketReceive_loop_failed, Z.eqb_refl, Hrun, snoc_replicate.
  pose proof SOCKET_ERROR_negative.
  replace (0 <? SOCKET_ERROR) with false by (symmetry; apply Z.ltb_ge; lia).
  reflexivity.
Qed.

(** X16: On a UDP socket SocketReceive makes one recvfrom call: a datagram,
    also an empty one, is stored at the start of the buffer without a
    terminator, the ready flag is cleared and the result is 1, not the
    count of the bytes; a failed call gives 0, with the error captured in
    the socket status and cleared from the last-error slot, and the ready
    flag as it was. *)
Theorem SocketReceive_udp_spec (sock : Socket) (data : block)
    (maxlen e : Z) (rest : list Reply) (tr : list Call) :
  type sock = SOCKET_UDP ->
  (forall bs, Z.of_nat (length bs) <= maxlen -> (length bs <= length data)%nat ->
     SocketReceive sock data maxlen
       {| w_errno := e; w_oracle := R_data bs :: rest; w_trace := tr |}
     = Done (1, set_ready 0 sock, bs ++ drop (length bs) data)
         {| w_errno := 0; w_oracle := rest;
            w_trace := tr ++ [call_recvfrom (channel sock) maxlen] |})
  /\ (forall e',
        SocketReceive sock data maxlen
          {| w_errno := e; w_oracle := R_err e' :: rest; w_trace := tr |}
        = Done (0, set_status e' sock, data)
            {| w_errno := 0; w_oracle := rest;
               w_trace := tr ++ [call_recvfrom (channel sock) maxlen] |}).
Proof.
  intros Ht. split.
  - intros bs Hmax Hroom. unfold SocketReceive. rewrite Ht.
    rewrite bool_decide_eq_false_2 by discriminate. rewrite andb_false_r. run.
    replace (Z.of_nat (length bs) <=? maxlen) with true
      by (symmetry; apply Z.leb_le; lia).
    rewrite decide_True by lia.
    replace (0 <=? Z.of_nat (length bs)) with true by (symmetry; apply Z.leb_le; lia).
    reflexivity.
  - intros e'. unfold SocketReceive. rewrite Ht.
    rewrite bool_decide_eq_false_2 by discriminate. rewrite andb_false_r. run.
    pose proof SOCKET_ERROR_negative.
    replace (0 <=? SOCKET_ERROR) with false by (symmetry; apply Z.leb_gt; lia).
    reflexivity.
Qed.

(** ** Accepting *)

(** X17: SocketAccept on a socket that is no TCP server returns NULL and does
    nothing else.  When accept fails it returns NULL as well: the ready
    flag of the server is cleared, the error is captured in the status of
    the new socket, which is then dropped, and cleared from the last-error
    slot; the server status is not changed, and the invalid channel is not
    closed. *)
Theorem SocketAccept_refused_or_failed (server : Socket) (config : SocketConfig) :
  (forall w, isServer server = false \/ type server = SOCKET_UDP ->
     SocketAccept server config w = Done (None, server) w)
  /\ (forall a e e' rest tr,
        isServer server = true -> type server <> SOCKET_UDP -> a <> 0 ->
        SocketAccept server config
          {| w_errno := e; w_oracle := R_ok a :: R_err e' :: rest; w_trace := tr |}
        = Done (None, set_ready 0 server)
            {| w_errno := 0; w_oracle := rest;
               w_trace := (tr ++ [call_malloc sizeof_Socket])
                          ++ [call_accept (channel server)] |}).
Proof.
  split.
  - intros w Hrole. unfold SocketAccept.
    destruct Hrole as [-> | ->]; [reflexivity|].
    rewrite bool_decide_eq_true_2 by reflexivity. rewrite orb_true_r. reflexivity.
  - intros a e e' rest tr Hs Ht Ha. unfold SocketAccept, AllocSocket, SocketClose.
    rewrite Hs, bool_decide_eq_false_2 by exact Ht. run.
    replace (a =? 0) with false by (symmetry; apply Z.eqb_neq; lia).
    rewrite Z.eqb_refl. reflexivity.
Qed.

(** X18: The socket AllocSocket returns is not tested: when the allocation
    fails the connection is accepted all the same, and the new channel is
    then stored through the NULL pointer. *)
Theorem SocketAccept_unchecked_allocation (server : Socket) (config : SocketConfig)
    (fd e : Z) (peer : block) (rest : list Reply) (tr : list Call) :
  isServer server = true -> type server <> SOCKET_UDP ->
  (length peer <= sizeof_sockaddr_storage)%nat ->
  SocketAccept server config
    {| w_errno := e; w_oracle := R_ok 0 :: R_accept fd peer :: rest; w_trace := tr |}
  = Crashed NullDereference
      {| w_errno := e; w_oracle := rest;
         w_trace := (tr ++ [call_malloc sizeof_Socket])
                    ++ [call_accept (channel server)] |}.
Proof.
  intros Hs Ht Hpeer. unfold SocketAccept, AllocSocket.
  rewrite Hs, bool_decide_eq_false_2 by exact Ht. run.
  rewrite decide_True by exact Hpeer. reflexivity.
Qed.

(** X19: The address of the peer is copied from the address member of the
    sockaddr_in that accept filled, not from its start, with the size of
    the whole structure: the stored address of the accepted socket is the
    peer's address shifted by four bytes (its family and port members hold
    the bytes of the IP address), followed by four bytes of the storage
    that accept has not written. *)
Theorem SocketAccept_peer_address_is_shifted (server : Socket) (config : SocketConfig)
    (a fd flags b e : Z) (peer junk : block) (rest : list Reply) (tr : list Call) :
  isServer server = true -> type server <> SOCKET_UDP ->
  cfg_nonblocking config = false -> Z.land flags O_NONBLOCK = 0 ->
  a <> 0 -> b <> 0 -> fd <> INVALID_SOCKET ->
  length peer = sizeof_sockaddr_in -> sa_family peer = AF_INET ->
  length junk = 4%nat ->
  let stored := drop offsetof_sin_addr peer ++ junk in
  SocketAccept server config
    {| w_errno := e;
       w_oracle := R_ok a :: R_accept fd peer :: R_ok flags :: R_ok b
                   :: R_data junk :: rest;
       w_trace := tr |}
  = Done (Some (set_addripv4 (Some stored)
                  (set_type (type server)
                     (set_ready 0 (set_isServer false (set_channel fd zero_Socket))))),
          set_ready 0 server)
      {| w_errno := e; w_oracle := rest;
         w_trace := tr ++ [call_malloc sizeof_Socket; call_accept (channel server);
                           call_fcntl_getfl fd;
                           call_malloc (Z.of_nat sizeof_sockaddr_in);
                           call_read_indeterminate 4] |}
  /\ length stored = sizeof_sockaddr_in
  /\ take 12 stored = drop offsetof_sin_addr peer.
Proof.
  intros Hs Ht Hmode Hflags Ha Hb Hfd Hpeer Hfamily Hjunk stored.
  assert (Hstored : length (drop offsetof_sin_addr peer) = 12%nat)
    by (rewrite length_drop, Hpeer; reflexivity).
  split; [|split].
  - unfold SocketAccept.
    rewrite Hs, bool_decide_eq_false_2 by exact Ht. rewrite Hmode. cbn [negb orb].
    rewrite (bind_Done_eq _ _ _ _ _ (AllocSocket_reply _ _ _ _)).
    replace (a =? 0) with false by (symmetry; apply Z.eqb_neq; lia).
    erewrite bind_Done_eq;
      [|apply accept_connection; rewrite Hpeer; unfold sizeof_sockaddr_in,
          sizeof_sockaddr_storage; lia].
    cbv beta iota. unfold deref at 1. unfold bind at 1, ret at 1.
    cbn [channel set_channel zero_Socket].
    replace (fd =? INVALID_SOCKET) with false by (symmetry; apply Z.eqb_neq; lia).
    erewrite bind_Done_eq; [|apply SocketSetBlocking_already; exact Hflags].
    erewrite bind_Done_eq;
      [|apply load_family_within; rewrite Hpeer; unfold sizeof_sockaddr_in; lia].
    rewrite Hfamily, Z.eqb_refl.
    rewrite bind_assoc, (bind_Done_eq _ _ _ _ _ (malloc_reply _ _ _ _ _)).
    replace (b =? 0) with false by (symmetry; apply Z.eqb_neq; lia).
    rewrite bind_assoc.
    erewrite bind_Done_eq;
      [|apply (read_bytes_past _ junk);
        [rewrite Hpeer; unfold sizeof_sockaddr_in, offsetof_sin_addr; lia
        |rewrite Hpeer, Hjunk; reflexivity]].
    unfold ret. rewrite Hpeer. rewrite <- !app_assoc. reflexivity.
  - subst stored. rewrite length_app, Hstored, Hjunk. reflexivity.
  - subst stored. rewrite take_app_length' by (symmetry; exact Hstored). reflexivity.
Qed.

(** ** Binding and listening *)

Lemma getsockname_reply (fd e : Z) (a bs : block) (o : list Reply) (tr : list Call) :
  (length bs <= length a)%nat ->
  getsockname fd a {| w_errno := e; w_oracle := R_data bs :: o; w_trace := tr |}
  = Done (0, bs ++ drop (length bs) a)
      {| w_errno := e; w_oracle := o; w_trace := tr ++ [call_getsockname fd] |}.
Proof.
  intros Hlen. unfold getsockname, bind, native, write_bytes.
  cbn [w_oracle w_errno w_trace]. rewrite decide_True by exact Hlen. reflexivity.
Qed.

(** The stored address SocketBind passes to bind: the slot the family tag
    of the socket selects. *)
Definition bind_address (sock : Socket) : option block :=
  if isIPv6 sock then addripv6 sock else addripv4 sock.

Definition bind_call (sock : Socket) (a : block) : Call :=
  call_bind (channel sock) a (Z.of_nat sizeof_sockaddr_storage).

(** X20: SocketBind makes no native call for a socket that is invalid, for a
    configuration that is no server, and for a socket without a stored
    address; the result status is the failure status.  Otherwise it calls
    bind once, with the stored address and the size of a sockaddr_storage
    whatever the family; when bind fails the error is captured in the
    socket status and cleared from the last-error slot. *)
Theorem SocketBind_failure (config : SocketConfig) (result : SocketResult) :
  (forall w, IsSocketValid (res_socket result) = false \/ cfg_server config = false ->
     SocketBind config result w
     = Done (false, set_res_status RESULT_FAILURE result) w)
  /\ forall sock,
       res_socket result = Some sock -> channel sock <> INVALID_SOCKET ->
       cfg_server config = true ->
       (bind_address sock = None ->
        forall w, SocketBind config result w
                  = Done (false, {| res_status := RESULT_FAILURE;
                                    res_socket := Some sock |}) w)
       /\ (forall a e e' rest tr,
             bind_address sock = Some a ->
             SocketBind config result
               {| w_errno := e; w_oracle := R_err e' :: rest; w_trace := tr |}
             = Done (false, {| res_status := RESULT_FAILURE;
                               res_socket := Some (set_status e' sock) |})
                 {| w_errno := 0; w_oracle := rest;
                    w_trace := tr ++ [bind_call sock a] |}).
Proof.
  split.
  - intros w Hrefused. unfold SocketBind. cbn [res_socket set_res_status].
    destruct Hrefused as [-> | ->]; [reflexivity|].
    rewrite orb_true_r. reflexivity.
  - intros sock Hsock Hvalid Hserver.
    assert (Hguard : negb (IsSocketValid (res_socket (set_res_status RESULT_FAILURE result)))
                     || negb (cfg_server config) = false).
    { cbn [res_socket set_res_status]. rewrite Hsock, Hserver. cbn [IsSocketValid].
      replace (channel sock =? INVALID_SOCKET) with false
        by (symmetry; apply Z.eqb_neq; lia). reflexivity. }
    split.
    + intros Hnone w. unfold SocketBind. rewrite Hguard.
      cbn [res_socket set_res_status]. rewrite Hsock. unfold bind_address in Hnone.
      unfold deref at 1. unfold bind at 1, ret at 1. rewrite Hnone. reflexivity.
    + intros a e e' rest tr Hsome. unfold SocketBind. rewrite Hguard.
      cbn [res_socket set_res_status]. rewrite Hsock. unfold bind_address in Hsome.
      unfold deref at 1. unfold bind at 1, ret at 1. rewrite Hsome.
      rewrite bind_assoc, (bind_Done_eq _ _ _ _ _ (native_int_err _ _ _ _ _ _)).
      rewrite Z.eqb_refl. cbn [negb].
      rewrite bind_assoc, (bind_Done_eq _ _ _ _ _ (capture_error_run _ _ _ _)).
      reflexivity.
Qed.

(** X21: After a successful bind and getsockname SocketBind allocates a new
    IPv4 slot; it tests the allocation before clearing the block but not
    before copying into it: when the allocation fails the copy goes through
    the NULL pointer. *)
Theorem SocketBind_unchecked_allocation (config : SocketConfig)
    (result : SocketResult) (sock : Socket) (a bs : block) (v e : Z)
    (rest : list Reply) (tr : list Call) :
  res_socket result = Some sock -> channel sock <> INVALID_SOCKET ->
  cfg_server config = true -> bind_address sock = Some a ->
  v <> SOCKET_ERROR -> (length bs <= length a)%nat ->
  SocketBind config result
    {| w_errno := e; w_oracle := R_ok v :: R_data bs :: R_ok 0 :: rest; w_trace := tr |}
  = Crashed NullDereference
      {| w_errno := e; w_oracle := rest;
         w_trace := tr ++ [bind_call sock a; call_getsockname (channel sock);
                           call_malloc (Z.of_nat sizeof_sockaddr_in)] |}.
Proof.
  intros Hsock Hvalid Hserver Hsome Hv Hbs. unfold SocketBind.
  cbn [res_socket set_res_status]. rewrite Hsock, Hserver. cbn [IsSocketValid].
  replace (channel sock =? INVALID_SOCKET) with false
    by (symmetry; apply Z.eqb_neq; lia).
  cbn [negb orb]. unfold bind_address in Hsome.
  unfold deref at 1. unfold bind at 1, ret at 1. rewrite Hsome.
  rewrite bind_assoc, (bind_Done_eq _ _ _ _ _ (native_int_ok _ _ _ _ _ _)).
  replace (v =? SOCKET_ERROR) with false by (symmetry; apply Z.eqb_neq; lia).
  cbn [negb]. unfold ret at 1. unfold bind at 1.
  unfold deref at 1. unfold bind at 1, ret at 1.
  cbn [channel set_status set_ready].
  erewrite bind_Done_eq; [|apply getsockname_reply; exact Hbs].
  cbn [Z.ltb Z.compare].
  rewrite (bind_Done_eq _ _ _ _ _ (malloc_reply _ _ _ _ _)).
  cbn [Z.eqb]. unfold deref at 1. unfold bind at 1, crash.
  rewrite <- !app_assoc. reflexivity.
Qed.

(** X22: For an IPv6 socket the address read back after the bind is stored in
    the IPv6 slot, and sixteen bytes of it, from its fifth byte on, are
    stored in a new IPv4 slot as well: the copy made after getsockname
    always targets the IPv4 slot. *)
Theorem SocketBind_ipv6_fills_ipv4_slot (config : SocketConfig)
    (result : SocketResult) (sock : Socket) (a bs : block) (v m e : Z)
    (rest : list Reply) (tr : list Call) :
  res_socket result = Some sock -> channel sock <> INVALID_SOCKET ->
  cfg_server config = true -> isIPv6 sock = true -> addripv6 sock = Some a ->
  v <> SOCKET_ERROR -> m <> 0 ->
  length a = sizeof_sockaddr_in6 -> length bs = sizeof_sockaddr_in6 ->
  SocketBind config result
    {| w_errno := e; w_oracle := R_ok v :: R_data bs :: R_ok m :: rest; w_trace := tr |}
  = Done (true,
          {| res_status := RESULT_SUCCESS;
             res_socket :=
               Some (set_addripv4
                       (Some (take sizeof_sockaddr_in (drop offsetof_sin_addr bs)))
                       (set_addripv6 (Some bs) (set_status 0 (set_ready 0 sock)))) |})
      {| w_errno := e; w_oracle := rest;
         w_trace := tr ++ [bind_call sock a; call_getsockname (channel sock);
                           call_malloc (Z.of_nat sizeof_sockaddr_in)] |}.
Proof.
  intros Hsock Hvalid Hserver Hv6 Hsome Hv Hm Ha Hbs. unfold SocketBind.
  cbn [res_socket set_res_status]. rewrite Hsock, Hserver. cbn [IsSocketValid].
  replace (channel sock =? INVALID_SOCKET) with false
    by (symmetry; apply Z.eqb_neq; lia).
  cbn [negb orb].
  unfold deref at 1. unfold bind at 1, ret at 1. rewrite Hv6, Hsome.
  rewrite bind_assoc, (bind_Done_eq _ _ _ _ _ (native_int_ok _ _ _ _ _ _)).
  replace (v =? SOCKET_ERROR) with false by (symmetry; apply Z.eqb_neq; lia).
  cbn [negb]. unfold ret at 1. unfold bind at 1.
  unfold deref at 1. unfold bind at 1, ret at 1.
  cbn [channel isIPv6 set_status set_ready]. rewrite Hv6.
  erewrite bind_Done_eq; [|apply getsockname_reply; lia].
  cbn [Z.ltb Z.compare].
  rewrite (bind_Done_eq _ _ _ _ _ (malloc_reply _ _ _ _ _)).
  replace (m =? 0) with false by (symmetry; apply Z.eqb_neq; lia).
  unfold deref at 1. unfold bind at 1, ret at 1.
  rewrite drop_ge, app_nil_r by lia.
  erewrite bind_Done_eq;
    [|apply read_bytes_within; rewrite Hbs;
      unfold offsetof_sin_addr, sizeof_sockaddr_in, sizeof_sockaddr_in6; lia].
  unfold ret. rewrite <- !app_assoc. reflexivity.
Qed.

(** X23: SocketListen makes no native call for a socket that is invalid, for a
    configuration that is no server, and for a UDP configuration: the type
    it tests is the one of the configuration, not the one of the socket.
    Otherwise it calls listen once with the configured backlog: on success
    the ready flag and the status of the socket are cleared; on failure the
    error is captured in the status and cleared from the last-error slot. *)
Theorem SocketListen_spec (config : SocketConfig) (result : SocketResult) :
  (forall w, IsSocketValid (res_socket result) = false \/ cfg_server config = false ->
     SocketListen config result w
     = Done (false, set_res_status RESULT_FAILURE result) w)
  /\ forall sock,
       res_socket result = Some sock -> channel sock <> INVALID_SOCKET ->
       cfg_server config = true ->
       (cfg_type config = SOCKET_UDP ->
        forall w, SocketListen config result w
                  = Done (false, {| res_status := RESULT_FAILURE;
                                    res_socket := Some sock |}) w)
       /\ (cfg_type config <> SOCKET_UDP ->
           forall e rest tr,
             let c := call_listen (channel sock) (cfg_backlog_size config) in
             (forall v, v <> SOCKET_ERROR ->
                SocketListen config result
                  {| w_errno := e; w_oracle := R_ok v :: rest; w_trace := tr |}
                = Done (true, {| res_status := RESULT_SUCCESS;
                                 res_socket := Some (set_status 0 (set_ready 0 sock)) |})
                    {| w_errno := e; w_oracle := rest; w_trace := tr ++ [c] |})
             /\ (forall e',
                   SocketListen config result
                     {| w_errno := e; w_oracle := R_err e' :: rest; w_trace := tr |}
                   = Done (false, {| res_status := RESULT_FAILURE;
                                     res_socket := Some (set_status e' sock) |})
                       {| w_errno := 0; w_oracle := rest; w_trace := tr ++ [c] |})).
Proof.
  split.
  - intros w Hrefused. unfold SocketListen. cbn [res_socket set_res_status].
    destruct Hrefused as [-> | ->]; [reflexivity|].
    rewrite orb_true_r. reflexivity.
  - intros sock Hsock Hvalid Hserver.
    assert (Hguard : negb (IsSocketValid (res_socket (set_res_status RESULT_FAILURE result)))
                     || negb (cfg_server config) = false).
    { cbn [res_socket set_res_status]. rewrite Hsock, Hserver. cbn [IsSocketValid].
      replace (channel sock =? INVALID_SOCKET) with false
        by (symmetry; apply Z.eqb_neq; lia). reflexivity. }
    split.
    + intros Hudp w. unfold SocketListen. rewrite Hguard.
      cbn [res_socket set_res_status]. rewrite Hsock, Hudp. reflexivity.
    + intros Htcp e rest tr c. split.
      * intros v Hv. unfold SocketListen. rewrite Hguard.
        cbn [res_socket set_res_status]. rewrite Hsock.
        rewrite bool_decide_eq_false_2 by exact Htcp. cbn [negb].
        unfold deref at 1. unfold bind at 1, ret at 1.
        rewrite bind_assoc, (bind_Done_eq _ _ _ _ _ (native_int_ok _ _ _ _ _ _)).
        replace (v =? SOCKET_ERROR) with false by (symmetry; apply Z.eqb_neq; lia).
        reflexivity.
      * intros e'. unfold SocketListen. rewrite Hguard.
        cbn [res_socket set_res_status]. rewrite Hsock.
        rewrite bool_decide_eq_false_2 by exact Htcp. cbn [negb].
        unfold deref at 1. unfold bind at 1, ret at 1.
        rewrite bind_assoc, (bind_Done_eq _ _ _ _ _ (native_int_err _ _ _ _ _ _)).
        rewrite Z.eqb_refl. cbn [negb].
        rewrite bind_assoc, (bind_Done_eq _ _ _ _ _ (capture_error_run _ _ _ _)).
        reflexivity.
Qed.

(** ** Socket options *)

Definition setsockopt_call (sock : Socket) (opt : SocketOpt) : Call :=
  call_setsockopt (channel sock) SOL_SOCKET (opt_id opt) (opt_value opt)
    (opt_valueLen opt).

(** The options of a configuration that SocketSetOptions looks at: the
    entries before the first one with id 0, among the first
    SOCKET_MAX_SOCK_OPTS. *)
Fixpoint before_terminator (opts : list SocketOpt) : list SocketOpt :=
  match opts with
  | [] => []
  | opt :: rest => if opt_id opt =? 0 then [] else opt :: before_terminator rest
  end.

Definition configured (config : SocketConfig) : list SocketOpt :=
  before_terminator (take (Z.to_nat SOCKET_MAX_SOCK_OPTS) (cfg_sockopts config)).

Lemma SocketSetOptions_from_applied (sock : Socket) (o : list Reply) :
  forall (opts : list SocketOpt) (vs : list Z) (e : Z) (tr : list Call),
  Forall (fun v => 0 <= v) vs ->
  (length vs <= length (before_terminator opts))%nat ->
  SocketSetOptions_from opts sock
    {| w_errno := e; w_oracle := (R_ok <$> vs) ++ o; w_trace := tr |}
  = SocketSetOptions_from (drop (length vs) opts) sock
      {| w_errno := e; w_oracle := o;
         w_trace := tr ++ (setsockopt_call sock <$> take (length vs) (before_terminator opts)) |}.
Proof.
  induction opts as [|opt opts IH]; intros vs e tr Hvs Hlen.
  - destruct vs; [|cbn in Hlen; lia]. cbn. rewrite app_nil_r. reflexivity.
  - destruct vs as [|v vs].
    + cbn [length drop take fmap list_fmap app]. rewrite app_nil_r. reflexivity.
    + cbn [before_terminator] in Hlen |- *.
      destruct (opt_id opt =? 0) eqn:Hid; [cbn in Hlen; lia|].
      apply Forall_cons in Hvs as [Hv Hvs].
      cbn [SocketSetOptions_from fmap list_fmap app length drop take]. rewrite Hid.
      rewrite (bind_Done_eq _ _ _ _ _ (native_int_ok _ _ _ _ _ _)).
      replace (v <? 0) with false by (symmetry; apply Z.ltb_ge; lia).
      rewrite IH by (cbn [length] in Hlen; first [exact Hvs | lia]).
      rewrite <- app_assoc. reflexivity.
Qed.

Lemma SocketSetOptions_from_done (sock : Socket) (opts : list SocketOpt) (w : World) :
  before_terminator opts = [] -> SocketSetOptions_from opts sock w = Done true w.
Proof.
  destruct opts as [|opt opts]; [reflexivity|]. cbn.
  destruct (opt_id opt =? 0); [reflexivity | discriminate].
Qed.

Lemma before_terminator_drop (opts : list SocketOpt) (n : nat) :
  before_terminator (drop n opts) = drop n (before_terminator opts)
  \/ (length (before_terminator opts) < n)%nat.
Proof.
  revert n. induction opts as [|opt opts IH]; intros n.
  - left. destruct n; reflexivity.
  - destruct n as [|n]; [left; reflexivity|].
    cbn [drop before_terminator]. destruct (opt_id opt =? 0).
    + right. cbn. lia.
    + destruct (IH n) as [-> | Hlt]; [left; reflexivity | right; cbn; lia].
Qed.

(** X24: SocketSetOptions applies the configured options in order, one
    setsockopt call each, up to the first entry with id 0 and to
    SOCKET_MAX_SOCK_OPTS entries at most; it stops at the first call that
    fails and returns false, with the later options not applied. *)
Theorem SocketSetOptions_spec (config : SocketConfig) (sock : Socket)
    (e : Z) (rest : list Reply) (tr : list Call) :
  (forall vs,
     Forall (fun v => 0 <= v) vs -> length vs = length (configured config) ->
     SocketSetOptions config sock
       {| w_errno := e; w_oracle := (R_ok <$> vs) ++ rest; w_trace := tr |}
     = Done true
         {| w_errno := e; w_oracle := rest;
            w_trace := tr ++ (setsockopt_call sock <$> configured config) |})
  /\ (forall vs e',
        Forall (fun v => 0 <= v) vs ->
        (length vs < length (configured config))%nat ->
        SocketSetOptions config sock
          {| w_errno := e; w_oracle := (R_ok <$> vs) ++ R_err e' :: rest;
             w_trace := tr |}
        = Done false
            {| w_errno := e'; w_oracle := rest;
               w_trace := tr ++ (setsockopt_call sock
                                   <$> take (S (length vs)) (configured config)) |}).
Proof.
  unfold SocketSetOptions, configured.
  set (opts := take (Z.to_nat SOCKET_MAX_SOCK_OPTS) (cfg_sockopts config)).
  split.
  - intros vs Hvs Hlen.
    rewrite SocketSetOptions_from_applied by first [exact Hvs | lia].
    rewrite SocketSetOptions_from_done.
    + rewrite Hlen, firstn_all. reflexivity.
    + destruct (before_terminator_drop opts (length vs)) as [-> | Hlt]; [|lia].
      rewrite Hlen. apply drop_all.
  - intros vs e' Hvs Hlen.
    rewrite SocketSetOptions_from_applied by first [exact Hvs | lia].
    destruct (before_terminator_drop opts (length vs)) as [Hdrop | Hlt]; [|lia].
    destruct (drop (length vs) (before_terminator opts)) as [|bad later] eqn:Hbad.
    { apply (f_equal length) in Hbad. rewrite length_drop in Hbad. cbn in Hbad. lia. }
    destruct (drop (length vs) opts) as [|opt opts'] eqn:Hopts; [discriminate Hdrop|].
    cbn [before_terminator] in Hdrop.
    destruct (opt_id opt =? 0) eqn:Hid; [discriminate Hdrop|].
    injection Hdrop as -> Hlater.
    cbn [SocketSetOptions_from]. rewrite Hid.
    rewrite (bind_Done_eq _ _ _ _ _ (native_int_err _ _ _ _ _ _)).
    pose proof SOCKET_ERROR_negative.
    replace (SOCKET_ERROR <? 0) with true by (symmetry; apply Z.ltb_lt; lia).
    unfold ret. do 2 f_equal. rewrite <- app_assoc. f_equal.
    assert (Hat : before_terminator opts !! length vs = Some bad).
    { rewrite <- (Nat.add_0_r (length vs)), <- lookup_drop, Hbad. reflexivity. }
    rewrite (take_S_r _ _ _ Hat), fmap_app. reflexivity.
Qed.

(** ** The candidate walk of CreateSocket *)

(** The socket call InitSocket makes for a candidate. *)
Definition socket_call (ty : SocketType) (it : addrinfo) : Call :=
  call_socket (if ai_family it =? AF_INET then AF_INET else AF_INET6)
    (match ty with SOCKET_UDP => SOCK_DGRAM | _ => SOCK_STREAM end) 0.

Lemma set_channel_twice (a b : Z) (sock : Socket) :
  set_channel a (set_channel b sock) = set_channel a sock.
Proof. reflexivity. Qed.

Lemma set_channel_same (sock : Socket) : set_channel (channel sock) sock = sock.
Proof. destruct sock; reflexivity. Qed.

Lemma InitSocket_opened (sock : Socket) (it : addrinfo) (fd e : Z) (o : list Reply)
    (tr : list Call) :
  type sock <> SOCKET_OTHER -> fd <> INVALID_SOCKET ->
  InitSocket sock it {| w_errno := e; w_oracle := R_ok fd :: o; w_trace := tr |}
  = Done (true, set_channel fd sock)
      {| w_errno := e; w_oracle := o; w_trace := tr ++ [socket_call (type sock) it] |}.
Proof.
  intros Hty Hfd. unfold InitSocket, socket_call.
  destruct (type sock) eqn:Heq; [| |congruence];
    destruct (ai_family it =? AF_INET);
    rewrite bind_assoc, (bind_Done_eq _ _ _ _ _ (native_int_ok _ _ _ _ _ _));
    unfold bind, ret; cbn [IsSocketValid channel set_channel];
    replace (fd =? INVALID_SOCKET) with false by (symmetry; apply Z.eqb_neq; lia);
    reflexivity.
Qed.

(** X25: The walk does not stop at a candidate that works: with no options
    configured and every socket call succeeding, every candidate of the
    list gets a socket call, in order; the socket ends with the descriptor
    opened for the last candidate, and the descriptors opened before are
    neither kept nor closed. *)
Theorem CreateSocket_walk_opens_every_candidate (config : SocketConfig)
    (rest : list Reply) (e : Z) :
  configured config = [] ->
  forall (its : list addrinfo) (fds : list Z) (sock : Socket) (tr : list Call),
  type sock <> SOCKET_OTHER ->
  length fds = length its -> Forall (fun fd => fd <> INVALID_SOCKET) fds ->
  CreateSocket_walk config its sock
    {| w_errno := e; w_oracle := (R_ok <$> fds) ++ rest; w_trace := tr |}
  = Done (true, set_channel (default (channel sock) (last fds)) sock)
      {| w_errno := e; w_oracle := rest;
         w_trace := tr ++ (socket_call (type sock) <$> its) |}.
Proof.
  intros Hopts.
  assert (Hnone : forall s w, SocketSetOptions config s w = Done true w).
  { intros s w. apply SocketSetOptions_from_done. exact Hopts. }
  induction its as [|it its IH]; intros fds sock tr Hty Hlen Hfds.
  - destruct fds; [|discriminate Hlen]. cbn. rewrite app_nil_r, set_channel_same.
    reflexivity.
  - destruct fds as [|fd fds]; [discriminate Hlen|].
    apply Forall_cons in Hfds as [Hfd Hfds].
    cbn [CreateSocket_walk fmap list_fmap app].
    rewrite (bind_Done_eq _ _ _ _ _ (InitSocket_opened sock it fd e _ tr Hty Hfd)).
    cbn [negb]. rewrite (bind_Done_eq _ _ _ _ _ (Hnone _ _)). cbn [negb].
    rewrite (IH fds (set_channel fd sock)) by (cbn in *; first [assumption | lia]).
    cbn [type set_channel channel]. rewrite set_channel_twice, <- app_assoc.
    do 2 f_equal. f_equal. destruct fds as [|fd' fds]; [reflexivity|].
    rewrite last_cons_cons. destruct (last (fd' :: fds)) eqn:Hlast; [reflexivity|].
    apply last_None in Hlast. discriminate Hlast.
Qed.

(** ** Blocking mode *)

Lemma lor_then_lxor (flags o : Z) :
  Z.land flags o = 0 -> Z.lxor (Z.lor flags o) o = flags.
Proof.
  intros Hdisjoint. apply Z.bits_inj'. intros i Hi.
  rewrite Z.lxor_spec, Z.lor_spec.
  assert (Hbit : Z.testbit flags i && Z.testbit o i = false)
    by (rewrite <- Z.land_spec, Hdisjoint; apply Z.bits_0).
  destruct (Z.testbit flags i), (Z.testbit o i); try reflexivity; discriminate Hbit.
Qed.

Lemma land_lor_same (flags o : Z) : Z.land (Z.lor flags o) o = o.
Proof.
  apply Z.bits_inj'. intros i Hi. rewrite Z.land_spec, Z.lor_spec.
  destruct (Z.testbit flags i), (Z.testbit o i); reflexivity.
Qed.

(** X26: Setting a blocking socket non-blocking and blocking again: the first
    call reads the flag word and writes it back with O_NONBLOCK added; the
    second, reading that word, writes back the word the socket had at the
    start. *)
Theorem blocking_mode_round_trip (sock : Socket) (flags e : Z)
    (rest : list Reply) (tr : list Call) :
  O_NONBLOCK <> 0 -> Z.land flags O_NONBLOCK = 0 ->
  (let* a := SocketSetNonBlocking sock in
   let* b := SocketSetBlocking sock in
   ret (a, b))
    {| w_errno := e;
       w_oracle := R_ok flags :: R_ok 0 :: R_ok (Z.lor flags O_NONBLOCK) :: R_ok 0
                   :: rest;
       w_trace := tr |}
  = Done (true, true)
      {| w_errno := e; w_oracle := rest;
         w_trace := tr ++ [call_fcntl_getfl (channel sock);
                           call_fcntl_setfl (channel sock) (Z.lor flags O_NONBLOCK);
                           call_fcntl_getfl (channel sock);
                           call_fcntl_setfl (channel sock) flags] |}.
Proof.
  intros Hbit Hflags. unfold SocketSetNonBlocking, SocketSetBlocking.
  rewrite !bind_assoc, (bind_Done_eq _ _ _ _ _ (native_int_ok _ _ _ _ _ _)).
  rewrite Hflags. cbn [Z.eqb negb].
  rewrite !bind_assoc, (bind_Done_eq _ _ _ _ _ (native_int_ok _ _ _ _ _ _)).
  unfold ret at 1. unfold bind at 1.
  rewrite !bind_assoc, (bind_Done_eq _ _ _ _ _ (native_int_ok _ _ _ _ _ _)).
  rewrite land_lor_same.
  replace (O_NONBLOCK =? 0) with false by (symmetry; apply Z.eqb_neq; lia).
  rewrite !bind_assoc, (bind_Done_eq _ _ _ _ _ (native_int_ok _ _ _ _ _ _)).
  rewrite lor_then_lxor by exact Hflags.
  unfold bind, ret. cbn [Z.eqb]. rewrite <- !app_assoc. reflexivity.
Qed.

(** X27: Neither function tests the result of reading the flag word.  When
    that call fails, SocketSetNonBlocking takes the failure indicator for a
    word that has O_NONBLOCK set and reports success without setting
    anything; SocketSetBlocking writes the indicator back with O_NONBLOCK
    taken out of it. *)
Theorem blocking_mode_unchecked_read (sock : Socket) (e e' : Z)
    (rest : list Reply) (tr : list Call) :
  O_NONBLOCK <> 0 ->
  SocketSetNonBlocking sock
    {| w_errno := e; w_oracle := R_err e' :: rest; w_trace := tr |}
  = Done true {| w_errno := e'; w_oracle := rest;
                 w_trace := tr ++ [call_fcntl_getfl (channel sock)] |}
  /\ SocketSetBlocking sock
       {| w_errno := e; w_oracle := R_err e' :: R_ok 0 :: rest; w_trace := tr |}
     = Done true
         {| w_errno := e'; w_oracle := rest;
            w_trace := tr ++ [call_fcntl_getfl (channel sock);
                              call_fcntl_setfl (channel sock) (Z.lnot O_NONBLOCK)] |}.
Proof.
  intros Hbit.
  assert (Hland : (Z.land (-1) O_NONBLOCK =? 0) = false)
    by (rewrite Z.land_m1_l; apply Z.eqb_neq; lia).
  split.
  - unfold SocketSetNonBlocking.
    rewrite (bind_Done_eq _ _ _ _ _ (native_int_err _ _ _ _ _ _)).
    rewrite Hland. reflexivity.
  - unfold SocketSetBlocking.
    rewrite (bind_Done_eq _ _ _ _ _ (native_int_err _ _ _ _ _ _)).
    rewrite Hland.
    rewrite (bind_Done_eq _ _ _ _ _ (native_int_ok _ _ _ _ _ _)).
    rewrite Z.lxor_m1_l. unfold ret. cbn [Z.eqb]. rewrite <- !app_assoc. reflexivity.
Qed.

(** ** Resolving *)

(** The entry AllocAddress returns when its two allocations succeed. *)
Definition fresh_address : addrinfo :=
  set_ai_addr (Some (replicate sizeof_sockaddr 0)) zero_addrinfo.

Definition AllocAddress_calls : list Call :=
  [call_malloc sizeof_addrinfo; call_malloc (Z.of_nat sizeof_sockaddr)].

Lemma AllocAddress_run (m1 m2 e : Z) (o : list Reply) (tr : list Call) :
  m1 <> 0 -> m2 <> 0 ->
  AllocAddress {| w_errno := e; w_oracle := R_ok m1 :: R_ok m2 :: o; w_trace := tr |}
  = Done (Some fresh_address)
      {| w_errno := e; w_oracle := o; w_trace := tr ++ AllocAddress_calls |}.
Proof.
  intros H1 H2. unfold AllocAddress, malloc, bind, native, ret.
  cbn [w_oracle w_errno w_trace].
  replace (m1 =? 0) with false by (symmetry; apply Z.eqb_neq; lia).
  cbn [w_oracle w_errno w_trace].
  replace (m2 =? 0) with false by (symmetry; apply Z.eqb_neq; lia).
  rewrite <- app_assoc. reflexivity.
Qed.

(** The replies of [n] entries allocated. *)
Fixpoint allocations (ms : list (Z * Z)) : list Reply :=
  match ms with
  | [] => []
  | (m1, m2) :: ms => R_ok m1 :: R_ok m2 :: allocations ms
  end.

Lemma ResolveHost_alloc_run (e : Z) (o : list Reply) :
  forall (ms : list (Z * Z)) (done todo tail : list (option addrinfo)) (tr : list Call),
  Forall (fun m => m.1 <> 0 /\ m.2 <> 0) ms -> length todo = length ms ->
  ResolveHost_alloc (length ms) (Z.of_nat (length done)) (done ++ todo ++ tail)
    {| w_errno := e; w_oracle := allocations ms ++ o; w_trace := tr |}
  = Done (Z.of_nat (length done + length ms),
          done ++ replicate (length ms) (Some fresh_address) ++ tail)
      {| w_errno := e; w_oracle := o;
         w_trace := tr ++ concat (replicate (length ms) AllocAddress_calls) |}.
Proof.
  induction ms as [|[m1 m2] ms IH]; intros done todo tail tr Hms Hlen.
  - destruct todo; [|discriminate Hlen]. cbn. rewrite Nat.add_0_r, app_nil_r.
    reflexivity.
  - destruct todo as [|slot todo]; [discriminate Hlen|].
    apply Forall_cons in Hms as [[Hm1 Hm2] Hms]. cbn [fst snd] in Hm1, Hm2.
    cbn [length ResolveHost_alloc allocations app].
    rewrite (bind_Done_eq _ _ _ _ _ (AllocAddress_run m1 m2 e _ tr Hm1 Hm2)).
    erewrite bind_Done_eq;
      [|apply store_at_Some; rewrite length_app; cbn [length]; lia].
    rewrite Nat2Z.id.
    rewrite insert_app_r_alt by lia. rewrite Nat.sub_diag. cbn [insert list_insert app].
    replace (Z.of_nat (length done) + 1)
      with (Z.of_nat (length (done ++ [Some fresh_address])))
      by (rewrite length_app; cbn [length]; lia).
    replace (done ++ Some fresh_address :: todo ++ tail)
      with ((done ++ [Some fresh_address]) ++ todo ++ tail)
      by (rewrite <- app_assoc; reflexivity).
    rewrite IH by (first [exact Hms | cbn [length] in Hlen; lia]).
    rewrite length_app. cbn [length replicate concat].
    rewrite <- !app_assoc. cbn [app].
    do 2 f_equal. f_equal. lia.
Qed.

(** What the copy loop leaves in the entry of a candidate. *)
Definition copied (it : addrinfo) : addrinfo :=
  {| ai_flags := ai_flags it; ai_family := ai_family it;
     ai_socktype := ai_socktype it; ai_protocol := ai_protocol it;
     ai_addrlen := ai_addrlen it; ai_addr := ai_addr it; ai_canonname := None |}.

(** A candidate whose address has the size of a struct sockaddr. *)
Definition short_address (it : addrinfo) : Prop :=
  exists a, ai_addr it = Some a /\ length a = sizeof_sockaddr.

Lemma ResolveHost_copy_run (size : Z) (w : World) :
  forall (its : list addrinfo) (done tail : list (option addrinfo)),
  Forall short_address its ->
  Z.of_nat (length done + length its) <= size ->
  ResolveHost_copy its (Z.of_nat (length done)) size
    (Some (done ++ replicate (length its) (Some fresh_address) ++ tail)) w
  = Done (Some (done ++ (Some <$> (copied <$> its)) ++ tail)) w.
Proof.
  induction its as [|it its IH]; intros done tail Hits Hsize.
  - reflexivity.
  - apply Forall_cons in Hits as [(a & Ha & Hlen) Hits].
    cbn [length] in Hsize. cbn [ResolveHost_copy length replicate app].
    replace (Z.of_nat (length done) <? size) with true
      by (symmetry; apply Z.ltb_lt; lia).
    unfold deref at 1. unfold bind at 1, ret at 1.
    erewrite bind_Done_eq;
      [|apply (load_at_Some _ _ (Some fresh_address)); [lia|];
        rewrite Nat2Z.id, lookup_app_r, Nat.sub_diag by lia; reflexivity].
    unfold deref at 1. unfold bind at 1, ret at 1.
    cbn [fresh_address set_ai_addr ai_addr].
    unfold deref at 1. unfold bind at 1, ret at 1.
    rewrite Ha. unfold deref at 1. unfold bind at 1, ret at 1.
    erewrite bind_Done_eq; [|apply read_bytes_within; lia].
    rewrite drop_0, take_ge by lia.
    unfold write_bytes. rewrite decide_True by (rewrite length_replicate; lia).
    unfold bind at 1, ret at 1.
    rewrite drop_ge, app_nil_r by (rewrite length_replicate; lia).
    erewrite bind_Done_eq;
      [|apply store_at_Some; rewrite length_app; cbn [length]; lia].
    rewrite Nat2Z.id, insert_app_r_alt, Nat.sub_diag by lia.
    cbn [insert list_insert zero_addrinfo ai_canonname].
    replace (Z.of_nat (length done) + 1)
      with (Z.of_nat (length (done ++ [Some (copied it)])))
      by (rewrite length_app; cbn [length]; lia).
    replace (done ++ _ :: replicate (length its) (Some fresh_address) ++ tail)
      with ((done ++ [Some (copied it)])
            ++ replicate (length its) (Some fresh_address) ++ tail).
    + rewrite IH by (first [exact Hits | rewrite length_app; cbn [length]; lia]).
      rewrite <- app_assoc. reflexivity.
    + rewrite <- app_assoc. cbn [app]. unfold copied. rewrite Ha. reflexivity.
Qed.

(** The hints ResolveHost passes to getaddrinfo. *)
Definition ResolveHost_hints (address : option string) (addressType flags : Z)
  : addrinfo :=
  let hints := set_ai_flags flags (set_ai_family addressType zero_addrinfo) in
  match address with
  | None =>
      if Z.land (ai_flags hints) AI_PASSIVE =? 0
      then set_ai_flags (Z.lor (ai_flags hints) AI_PASSIVE) hints
      else hints
  | Some _ => hints
  end.

Lemma getaddrinfo_reply (node service : option string) (hints : addrinfo)
    (st e : Z) (res : list addrinfo) (o : list Reply) (tr : list Call) :
  getaddrinfo node service hints
    {| w_errno := e; w_oracle := R_addrinfo st res :: o; w_trace := tr |}
  = Done (st, res)
      {| w_errno := e; w_oracle := o;
         w_trace := tr ++ [call_getaddrinfo node service hints] |}.
Proof. reflexivity. Qed.

Lemma ResolveHost_resolved (address service : option string)
    (addressType flags e : Z) (res : list addrinfo)
    (arr : list (option addrinfo)) (o : list Reply) (tr : list Call) :
  is_Some address \/ is_Some service ->
  addressType = AF_INET \/ addressType = AF_INET6 \/ addressType = AF_UNSPEC ->
  res <> [] ->
  ResolveHost address service addressType flags (Some arr)
    {| w_errno := e; w_oracle := R_addrinfo 0 res :: o; w_trace := tr |}
  = (let* (i, arr) := ResolveHost_alloc (length res) 0 arr in
     let* arr := store_at arr i None in
     let* out := ResolveHost_copy res 0 (Z.of_nat (length res))
                   (if negb (i =? Z.of_nat (length res)) then None else Some arr) in
     let* _ := native_void call_freeaddrinfo in
     ret (Z.of_nat (length res), out))
      {| w_errno := e; w_oracle := o;
         w_trace := tr ++ [call_getaddrinfo address service
                             (ResolveHost_hints address addressType flags)] |}.
Proof.
  intros Hnames Htype Hres. unfold ResolveHost.
  assert (Hnamed : bool_decide (is_Some address) || bool_decide (is_Some service) = true).
  { destruct Hnames as [Hn|Hn]; rewrite (bool_decide_eq_true_2 _ Hn);
      [reflexivity | apply orb_true_r]. }
  rewrite Hnamed. cbn [negb].
  assert (Htyped : (addressType =? AF_INET) || (addressType =? AF_INET6)
                   || (addressType =? AF_UNSPEC) = true).
  { destruct Htype as [-> | [-> | ->]]; rewrite Z.eqb_refl;
      rewrite ?orb_true_r; reflexivity. }
  rewrite Htyped. cbn [negb].
  change (match address with
          | Some _ => set_ai_flags flags (set_ai_family addressType zero_addrinfo)
          | None => _
          end) with (ResolveHost_hints address addressType flags).
  rewrite (bind_Done_eq _ _ _ _ _ (getaddrinfo_reply _ _ _ _ _ _ _ _)).
  cbv beta iota. cbn [Z.eqb negb].
  assert (Hsize : (Z.of_nat (length res) <=? 0) = false).
  { apply Z.leb_gt. destruct res; [congruence | cbn [length]; lia]. }
  rewrite Hsize. unfold ret at 1. unfold bind at 1.
  rewrite Nat2Z.id. reflexivity.
Qed.

(** X28: With an array of the caller that has a slot more than there are
    candidates, ResolveHost returns the number of the candidates; the array
    then holds, in the order of the list, an entry for each candidate with
    its flags, family, socket type, protocol, address length and (for an
    address of the size of a struct sockaddr) its address bytes, then the
    NULL terminator; the slots after it are untouched.  The calls are
    getaddrinfo, two allocations for each entry, and freeaddrinfo. *)
Theorem ResolveHost_fills_caller_array (address service : option string)
    (addressType flags e : Z) (res : list addrinfo) (ms : list (Z * Z))
    (arr : list (option addrinfo)) (rest : list Reply) (tr : list Call) :
  is_Some address \/ is_Some service ->
  addressType = AF_INET \/ addressType = AF_INET6 \/ addressType = AF_UNSPEC ->
  res <> [] -> Forall short_address res ->
  length ms = length res -> Forall (fun m => m.1 <> 0 /\ m.2 <> 0) ms ->
  (length res < length arr)%nat ->
  ResolveHost address service addressType flags (Some arr)
    {| w_errno := e; w_oracle := R_addrinfo 0 res :: allocations ms ++ rest;
       w_trace := tr |}
  = Done (Z.of_nat (length res),
          Some ((Some <$> (copied <$> res)) ++ None :: drop (S (length res)) arr))
      {| w_errno := e; w_oracle := rest;
         w_trace := tr ++ [call_getaddrinfo address service
                             (ResolveHost_hints address addressType flags)]
                       ++ concat (replicate (length res) AllocAddress_calls)
                       ++ [call_freeaddrinfo] |}.
Proof.
  intros Hnames Htype Hres Hshort Hms Hok Harr.
  rewrite ResolveHost_resolved by assumption.
  pose proof (ResolveHost_alloc_run e (rest) ms [] (take (length ms) arr)
                (drop (length ms) arr)
                (tr ++ [call_getaddrinfo address service
                          (ResolveHost_hints address addressType flags)]) Hok) as Halloc.
  cbn [length app Z.of_nat Nat.add] in Halloc. rewrite take_drop in Halloc.
  rewrite <- Hms.
  rewrite (bind_Done_eq _ _ _ _ _ (Halloc ltac:(rewrite length_take; lia))).
  cbv beta iota.
  erewrite bind_Done_eq;
    [|apply store_at_Some; rewrite length_app, length_replicate, length_drop; lia].
  rewrite Z.eqb_refl. cbn [negb].
  rewrite Nat2Z.id, insert_app_r_alt by (rewrite length_replicate; lia).
  rewrite length_replicate, Nat.sub_diag.
  destruct (drop (length ms) arr) as [|slot tail] eqn:Hdrop.
  { apply (f_equal length) in Hdrop. rewrite length_drop in Hdrop. cbn in Hdrop. lia. }
  cbn [insert list_insert].
  assert (Htail : tail = drop (S (length ms)) arr).
  { replace (S (length ms)) with (length ms + 1)%nat by lia.
    rewrite <- drop_drop, Hdrop. reflexivity. }
  rewrite Hms.
  pose proof (ResolveHost_copy_run (Z.of_nat (length res))
                {| w_errno := e; w_oracle := rest;
                   w_trace := (tr ++ [call_getaddrinfo address service
                                        (ResolveHost_hints address addressType flags)])
                              ++ concat (replicate (length res) AllocAddress_calls) |}
                res [] (None :: tail) Hshort) as Hcopy.
  cbn [length app Z.of_nat Nat.add] in Hcopy.
  rewrite (bind_Done_eq _ _ _ _ _ (Hcopy ltac:(lia))).
  unfold bind, native_void, ret. cbn [w_errno w_oracle w_trace].
  rewrite Htail, Hms, <- !app_assoc. reflexivity.
Qed.

(** X29: ResolveHost does not know the capacity of the array of the caller: it
    stores an entry for every candidate and the terminator after them.
    With an array that has as many slots as there are candidates, the
    terminator is stored past its end. *)
Theorem ResolveHost_terminator_past_array (address service : option string)
    (addressType flags e : Z) (res : list addrinfo) (ms : list (Z * Z))
    (arr : list (option addrinfo)) (rest : list Reply) (tr : list Call) :
  is_Some address \/ is_Some service ->
  addressType = AF_INET \/ addressType = AF_INET6 \/ addressType = AF_UNSPEC ->
  res <> [] ->
  length ms = length res -> Forall (fun m => m.1 <> 0 /\ m.2 <> 0) ms ->
  length arr = length res ->
  ResolveHost address service addressType flags (Some arr)
    {| w_errno := e; w_oracle := R_addrinfo 0 res :: allocations ms ++ rest;
       w_trace := tr |}
  = Crashed (StoreOutOfBounds (Z.of_nat (length res)) (Z.of_nat (length arr)))
      {| w_errno := e; w_oracle := rest;
         w_trace := tr ++ [call_getaddrinfo address service
                             (ResolveHost_hints address addressType flags)]
                       ++ concat (replicate (length res) AllocAddress_calls) |}.
Proof.
  intros Hnames Htype Hres Hms Hok Harr.
  rewrite ResolveHost_resolved by assumption.
  pose proof (ResolveHost_alloc_run e rest ms [] arr []
                (tr ++ [call_getaddrinfo address service
                          (ResolveHost_hints address addressType flags)]) Hok) as Halloc.
  cbn [length app Z.of_nat Nat.add] in Halloc. rewrite app_nil_r in Halloc.
  rewrite <- Hms.
  rewrite (bind_Done_eq _ _ _ _ _ (Halloc ltac:(lia))).
  cbv beta iota. unfold bind, store_at.
  rewrite app_nil_r, length_replicate.
  replace (Z.of_nat (length ms) <? Z.of_nat (length ms)) with false
    by (symmetry; apply Z.ltb_irrefl).
  rewrite andb_false_r. unfold crash. rewrite Harr, Hms, <- !app_assoc. reflexivity.
Qed.

(** X30: When the entry for the first candidate cannot be allocated, the local
    array pointer is set to NULL and the copy loop then goes through it. *)
Theorem ResolveHost_unallocated_entry (address service : option string)
    (addressType flags e : Z) (res : list addrinfo)
    (arr : list (option addrinfo)) (rest : list Reply) (tr : list Call) :
  is_Some address \/ is_Some service ->
  addressType = AF_INET \/ addressType = AF_INET6 \/ addressType = AF_UNSPEC ->
  res <> [] -> arr <> [] ->
  ResolveHost address service addressType flags (Some arr)
    {| w_errno := e; w_oracle := R_addrinfo 0 res :: R_ok 0 :: rest; w_trace := tr |}
  = Crashed NullDereference
      {| w_errno := e; w_oracle := rest;
         w_trace := tr ++ [call_getaddrinfo address service
                             (ResolveHost_hints address addressType flags);
                           call_malloc sizeof_addrinfo] |}.
Proof.
  intros Hnames Htype Hres Harr.
  rewrite ResolveHost_resolved by assumption.
  destruct res as [|it res]; [congruence|]. destruct arr as [|slot arr]; [congruence|].
  cbn [length ResolveHost_alloc ResolveHost_copy].
  unfold AllocAddress, bind, native, ret, store_at, deref, crash.
  cbn [w_oracle w_errno w_trace Z.eqb length Z.leb Z.compare andb negb].
  replace (0 <? Z.of_nat (S (length arr))) with true
    by (symmetry; apply Z.ltb_lt; lia).
  cbn [insert list_insert Z.to_nat length].
  replace (0 <? Z.of_nat (S (length arr))) with true
    by (symmetry; apply Z.ltb_lt; lia).
  replace (0 =? Z.of_nat (S (length res))) with false
    by (symmetry; apply Z.eqb_neq; lia).
  replace (0 <? Z.of_nat (S (length res))) with true
    by (symmetry; apply Z.ltb_lt; lia).
  cbn [negb]. rewrite <- app_assoc. reflexivity.
Qed.

End Further.

(** ** Instances of the further statements *)

Section FurtherOnLinux.
#[local] Existing Instance Linux.platform.

Definition scratch_packet : Packet :=
  {| pkt_size := 0; pkt_offs := 1; pkt_data := replicate 12 0 |}.


Lemma PacketWrite16_reads_past_field_witness :
  PacketWrite16 {| pkt_size := 0; pkt_offs := 2; pkt_data := [0; 0; 0; 0] |} 4660
    (world [])
  = Crashed (LoadOutOfBounds 4 4) (world []).
Proof.
  apply (PacketWrite16_reads_past_field
           {| pkt_size := 0; pkt_offs := 2; pkt_data := [0; 0; 0; 0] |} 4660 (world []));
    cbn; lia.
Defined.




Lemma PacketWrite_past_buffer_witness :
  exists i,
    PacketWrite32 {| pkt_size := 0; pkt_offs := 2; pkt_data := [0; 0; 0; 0] |} 1
      (world [])
    = Crashed (StoreOutOfBounds i 4) (world [])
    /\ 4 <= i.
Proof.
  apply (PacketWrite_past_buffer
           {| pkt_size := 0; pkt_offs := 2; pkt_data := [0; 0; 0; 0] |} 1 (world []));
    cbn; lia.
Defined.

Definition two_of_three : SocketSet :=
  {| numsockets := 2; maxsockets := 3; sockets := [Some 10; Some 11; None] |}.

Lemma two_of_three_wf : set_wf two_of_three.
Proof. split; [cbn; lia | reflexivity]. Qed.

Lemma AddSocket_spec_witness :
  exists set',
    AddSocket two_of_three (Some 12) (world []) = Done (3, set') (world [])
    /\ members set' = [Some 10; Some 11; Some 12].
Proof.
  destruct (AddSocket_spec two_of_three (world []) two_of_three_wf) as [_ Hsome].
  destruct (Hsome 12) as [_ Hroom].
  destruct Hroom as (set' & Hrun & _ & _ & Hmembers & _); [cbn; lia|].
  exists set'. split; [exact Hrun | exact Hmembers].
Defined.

Lemma RemoveSocket_spec_witness :
  exists set',
    RemoveSocket two_of_three (Some 10) (world []) = Done (1, set') (world [])
    /\ members set' = [Some 11].
Proof.
  destruct (RemoveSocket_spec two_of_three (world []) two_of_three_wf) as [_ Hsome].
  destruct (Hsome 10) as [_ Hmember].
  destruct (Hmember 0%nat) as (set' & Hrun & _ & _ & Hmembers & _);
    [reflexivity | intros j Hj; lia |].
  exists set'. split; [exact Hrun | exact Hmembers].
Defined.

Lemma AddSocket_then_RemoveSocket_witness :
  exists set1 set2,
    AddSocket two_of_three (Some 12) (world []) = Done (3, set1) (world [])
    /\ RemoveSocket set1 (Some 12) (world []) = Done (2, set2) (world [])
    /\ members set2 = [Some 10; Some 11]
    /\ numsockets set2 = 2.
Proof.
  apply (AddSocket_then_RemoveSocket two_of_three 12 (world []) two_of_three_wf).
  - cbn. lia.
  - intros Hin. apply list_elem_of_lookup_1 in Hin as [i Hi].
    destruct i as [|[|[|i]]]; discriminate Hi.
Defined.

Lemma AllocSocketSet_spec_witness :
  exists set,
    AllocSocketSet 3 (world [R_ok 1; R_ok 1])
    = Done (Some set)
        {| w_errno := 0; w_oracle := [];
           w_trace := [] ++ [call_malloc 16; call_malloc 24] |}
    /\ members set = [].
Proof.
  destruct (AllocSocketSet_spec 3 0 [] []) as [_ Hfirst]; [lia|].
  destruct (Hfirst 1) as [_ Hsecond]; [lia|].
  destruct (Hsecond 1) as (set & Hrun & _ & _ & Hmembers & _); [lia|].
  exists set. split; [exact Hrun | exact Hmembers].
Defined.

Definition one_of_three : SocketSet :=
  {| numsockets := 1; maxsockets := 3; sockets := [Some 10; None; None] |}.

Lemma one_of_three_wf : set_wf one_of_three.
Proof. split; [cbn; lia | reflexivity]. Qed.

Lemma AddSocket_fills_set_witness :
  exists set',
    add_all [11; 12] one_of_three (world []) = Done set' (world [])
    /\ members set' = [Some 10; Some 11; Some 12]
    /\ AddSocket set' (Some 13) (world []) = Done (-1, set') (with_errno 0 (world [])).
Proof.
  destruct (AddSocket_fills_set (world []) [11; 12] one_of_three one_of_three_wf)
    as (set' & Hrun & _ & _ & Hmembers & Hfull); [cbn; lia|].
  exists set'. split; [exact Hrun|]. split; [exact Hmembers|].
  apply Hfull. reflexivity.
Defined.

(** Two sockets, on the channels 3 and 5, and a set that watches both. *)
Definition socket_on (fd : Z) : Socket := set_channel fd zero_Socket.

Definition two_sockets : Heap := <[100 := socket_on 3]> (<[200 := socket_on 5]> ∅).

Definition watching : SocketSet :=
  {| numsockets := 2; maxsockets := 3; sockets := [Some 100; Some 200; None] |}.

Lemma watching_wf : set_wf watching.
Proof. split; [cbn; lia | reflexivity]. Qed.

Lemma watching_channels : Forall (fun s => 0 <= channel s) [socket_on 3; socket_on 5].
Proof. repeat constructor; cbn; lia. Qed.

Lemma watching_resolves : resolves two_sockets watching [socket_on 3; socket_on 5].
Proof.
  unfold resolves.
  change (members watching) with [Some 100; Some 200].
  constructor; [eexists; split; reflexivity|].
  constructor; [eexists; split; reflexivity|]. constructor.
Qed.



Lemma SocketReceive_tcp_nothing_received_witness :
  SocketReceive tcp_client [0; 0; 0; 0] 4 (world [R_err 104])
  = Done (-1, set_ready 0 tcp_client, [0; 0; 0; 0])
      {| w_errno := 104; w_oracle := []; w_trace := [] ++ [call_recv 3 4] |}.
Proof.
  assert (Hother : 104 <> WSAEINTR) by (vm_compute; discriminate).
  assert (Hmaxlen : 0 <= 4) by lia.
  exact (proj1 (SocketReceive_tcp_nothing_received tcp_client [0; 0; 0; 0] 4 0 [] []
                  eq_refl eq_refl Hmaxlen) 104 Hother).
Defined.

Lemma SocketReceive_tcp_after_interrupt_witness :
  exists data',
    length data' = 4%nat
    /\ SocketReceive tcp_client [0; 0; 0; 0] 4
         (world [R_err 4; R_data [1; 2]; R_data [3]; R_err 104])
       = Done (-1, set_ready 0 tcp_client, data')
           {| w_errno := 104; w_oracle := [];
              w_trace := [] ++ replicate 4 (call_recv 3 4) |}.
Proof.
  assert (Hother : 104 <> WSAEINTR) by (vm_compute; discriminate).
  assert (Hfit : Forall (fun bs => Z.of_nat (length bs) <= 4
                                   /\ (length bs <= length [0; 0; 0; 0])%nat)
                   [[1; 2]; [3]])
    by (repeat constructor; cbn; lia).
  exact (SocketReceive_tcp_after_interrupt tcp_client [0; 0; 0; 0] 4 0 104
           [[1; 2]; [3]] [] [] eq_refl eq_refl Hfit Hother).
Defined.

Definition udp_client : Socket := set_type SOCKET_UDP (socket_on 3).

Lemma SocketReceive_udp_spec_witness :
  SocketReceive udp_client [0; 0; 0; 0] 4 (world [R_data [7; 8]])
  = Done (1, set_ready 0 udp_client, [7; 8; 0; 0])
      {| w_errno := 0; w_oracle := []; w_trace := [] ++ [call_recvfrom 3 4] |}.
Proof.
  assert (Hmaxlen : Z.of_nat (length [7; 8]) <= 4) by (cbn; lia).
  assert (Hroom : (length [7; 8] <= length [0; 0; 0; 0])%nat) by (cbn; lia).
  exact (proj1 (SocketReceive_udp_spec udp_client [0; 0; 0; 0] 4 0 [] [] eq_refl)
           [7; 8] Hmaxlen Hroom).
Defined.

Lemma SocketAccept_refused_or_failed_witness :
  SocketAccept listening accept_config (world [R_ok 1; R_err 11])
  = Done (None, set_ready 0 listening)
      {| w_errno := 0; w_oracle := [];
         w_trace := ([] ++ [call_malloc 2352]) ++ [call_accept 3] |}.
Proof.
  assert (Htcp : type listening <> SOCKET_UDP) by discriminate.
  assert (Hblock : 1 <> 0) by lia.
  exact (proj2 (SocketAccept_refused_or_failed listening accept_config)
           1 0 11 [] [] eq_refl Htcp Hblock).
Defined.

Lemma SocketAccept_unchecked_allocation_witness :
  SocketAccept listening accept_config (world [R_ok 0; R_accept 4 loopback4])
  = Crashed NullDereference
      {| w_errno := 0; w_oracle := [];
         w_trace := ([] ++ [call_malloc 2352]) ++ [call_accept 3] |}.
Proof.
  assert (Htcp : type listening <> SOCKET_UDP) by discriminate.
  assert (Hfits : (length loopback4 <= sizeof_sockaddr_storage)%nat)
    by (vm_compute; lia).
  exact (SocketAccept_unchecked_allocation listening accept_config 4 0 loopback4 [] []
           eq_refl Htcp Hfits).
Defined.

Lemma SocketAccept_peer_address_is_shifted_witness :
  let stored := [127; 0; 0; 1; 0; 0; 0; 0; 0; 0; 0; 0; 9; 9; 9; 9] in
  SocketAccept listening ephemeral_server
    (world [R_ok 1; R_accept 4 loopback4; R_ok 2; R_ok 1; R_data [9; 9; 9; 9]])
  = Done (Some (set_addripv4 (Some stored)
                  (set_type SOCKET_TCP
                     (set_ready 0 (set_isServer false (set_channel 4 zero_Socket))))),
          set_ready 0 listening)
      {| w_errno := 0; w_oracle := [];
         w_trace := [] ++ [call_malloc 2352; call_accept 3; call_fcntl_getfl 4;
                           call_malloc 16; call_read_indeterminate 4] |}
  /\ length stored = 16%nat
  /\ take 12 stored = [127; 0; 0; 1; 0; 0; 0; 0; 0; 0; 0; 0].
Proof.
  assert (Htcp : type listening <> SOCKET_UDP) by discriminate.
  assert (Hblock : 1 <> 0) by lia.
  assert (Hvalid : 4 <> INVALID_SOCKET) by (vm_compute; discriminate).
  exact (SocketAccept_peer_address_is_shifted listening ephemeral_server
           1 4 2 1 0 loopback4 [9; 9; 9; 9] [] []
           eq_refl Htcp eq_refl eq_refl Hblock Hblock Hvalid eq_refl eq_refl eq_refl).
Defined.

Definition bound_result : SocketResult :=
  {| res_status := RESULT_FAILURE; res_socket := Some created_server |}.

Lemma SocketBind_failure_witness :
  SocketBind ephemeral_server bound_result (world [R_err 98])
  = Done (false, {| res_status := RESULT_FAILURE;
                    res_socket := Some (set_status 98 created_server) |})
      {| w_errno := 0; w_oracle := [];
         w_trace := [] ++ [call_bind 3 [2; 0; 0; 0; 127; 0; 0; 1; 0; 0; 0; 0; 0; 0; 0; 0]
                             128] |}.
Proof.
  assert (Hvalid : channel created_server <> INVALID_SOCKET)
    by (vm_compute; discriminate).
  exact (proj2 (proj2 (SocketBind_failure ephemeral_server bound_result)
                  created_server eq_refl Hvalid eq_refl)
           [2; 0; 0; 0; 127; 0; 0; 1; 0; 0; 0; 0; 0; 0; 0; 0] 0 98 [] [] eq_refl).
Defined.

Lemma SocketBind_unchecked_allocation_witness :
  SocketBind ephemeral_server bound_result (world [R_ok 0; R_data loopback4; R_ok 0])
  = Crashed NullDereference
      {| w_errno := 0; w_oracle := [];
         w_trace := [] ++ [call_bind 3 [2; 0; 0; 0; 127; 0; 0; 1; 0; 0; 0; 0; 0; 0; 0; 0]
                             128;
                           call_getsockname 3; call_malloc 16] |}.
Proof.
  assert (Hvalid : channel created_server <> INVALID_SOCKET)
    by (vm_compute; discriminate).
  assert (Hok : 0 <> SOCKET_ERROR) by (vm_compute; discriminate).
  assert (Hfits : (length loopback4 <= 16)%nat) by (vm_compute; lia).
  exact (SocketBind_unchecked_allocation ephemeral_server bound_result created_server
           [2; 0; 0; 0; 127; 0; 0; 1; 0; 0; 0; 0; 0; 0; 0; 0] loopback4 0 0 [] []
           eq_refl Hvalid eq_refl eq_refl Hok Hfits).
Defined.

Definition server6 : Socket :=
  set_isIPv6 true (set_addripv6 (Some loopback6)
                     (set_isServer true (set_channel 3 zero_Socket))).

Lemma SocketBind_ipv6_fills_ipv4_slot_witness :
  SocketBind ephemeral_server
    {| res_status := RESULT_FAILURE; res_socket := Some server6 |}
    (world [R_ok 0; R_data loopback6; R_ok 1])
  = Done (true,
          {| res_status := RESULT_SUCCESS;
             res_socket :=
               Some (set_addripv4
                       (Some [0; 0; 0; 0; 0; 0; 0; 0; 0; 0; 0; 0; 0; 0; 0; 0])
                       (set_addripv6 (Some loopback6)
                          (set_status 0 (set_ready 0 server6)))) |})
      {| w_errno := 0; w_oracle := [];
         w_trace := [] ++ [call_bind 3 loopback6 128; call_getsockname 3;
                           call_malloc 16] |}.
Proof.
  assert (Hvalid : channel server6 <> INVALID_SOCKET) by (vm_compute; discriminate).
  assert (Hok : 0 <> SOCKET_ERROR) by (vm_compute; discriminate).
  assert (Hblock : 1 <> 0) by lia.
  exact (SocketBind_ipv6_fills_ipv4_slot ephemeral_server
           {| res_status := RESULT_FAILURE; res_socket := Some server6 |}
           server6 loopback6 loopback6 0 1 0 [] []
           eq_refl Hvalid eq_refl eq_refl eq_refl Hok Hblock eq_refl eq_refl).
Defined.

Lemma SocketListen_spec_witness :
  SocketListen ephemeral_server bound_result (world [R_ok 0])
  = Done (true, {| res_status := RESULT_SUCCESS;
                   res_socket := Some (set_status 0 (set_ready 0 created_server)) |})
      {| w_errno := 0; w_oracle := []; w_trace := [] ++ [call_listen 3 0] |}.
Proof.
  assert (Hvalid : channel created_server <> INVALID_SOCKET)
    by (vm_compute; discriminate).
  assert (Htcp : cfg_type ephemeral_server <> SOCKET_UDP) by discriminate.
  assert (Hok : 0 <> SOCKET_ERROR) by (vm_compute; discriminate).
  exact (proj1 (proj2 (proj2 (SocketListen_spec ephemeral_server bound_result)
                         created_server eq_refl Hvalid eq_refl)
                  Htcp 0 [] []) 0 Hok).
Defined.

Definition reuse_address : SocketOpt :=
  {| opt_id := 2; opt_value := [1; 0; 0; 0]; opt_valueLen := 4 |}.

Definition keep_alive : SocketOpt :=
  {| opt_id := 9; opt_value := [1; 0; 0; 0]; opt_valueLen := 4 |}.

Definition with_options : SocketConfig :=
  {| cfg_host := None; cfg_port := Some "8080"%string; cfg_server := true;
     cfg_nonblocking := false; cfg_type := SOCKET_TCP; cfg_backlog_size := 0;
     cfg_sockopts := [reuse_address; keep_alive;
                      {| opt_id := 0; opt_value := []; opt_valueLen := 0 |};
                      reuse_address] |}.

Lemma SocketSetOptions_spec_witness :
  SocketSetOptions with_options tcp_client (world [R_ok 0; R_ok 0])
  = Done true
      {| w_errno := 0; w_oracle := [];
         w_trace := [] ++ [call_setsockopt 3 1 2 [1; 0; 0; 0] 4;
                           call_setsockopt 3 1 9 [1; 0; 0; 0] 4] |}.
Proof.
  assert (Haccepted : Forall (fun v => 0 <= v) [0; 0]) by (repeat constructor; lia).
  exact (proj1 (SocketSetOptions_spec with_options tcp_client 0 [] []) [0; 0]
           Haccepted eq_refl).
Defined.

Lemma CreateSocket_walk_opens_every_candidate_witness :
  CreateSocket_walk localhost_client [candidate4; candidate6] zero_Socket
    (world [R_ok 3; R_ok 4])
  = Done (true, set_channel 4 zero_Socket)
      {| w_errno := 0; w_oracle := [];
         w_trace := [] ++ [call_socket 2 1 0; call_socket 10 1 0] |}.
Proof.
  assert (Htype : type zero_Socket <> SOCKET_OTHER) by discriminate.
  assert (Hvalid : Forall (fun fd => fd <> INVALID_SOCKET) [3; 4])
    by (repeat constructor; vm_compute; discriminate).
  exact (CreateSocket_walk_opens_every_candidate localhost_client [] 0 eq_refl
           [candidate4; candidate6] [3; 4] zero_Socket [] Htype eq_refl Hvalid).
Defined.

Lemma blocking_mode_round_trip_witness :
  (let* a := SocketSetNonBlocking tcp_client in
   let* b := SocketSetBlocking tcp_client in
   ret (a, b))
    (world [R_ok 2; R_ok 0; R_ok 2050; R_ok 0])
  = Done (true, true)
      {| w_errno := 0; w_oracle := [];
         w_trace := [] ++ [call_fcntl_getfl 3; call_fcntl_setfl 3 2050;
                           call_fcntl_getfl 3; call_fcntl_setfl 3 2] |}.
Proof.
  assert (Hbit : O_NONBLOCK <> 0) by (vm_compute; discriminate).
  exact (blocking_mode_round_trip tcp_client 2 0 [] [] Hbit eq_refl).
Defined.

Lemma blocking_mode_unchecked_read_witness :
  SocketSetNonBlocking tcp_client (world [R_err 9])
  = Done true {| w_errno := 9; w_oracle := [];
                 w_trace := [] ++ [call_fcntl_getfl 3] |}
  /\ SocketSetBlocking tcp_client (world [R_err 9; R_ok 0])
     = Done true
         {| w_errno := 9; w_oracle := [];
            w_trace := [] ++ [call_fcntl_getfl 3; call_fcntl_setfl 3 (-2049)] |}.
Proof.
  assert (Hbit : O_NONBLOCK <> 0) by (vm_compute; discriminate).
  exact (blocking_mode_unchecked_read tcp_client 0 9 [] [] Hbit).
Defined.

Lemma candidate4_short : Forall short_address [candidate4].
Proof. repeat constructor. exists loopback4. split; reflexivity. Qed.

Lemma ResolveHost_fills_caller_array_witness :
  ResolveHost (Some "127.0.0.1"%string) (Some "8080"%string) 0 0 (Some [None; None; None])
    (world [R_addrinfo 0 [candidate4]; R_ok 1; R_ok 1])
  = Done (1, Some [Some candidate4; None; None])
      {| w_errno := 0; w_oracle := [];
         w_trace := [] ++ [call_getaddrinfo (Some "127.0.0.1"%string)
                             (Some "8080"%string) zero_addrinfo]
                       ++ [call_malloc 48; call_malloc 16] ++ [call_freeaddrinfo] |}.
Proof.
  assert (Hnamed : is_Some (Some "127.0.0.1"%string) \/ is_Some (Some "8080"%string))
    by (left; eexists; reflexivity).
  assert (Hfamily : 0 = AF_INET \/ 0 = AF_INET6 \/ 0 = AF_UNSPEC)
    by (right; right; reflexivity).
  assert (Hfound : [candidate4] <> []) by discriminate.
  assert (Hblocks : Forall (fun m : Z * Z => m.1 <> 0 /\ m.2 <> 0) [(1, 1)])
    by (repeat constructor; cbn; lia).
  assert (Hroom : (length [candidate4] < length [@None addrinfo; None; None])%nat)
    by (cbn; lia).
  exact (ResolveHost_fills_caller_array (Some "127.0.0.1"%string) (Some "8080"%string)
           0 0 0 [candidate4] [(1, 1)] [None; None; None] [] []
           Hnamed Hfamily Hfound candidate4_short eq_refl Hblocks Hroom).
Defined.

Lemma ResolveHost_terminator_past_array_witness :
  ResolveHost (Some "127.0.0.1"%string) (Some "8080"%string) 0 0 (Some [None])
    (world [R_addrinfo 0 [candidate4]; R_ok 1; R_ok 1])
  = Crashed (StoreOutOfBounds 1 1)
      {| w_errno := 0; w_oracle := [];
         w_trace := [] ++ [call_getaddrinfo (Some "127.0.0.1"%string)
                             (Some "8080"%string) zero_addrinfo]
                       ++ [call_malloc 48; call_malloc 16] |}.
Proof.
  assert (Hnamed : is_Some (Some "127.0.0.1"%string) \/ is_Some (Some "8080"%string))
    by (left; eexists; reflexivity).
  assert (Hfamily : 0 = AF_INET \/ 0 = AF_INET6 \/ 0 = AF_UNSPEC)
    by (right; right; reflexivity).
  assert (Hfound : [candidate4] <> []) by discriminate.
  assert (Hblocks : Forall (fun m : Z * Z => m.1 <> 0 /\ m.2 <> 0) [(1, 1)])
    by (repeat constructor; cbn; lia).
  exact (ResolveHost_terminator_past_array (Some "127.0.0.1"%string)
           (Some "8080"%string) 0 0 0 [candidate4] [(1, 1)] [None] [] []
           Hnamed Hfamily Hfound eq_refl Hblocks eq_refl).
Defined.

Lemma ResolveHost_unallocated_entry_witness :
  ResolveHost (Some "127.0.0.1"%string) (Some "8080"%string) 0 0 (Some [None; None])
    (world [R_addrinfo 0 [candidate4]; R_ok 0])
  = Crashed NullDereference
      {| w_errno := 0; w_oracle := [];
         w_trace := [] ++ [call_getaddrinfo (Some "127.0.0.1"%string)
                             (Some "8080"%string) zero_addrinfo;
                           call_malloc 48] |}.
Proof.
  assert (Hnamed : is_Some (Some "127.0.0.1"%string) \/ is_Some (Some "8080"%string))
    by (left; eexists; reflexivity).
  assert (Hfamily : 0 = AF_INET \/ 0 = AF_INET6 \/ 0 = AF_UNSPEC)
    by (right; right; reflexivity).
  assert (Hfound : [candidate4] <> []) by discriminate.
  assert (Hslots : [@None addrinfo; None] <> []) by discriminate.
  exact (ResolveHost_unallocated_entry (Some "127.0.0.1"%string)
           (Some "8080"%string) 0 0 0 [candidate4] [None; None] [] []
           Hnamed Hfamily Hfound Hslots).
Defined.

End FurtherOnLinux.
